(** * vue-cal: events, segments, overlaps and geometry

    A shallow embedding of the calendar core of vue-cal:
    - [date-utils.js]  (module [DateUtils]),
    - the event utilities of [src/unnamed/part_000] (module [Part000]),
    - the event utilities of [src/components/vue-cal/event-utils.js]
      (module [EventUtils]), an other revision of the same file.

    JavaScript numbers that hold minutes, pixels, counters and time values are
    integers in this code and are modelled by [Z]; a [Date] is its time value
    (milliseconds since the epoch) read in a local zone with a fixed offset.

    The zone is the parameter [tz] of the definitions and of the theorems:
    every statement is for a zone whose offset from UTC never changes.  In
    such a zone every civil day has 24 hours, so a date moved by whole days
    keeps its time of day, and 24 hours after an instant it is the next
    civil day.  A zone with daylight saving has days of 23 and of 25 hours,
    where neither holds: the statements on [endDate] after [addDays] and
    [subtractDays], on the time of day after [setDate], and on the loop of
    [event-utils.js] that steps by 24 hours, say so. *)

From Stdlib Require Import ZArith Lia String Ascii List Bool Permutation.
From stdpp Require Import base option list gmap strings.

Local Open Scope Z_scope.

(** ** The JavaScript runtime the sources rely on *)

Module JS.

(** [String(n)] for an integer [n]: decimal digits, a leading [-] when negative. *)
Definition digitChar (d : Z) : ascii := ascii_of_nat (48 + Z.to_nat d).

Fixpoint digits (fuel : nat) (n : Z) (acc : string) : string :=
  match fuel with
  | O => acc
  | S fuel' =>
      let acc' := String (digitChar (n mod 10)) acc in
      if n <? 10 then acc' else digits fuel' (n / 10) acc'
  end.

Definition Number_toString (n : Z) : string :=
  if n <? 0
  then String "-"%char (digits (S (Z.to_nat (Z.log2 (- n)))) (- n) EmptyString)
  else digits (S (Z.to_nat (Z.log2 n))) n EmptyString.

(** [s.substr(0, n)] *)
Definition substr0 (n : nat) (s : string) : string := substring 0 n s.

(** [s.indexOf(c) !== -1] / [s.includes(c)] for a one-character needle. *)
Fixpoint includesChar (c : ascii) (s : string) : bool :=
  match s with
  | EmptyString => false
  | String a s' => if Ascii.eqb a c then true else includesChar c s'
  end.

(** [[...new Set(l)]]: the first occurrence of every element, in order. *)
Definition dedupe `{EqDecision A} (l : list A) : list A :=
  fold_left (fun seen x => if bool_decide (x ∈ seen) then seen else (seen ++ [x])%list) l [].

(** [pos = l.indexOf(x); if (pos > -1) l.splice(pos, 1)] *)
Fixpoint spliceIndexOf `{EqDecision A} (x : A) (l : list A) : list A :=
  match l with
  | [] => []
  | y :: l' => if bool_decide (y = x) then l' else y :: spliceIndexOf x l'
  end.

(** [l.findIndex(p)]: [-1] when no element passes. *)
Fixpoint findIndex {A} (p : A → bool) (l : list A) : Z :=
  match l with
  | [] => -1
  | x :: l' =>
      if p x then 0
      else let i := findIndex p l' in if i <? 0 then -1 else i + 1
  end.

(** [l.sort(cmp)]: [cmp a b < 0] puts [a] first.  The engines sort stably. *)
Fixpoint sortInsert {A} (cmp : A → A → Z) (x : A) (l : list A) : list A :=
  match l with
  | [] => [x]
  | y :: l' => if 0 <? cmp x y then y :: sortInsert cmp x l' else x :: y :: l'
  end.

Definition sort {A} (cmp : A → A → Z) (l : list A) : list A :=
  foldr (sortInsert cmp) [] l.

(** [Math.ceil(a / b)] and [Math.round(a / b)] for integers [a] and [b > 0].
    [Math.round] rounds halves up. *)
Definition ceilDiv (a b : Z) : Z := - ((- a) / b).
Definition roundDiv (a b : Z) : Z := (2 * a + b) / (2 * b).

(** [Math.round(n / d)] for integers [n] and [d]; [None] when [d] is zero,
    where the quotient is not a finite number. *)
Definition roundQuotient (n d : Z) : option Z :=
  if d =? 0 then None
  else if 0 <? d then Some (roundDiv n d)
  else Some (roundDiv (- n) (- d)).

(** *** Date

    A [Date] is its time value.  Local civil time is the time value shifted
    by a fixed zone offset, given as [Date.prototype.getTimezoneOffset]
    returns it: minutes to add to local time to get UTC.  The offset is the
    same at every instant: no daylight saving. *)
Definition Date := Z.

Definition msPerSecond : Z := 1000.
Definition msPerMinute : Z := 60000.
Definition msPerHour : Z := 3600000.
Definition msPerDay : Z := 86400000.

(** Civil date of a day number (days since 1970-01-01), proleptic Gregorian. *)
Definition civilFromDays (z : Z) : Z * Z * Z :=
  let z := z + 719468 in
  let era := z / 146097 in
  let doe := z - era * 146097 in
  let yoe := (doe - doe / 1460 + doe / 36524 - doe / 146096) / 365 in
  let y := yoe + era * 400 in
  let doy := doe - (365 * yoe + yoe / 4 - yoe / 100) in
  let mp := (5 * doy + 2) / 153 in
  let d := doy - (153 * mp + 2) / 5 + 1 in
  let m := if mp <? 10 then mp + 3 else mp - 9 in
  ((if m <=? 2 then y + 1 else y), m, d).

Section Zone.
Variable tz : Z.

Definition getTimezoneOffset (d : Date) : Z := tz.
Definition getTime (d : Date) : Z := d.
Definition localTime (d : Date) : Z := d - tz * msPerMinute.
Definition fromLocal (t : Z) : Date := t + tz * msPerMinute.
Definition day (d : Date) : Z := localTime d / msPerDay.
Definition timeWithinDay (d : Date) : Z := localTime d mod msPerDay.

Definition getHours (d : Date) : Z := timeWithinDay d / msPerHour.
Definition getMinutes (d : Date) : Z := (timeWithinDay d / msPerMinute) mod 60.
Definition getSeconds (d : Date) : Z := (timeWithinDay d / msPerSecond) mod 60.
Definition getMilliseconds (d : Date) : Z := timeWithinDay d mod msPerSecond.

Definition getFullYear (d : Date) : Z := fst (fst (civilFromDays (day d))).
Definition getMonth (d : Date) : Z := snd (fst (civilFromDays (day d))) - 1.
Definition getDate (d : Date) : Z := snd (civilFromDays (day d)).
Definition getDay (d : Date) : Z := (day d + 4) mod 7.

(** [d.setHours(h, m, s, ms)]: same civil day, the given time of day; the
    new time value is what the call returns. *)
Definition setHours4 (d : Date) (h m s ms : Z) : Date :=
  fromLocal (day d * msPerDay + h * msPerHour + m * msPerMinute + s * msPerSecond + ms).
(** With three arguments the milliseconds are kept, with two the seconds too. *)
Definition setHours3 (d : Date) (h m s : Z) : Date :=
  setHours4 d h m s (getMilliseconds d).
Definition setHours2 (d : Date) (h m : Z) : Date :=
  setHours4 d h m (getSeconds d) (getMilliseconds d).

(** [d.setDate(n)]: day [n] of the month of [d], running over into the
    neighbouring months; the time of day is kept.  With a fixed offset that
    is a move by whole days of 24 hours. *)
Definition setDate (d : Date) (n : Z) : Date := d + (n - getDate d) * msPerDay.
End Zone.

(** Day number of the civil date [y]-[m]-[d], [m] from 1 to 12: the inverse
    of [civilFromDays]. *)
Definition daysFromCivil (y m d : Z) : Z :=
  let y := if m <=? 2 then y - 1 else y in
  let era := y / 400 in
  let yoe := y - era * 400 in
  let doy := (153 * (if 2 <? m then m - 3 else m + 9) + 2) / 5 + d - 1 in
  let doe := yoe * 365 + yoe / 4 - yoe / 100 + doy in
  era * 146097 + doe - 719468.

(** [Date.UTC(year, month, date)] for a month from 0 to 11: a year from 0 to
    99 stands for a year of the twentieth century.  Then the UTC readers and
    writers of a date. *)
Definition Date_UTC (year month date : Z) : Date :=
  let year := if (0 <=? year) && (year <=? 99) then 1900 + year else year in
  daysFromCivil year (month + 1) date * msPerDay.
Definition getUTCDay (d : Date) : Z := (d / msPerDay + 4) mod 7.
Definition getUTCDate (d : Date) : Z := snd (civilFromDays (d / msPerDay)).
Definition getUTCFullYear (d : Date) : Z := fst (fst (civilFromDays (d / msPerDay))).
Definition setUTCDate (d : Date) (n : Z) : Date := d + (n - getUTCDate d) * msPerDay.

End JS.

(** ** date-utils.js *)

Module DateUtils.
Import JS.

Section Zone.
Variable tz : Z.

(** [Date.prototype.addDays] and [Date.prototype.subtractDays] *)
Definition addDays (this : Date) (days : Z) : Date :=
  let date := this in
  setDate tz date (getDate tz date + days).

Definition subtractDays (this : Date) (days : Z) : Date :=
  let date := this in
  setDate tz date (getDate tz date - days).

(** [formatTime(time)] with its default format ['HH:mm'], the only one the
    event utilities ask for. *)
Definition formatTime (time : Z) : string :=
  let H := time / 60 in
  let m := Z.rem time 60 in
  let HH := (if H <? 10 then "0" else "") +:+ Number_toString H in
  let mm := (if m <? 10 then "0" else "") +:+ Number_toString m in
  HH +:+ ":" +:+ mm.

Definition formatDateLite (date : Date) : string :=
  let m := getMonth tz date + 1 in
  let d := getDate tz date in
  Number_toString (getFullYear tz date) +:+ "-"
    +:+ (if m <? 10 then "0" else "") +:+ Number_toString m +:+ "-"
    +:+ (if d <? 10 then "0" else "") +:+ Number_toString d.

(** [formatDate(date, null, texts)]: a null format is the default format,
    which goes to [formatDateLite]. *)
Definition formatDate_default (date : Date) : string := formatDateLite date.

(** The two normalised instants of [countDays]. *)
Definition countDays_start (start : Date) : Z := setHours3 tz start 0 0 0.
Definition countDays_end (end_ : Date) : Z := setHours3 tz end_ 0 0 1.

(** [countDays(start, end)] on two dates. *)
Definition countDays (start end_ : Date) : Z :=
  let start := countDays_start start in
  let end_ := countDays_end end_ in
  let timezoneDiffMs :=
    (getTimezoneOffset tz end_ - getTimezoneOffset tz start) * 60 * 1000 in
  ceilDiv (end_ - start - timezoneDiffMs) (24 * 3600 * 1000).

Definition datesInSameTimeStep (date1 date2 : Date) (timeStep : Z) : bool :=
  Z.abs (getTime date1 - getTime date2) <=? timeStep * 60 * 1000.
(** [Date.prototype.formatTime] with its default format. *)
Definition Date_formatTime (this : Date) : string :=
  formatTime (getHours tz this * 60 + getMinutes tz this).

(** [Date.prototype.getWeek].  [Math.ceil((((d - yearStart) / 86400000) + 1) / 7)]
    is the ceiling of [(d - yearStart + 86400000) / (7 * 86400000)]. *)
Definition getWeek (this : Date) : Z :=
  let d := Date_UTC (getFullYear tz this) (getMonth tz this) (getDate tz this) in
  let dayNum := if getUTCDay d =? 0 then 7 else getUTCDay d in
  let d := setUTCDate d (getUTCDate d + 4 - dayNum) in
  let yearStart := Date_UTC (getUTCFullYear d) 0 1 in
  ceilDiv (d - yearStart + 86400000) (7 * 86400000).

(** [Date.prototype.isLeapYear], as a truth value. *)
Definition isLeapYear (this : Date) : bool :=
  let year := getFullYear tz this in
  (Z.rem year 400 =? 0)
  || (negb (Z.rem year 100 =? 0) && (Z.rem year 4 =? 0)).

(** [getPreviousFirstDayOfWeek(date, weekStartsOnSunday)]; [now] is the
    [new Date()] that stands in for a date that is not given. *)
Definition getPreviousFirstDayOfWeek (now : Date) (date : option Date)
    (weekStartsOnSunday : bool) : Date :=
  let prevFirstDayOfWeek := default now date in
  let dayModifier := if weekStartsOnSunday then 7 else 6 in
  setDate tz prevFirstDayOfWeek
    (getDate tz prevFirstDayOfWeek
     - Z.rem (getDay tz prevFirstDayOfWeek + dayModifier) 7).

(** The variables [now], [todayDate] and [todayF] of the module. *)
Record TodayCache := mkToday {
  now : option Date;
  todayDate : option Z;
  todayF : option string
}.

(** [let now, todayDate, todayF] *)
Definition noToday : TodayCache := mkToday None None None.

(** [todayFormatted()] when [new Date()] is [clock]: what it returns
    ([None] is [undefined]) and the variables after the call. *)
Definition todayFormatted (clock : Date) (cache : TodayCache)
  : option string * TodayCache :=
  let cache :=
    if bool_decide (todayDate cache ≠ Some (getDate tz clock)) then
      mkToday (Some clock) (Some (getDate tz clock))
        (Some (Number_toString (getFullYear tz clock) +:+ "-"
                 +:+ Number_toString (getMonth tz clock) +:+ "-"
                 +:+ Number_toString (getDate tz clock)))
    else cache in
  (todayF cache, cache).

(** [Date.prototype.isToday] *)
Definition isToday (this : Date) (clock : Date) (cache : TodayCache)
  : bool * TodayCache :=
  let '(today, cache) := todayFormatted clock cache in
  (bool_decide
     (Some (Number_toString (getFullYear tz this) +:+ "-"
              +:+ Number_toString (getMonth tz this) +:+ "-"
              +:+ Number_toString (getDate tz this)) = today),
   cache).

End Zone.

End DateUtils.

(** ** The event model (the shape of [eventDefaults]) *)

Module Segment.
Import JS.

(** One day of a multiple-day event. *)
Record t := mk {
  startDate : Date;
  start : string;
  startTimeMinutes : Z;
  endTimeMinutes : Z;
  isFirstDay : bool;
  isLastDay : bool;
  height : Z;
  top : Z
}.

Definition set_isLastDay (b : bool) (s : t) : t :=
  mk (startDate s) (start s) (startTimeMinutes s) (endTimeMinutes s)
     (isFirstDay s) b (height s) (top s).

Definition set_endTimeMinutes (m : Z) (s : t) : t :=
  mk (startDate s) (start s) (startTimeMinutes s) m
     (isFirstDay s) (isLastDay s) (height s) (top s).
End Segment.

Module Repeat.
Import JS.

(** [event.repeat]: [every] is ['week'], ['month'], ['year'], ...; [until] is
    the date that [repeat.until] denotes, when it is given. *)
Record t := mk {
  every : string;
  weekdays : option (list Z);
  until : option Date
}.
End Repeat.

Module Occurrence.
(** An entry of [event.occurrences]: the time values of one repetition. *)
Record t := mk { start : Z; end_ : Z }.
End Occurrence.

Module Event.
Import JS.

Record t := mk {
  _eid : string;
  start : string;
  startDate : Date;
  startTimeMinutes : Z;
  end_ : string;
  endDate : Date;
  endTimeMinutes : Z;
  title : string;
  content : string;
  background : bool;
  allDay : bool;
  segments : option (gmap string Segment.t);
  repeat : option Repeat.t;
  occurrences : option (gmap string Occurrence.t);
  daysCount : Z;
  deletable : bool;
  deleting : bool;
  resizable : bool;
  resizing : bool;
  draggable : bool;
  dragging : bool;
  focused : bool;
  top : Z;
  height : Z;
  classes : list string
}.

Definition set__eid (v : string) (e : t) : t :=
  mk v (start e) (startDate e) (startTimeMinutes e) (end_ e) (endDate e)
     (endTimeMinutes e) (title e) (content e) (background e) (allDay e) (segments e)
     (repeat e) (occurrences e) (daysCount e) (deletable e) (deleting e) (resizable e)
     (resizing e) (draggable e) (dragging e) (focused e) (top e) (height e) (classes e).

Definition set_end (v : string) (e : t) : t :=
  mk (_eid e) (start e) (startDate e) (startTimeMinutes e) v (endDate e)
     (endTimeMinutes e) (title e) (content e) (background e) (allDay e) (segments e)
     (repeat e) (occurrences e) (daysCount e) (deletable e) (deleting e) (resizable e)
     (resizing e) (draggable e) (dragging e) (focused e) (top e) (height e) (classes e).

Definition set_endDate (v : Date) (e : t) : t :=
  mk (_eid e) (start e) (startDate e) (startTimeMinutes e) (end_ e) v
     (endTimeMinutes e) (title e) (content e) (background e) (allDay e) (segments e)
     (repeat e) (occurrences e) (daysCount e) (deletable e) (deleting e) (resizable e)
     (resizing e) (draggable e) (dragging e) (focused e) (top e) (height e) (classes e).

Definition set_segments (v : option (gmap string Segment.t)) (e : t) : t :=
  mk (_eid e) (start e) (startDate e) (startTimeMinutes e) (end_ e) (endDate e)
     (endTimeMinutes e) (title e) (content e) (background e) (allDay e) v
     (repeat e) (occurrences e) (daysCount e) (deletable e) (deleting e) (resizable e)
     (resizing e) (draggable e) (dragging e) (focused e) (top e) (height e) (classes e).

Definition set_daysCount (v : Z) (e : t) : t :=
  mk (_eid e) (start e) (startDate e) (startTimeMinutes e) (end_ e) (endDate e)
     (endTimeMinutes e) (title e) (content e) (background e) (allDay e) (segments e)
     (repeat e) (occurrences e) v (deletable e) (deleting e) (resizable e)
     (resizing e) (draggable e) (dragging e) (focused e) (top e) (height e) (classes e).

Definition set_top (v : Z) (e : t) : t :=
  mk (_eid e) (start e) (startDate e) (startTimeMinutes e) (end_ e) (endDate e)
     (endTimeMinutes e) (title e) (content e) (background e) (allDay e) (segments e)
     (repeat e) (occurrences e) (daysCount e) (deletable e) (deleting e) (resizable e)
     (resizing e) (draggable e) (dragging e) (focused e) v (height e) (classes e).

Definition set_height (v : Z) (e : t) : t :=
  mk (_eid e) (start e) (startDate e) (startTimeMinutes e) (end_ e) (endDate e)
     (endTimeMinutes e) (title e) (content e) (background e) (allDay e) (segments e)
     (repeat e) (occurrences e) (daysCount e) (deletable e) (deleting e) (resizable e)
     (resizing e) (draggable e) (dragging e) (focused e) (top e) v (classes e).

(** [Object.keys(e.segments).length]; the call throws on [null]. *)
Definition segmentsCount (e : t) : option Z :=
  (fun sg : gmap string Segment.t => Z.of_nat (size sg)) <$> segments e.
End Event.

(** [eventOptions]: the attributes the caller overrides; an attribute that is
    not given is [None]. *)
Module EventOptions.
Import JS.

Record t := mk {
  _eid : option string;
  start : option string;
  startDate : option Date;
  startTimeMinutes : option Z;
  end_ : option string;
  endDate : option Date;
  endTimeMinutes : option Z;
  title : option string;
  content : option string;
  background : option bool;
  allDay : option bool;
  segments : option (option (gmap string Segment.t));
  repeat : option (option Repeat.t);
  occurrences : option (option (gmap string Occurrence.t));
  daysCount : option Z;
  deletable : option bool;
  deleting : option bool;
  resizable : option bool;
  resizing : option bool;
  draggable : option bool;
  dragging : option bool;
  focused : option bool;
  top : option Z;
  height : option Z;
  classes : option (list string)
}.

(** [{}] *)
Definition empty : t :=
  mk None None None None None None None None None None None None None
     None None None None None None None None None None None None.

(** [{ ...base, ...o }] *)
Definition spread (base : Event.t) (o : t) : Event.t :=
  Event.mk
    (default (Event._eid base) (_eid o))
    (default (Event.start base) (start o))
    (default (Event.startDate base) (startDate o))
    (default (Event.startTimeMinutes base) (startTimeMinutes o))
    (default (Event.end_ base) (end_ o))
    (default (Event.endDate base) (endDate o))
    (default (Event.endTimeMinutes base) (endTimeMinutes o))
    (default (Event.title base) (title o))
    (default (Event.content base) (content o))
    (default (Event.background base) (background o))
    (default (Event.allDay base) (allDay o))
    (default (Event.segments base) (segments o))
    (default (Event.repeat base) (repeat o))
    (default (Event.occurrences base) (occurrences o))
    (default (Event.daysCount base) (daysCount o))
    (default (Event.deletable base) (deletable o))
    (default (Event.deleting base) (deleting o))
    (default (Event.resizable base) (resizable o))
    (default (Event.resizing base) (resizing o))
    (default (Event.draggable base) (draggable o))
    (default (Event.dragging base) (dragging o))
    (default (Event.focused base) (focused o))
    (default (Event.top base) (top o))
    (default (Event.height base) (height o))
    (default (Event.classes base) (classes o)).
End EventOptions.

(** The [vuecal] component, as far as the event utilities read and write it. *)
Module Vuecal.
(** What a call of the [onEventCreate] hook does: it may edit the event it
    is handed, it may call the delete callback it is handed, any number of
    times, before, between and after its edits, and it returns a verdict
    ([false] for any falsy value).  The callback reads the event when it is
    called: [deleteCalls] has the event as it was at each call, in the order
    of the calls, and [editedEvent] is the event as the hook leaves it. *)
Record HookOutcome := mkOutcome {
  editedEvent : Event.t;
  deleteCalls : list Event.t;
  verdict : bool
}.

Record t := mk {
  _uid : Z;
  eventIdIncrement : Z;
  time : bool;
  timeFrom : Z;
  timeTo : Z;
  timeCellHeight : Z;
  timeStep : Z;
  onEventCreate : option (Event.t → HookOutcome);
  mutableEvents : list Event.t;
  view_events : list Event.t;
  (** the signals sent through [emitWithEvent], oldest first *)
  emitted : list (string * Event.t)
}.

Definition set_eventIdIncrement (v : Z) (c : t) : t :=
  mk (_uid c) v (time c) (timeFrom c) (timeTo c) (timeCellHeight c) (timeStep c)
     (onEventCreate c) (mutableEvents c) (view_events c) (emitted c).

Definition set_mutableEvents (v : list Event.t) (c : t) : t :=
  mk (_uid c) (eventIdIncrement c) (time c) (timeFrom c) (timeTo c) (timeCellHeight c)
     (timeStep c) (onEventCreate c) v (view_events c) (emitted c).

Definition set_view_events (v : list Event.t) (c : t) : t :=
  mk (_uid c) (eventIdIncrement c) (time c) (timeFrom c) (timeTo c) (timeCellHeight c)
     (timeStep c) (onEventCreate c) (mutableEvents c) v (emitted c).

(** [vuecal.emitWithEvent(name, event)] is a method of the component; the
    event utilities only see that it sends the named signal with the event. *)
Definition emitWithEvent (name : string) (event : Event.t) (c : t) : t :=
  mk (_uid c) (eventIdIncrement c) (time c) (timeFrom c) (timeTo c) (timeCellHeight c)
     (timeStep c) (onEventCreate c) (mutableEvents c) (view_events c)
     (emitted c ++ [(name, event)])%list.
End Vuecal.

(** ** Overlaps

    [checkCellOverlappingEvents] and [getOverlapsStreak] read the same in
    [part_000] and in [event-utils.js]; they differ in the [eventInRange] they
    call, which is a parameter here. *)

Module Overlaps.
Import JS DateUtils.

(** An entry of [cellOverlaps]. *)
Record Record_ := mk {
  overlaps : list string;
  start : string;
  position : Z
}.

Definition set_overlaps (v : list string) (r : Record_) : Record_ :=
  mk v (start r) (position r).
Definition set_position (v : Z) (r : Record_) : Record_ :=
  mk (overlaps r) (start r) v.

(** [options] of [checkCellOverlappingEvents] *)
Record Options := mkOptions {
  overlapsPerTimeStep : bool;
  timeStep : Z
}.

(** [getOverlapsStreak(event, cellOverlaps)]; [None] is the [TypeError] of
    reading [overlaps] of an id that has no entry. *)
Definition streakInner (cellOverlaps : gmap string Record_) (id : string)
    (acc : option (list string)) (id3 : string) : option (list string) :=
  removeFromStreak ← acc;
  r ← cellOverlaps !! id3;
  Some (if bool_decide (id ∈ overlaps r) then removeFromStreak
        else (removeFromStreak ++ [id3])%list).

Definition streakOuter (cellOverlaps : gmap string Record_) (event : Record_)
    (acc : option (list string)) (id : string) : option (list string) :=
  removeFromStreak ← acc;
  if bool_decide (id ∈ removeFromStreak) then Some removeFromStreak
  else
    let overlapsWithoutSelf := filter (fun id2 => id2 ≠ id) (overlaps event) in
    fold_left (streakInner cellOverlaps id) overlapsWithoutSelf (Some removeFromStreak).

Definition getOverlapsStreak (event : Record_) (cellOverlaps : gmap string Record_)
  : option Z :=
  let streak := Z.of_nat (length (overlaps event)) + 1 in
  removeFromStreak ← fold_left (streakOuter cellOverlaps event) (overlaps event) (Some []);
  let removeFromStreak := dedupe removeFromStreak in
  Some (streak - Z.of_nat (length removeFromStreak)).

(** The comparator of [overlapsRow.sort], on pairs [(id, start)]. *)
Definition compareRow (a b : string * string) : Z :=
  if String.ltb a.2 b.2 then -1
  else if String.ltb b.2 a.2 then 1
  else if String.ltb b.1 a.1 then -1 else 1.

(** [if (!cellOverlaps[e._eid]) Vue.set(cellOverlaps, e._eid, {...})] *)
Definition ensure (e : Event.t) (cellOverlaps : gmap string Record_)
  : gmap string Record_ :=
  match cellOverlaps !! Event._eid e with
  | Some _ => cellOverlaps
  | None => <[ Event._eid e := mk [] (Event.start e) 0 ]> cellOverlaps
  end.

(** The last loop, for one [id] of the table. *)
Definition positionStep (acc : option (gmap string Record_ * Z)) (id : string)
  : option (gmap string Record_ * Z) :=
  '(cellOverlaps, longestStreak) ← acc;
  item ← cellOverlaps !! id;
  overlapsRow ←
    mapM (fun id2 => (fun r => (id2, start r)) <$> cellOverlaps !! id2) (overlaps item);
  let overlapsRow := sort compareRow (overlapsRow ++ [(id, start item)])%list in
  let item :=
    set_position (findIndex (fun e => bool_decide (e.1 = id)) overlapsRow) item in
  let cellOverlaps := <[ id := item ]> cellOverlaps in
  streak ← getOverlapsStreak item cellOverlaps;
  Some (cellOverlaps, Z.max streak longestStreak).

Section Cell.
Variable eventInRange : Event.t → Date → Date → bool.
Variable options : Options.

(** The body of the inner [forEach], for the events [e] and [e2]. *)
Definition compareEvents (e : Event.t) (cellOverlaps : gmap string Record_)
    (e2 : Event.t) : gmap string Record_ :=
  let cellOverlaps := ensure e2 cellOverlaps in
  let eventIsInRange := eventInRange e2 (Event.startDate e) (Event.endDate e) in
  let eventsInSameTimeStep :=
    if overlapsPerTimeStep options
    then datesInSameTimeStep (Event.startDate e) (Event.startDate e2) (timeStep options)
    else true in
  if negb (Event.background e) && negb (Event.allDay e)
     && negb (Event.background e2) && negb (Event.allDay e2)
     && eventIsInRange && eventsInSameTimeStep
  then
    (* Add to the overlaps array if overlapping. *)
    let cellOverlaps :=
      alter (fun r => set_overlaps (dedupe (overlaps r ++ [Event._eid e2])%list) r)
            (Event._eid e) cellOverlaps in
    let cellOverlaps :=
      alter (fun r => set_overlaps (dedupe (overlaps r ++ [Event._eid e])%list) r)
            (Event._eid e2) cellOverlaps in
    alter (fun r => set_position (position r + 1) r) (Event._eid e2) cellOverlaps
  else
    (* Remove from the overlaps array if not overlapping. *)
    let cellOverlaps :=
      alter (fun r => set_overlaps (spliceIndexOf (Event._eid e2) (overlaps r)) r)
            (Event._eid e) cellOverlaps in
    let cellOverlaps :=
      alter (fun r => set_overlaps (spliceIndexOf (Event._eid e) (overlaps r)) r)
            (Event._eid e2) cellOverlaps in
    alter (fun r => set_position (position r - 1) r) (Event._eid e2) cellOverlaps.

(** The outer [forEach]: [comparisonArray] is what follows [e] in
    [cellEvents]. *)
Fixpoint compareAll (cellEvents : list Event.t) (cellOverlaps : gmap string Record_)
  : gmap string Record_ :=
  match cellEvents with
  | [] => cellOverlaps
  | e :: comparisonArray =>
      let cellOverlaps := ensure e cellOverlaps in
      let cellOverlaps := alter (set_position 0) (Event._eid e) cellOverlaps in
      let cellOverlaps := fold_left (compareEvents e) comparisonArray cellOverlaps in
      compareAll comparisonArray cellOverlaps
  end.

(** [checkCellOverlappingEvents(cellEvents, options)]: the table and the
    longest streak.  The last loop visits every id of the table once; what
    it writes for one id does not depend on the ids visited before. *)
Definition checkCellOverlappingEvents (cellEvents : list Event.t)
  : option (gmap string Record_ * Z) :=
  let cellOverlaps := compareAll cellEvents ∅ in
  fold_left positionStep (map_to_list cellOverlaps).*1 (Some (cellOverlaps, 0)).
End Cell.
End Overlaps.

(** ** src/unnamed/part_000: segments *)

Module Part000.
Import JS DateUtils.

Definition defaultEventDuration : Z := 2.
Definition minutesInADay : Z := 24 * 60.

Section Zone.
Variable tz : Z.

(** [addEventSegment(e)]: the event as the call leaves it, and the returned
    day key. *)
Definition addEventSegment (e : Event.t) : Event.t * string :=
  let segments0 : gmap string Segment.t :=
    match Event.segments e with
    | Some sg => sg
    | None =>
        <[ substr0 10 (Event.start e) :=
             Segment.mk (Event.startDate e) (substr0 10 (Event.start e))
               (Event.startTimeMinutes e) minutesInADay true false 0 0 ]> ∅
    end in
  (* Modify the last segment - which is no more the last one. *)
  let segments1 :=
    alter (fun previousSegment =>
             Segment.set_endTimeMinutes minutesInADay
               (Segment.set_isLastDay false previousSegment))
          (formatDateLite tz (Event.endDate e)) segments0 in
  (* Create the new last segment. *)
  let startDate := addDays tz (Event.endDate e) 1 in
  let endDate := startDate in
  let formattedDate := formatDateLite tz startDate in
  let startDate := setHours4 tz startDate 0 0 0 0 in
  let segments2 :=
    <[ formattedDate :=
         Segment.mk startDate formattedDate 0 (Event.endTimeMinutes e)
           false true 0 0 ]> segments1 in
  let e := Event.set_segments (Some segments2) e in
  let e := Event.set_daysCount (Z.of_nat (size segments2)) e in
  let e := Event.set_endDate endDate e in
  let e := Event.set_end
             (formattedDate +:+ " " +:+ formatTime (Event.endTimeMinutes e)) e in
  (e, formattedDate).

(** [removeEventSegment(e)]; [None] is the [TypeError] of
    [Object.keys(null)]. *)
Definition removeEventSegment (e : Event.t) : option (Event.t * string) :=
  match Event.segments e with
  | None => None
  | Some segments0 =>
      let segmentsCount := Z.of_nat (size segments0) in
      if segmentsCount <=? 1 then Some (e, substr0 10 (Event.end_ e))
      else
        (* Remove the last segment. *)
        let segments1 := delete (substr0 10 (Event.end_ e)) segments0 in
        let segmentsCount := segmentsCount - 1 in
        let endDate := subtractDays tz (Event.endDate e) 1 in
        let formattedDate := formatDateLite tz endDate in
        let segments2 :=
          if segmentsCount =? 0 then None
          else
            Some (alter (fun previousSegment =>
                           Segment.set_endTimeMinutes (Event.endTimeMinutes e)
                             (Segment.set_isLastDay true previousSegment))
                        formattedDate segments1) in
        let e := Event.set_segments segments2 e in
        let e := Event.set_daysCount
                   (if segmentsCount =? 0 then 1 else segmentsCount) e in
        let e := Event.set_endDate endDate e in
        let e := Event.set_end
                   (formattedDate +:+ " " +:+ formatTime (Event.endTimeMinutes e)) e in
        Some (e, formattedDate)
  end.

(** *** createEventSegments

    The state of the [while] loop. *)
Record SegmentsLoop := mkLoop {
  timestamp : Z;
  eventStart : Z;
  eventEnd : Z;
  eventStartAtMidnight : option Z;
  repeatedEventStartFound : bool;
  loopSegments : gmap string Segment.t
}.

(** One turn of the loop body, for an event [e] and the loop bound [end_]. *)
Definition createEventSegments_body (e : Event.t) (end_ : Z) (st : SegmentsLoop)
  : SegmentsLoop :=
  let timestamp := timestamp st in
  let nextMidnight := setHours4 tz (addDays tz timestamp 1) 0 0 0 0 in
  match Event.repeat e with
  | Some _ =>
      let tmpDate := timestamp in
      let tmpDateFormatted := formatDateLite tz tmpDate in
      let occurrence := Event.occurrences e ≫= (fun occ => occ !! tmpDateFormatted) in
      let enter := repeatedEventStartFound st || bool_decide (is_Some occurrence) in
      let fresh := enter && negb (repeatedEventStartFound st) in
      let eventStart :=
        if fresh then from_option Occurrence.start (eventStart st) occurrence
        else eventStart st in
      let eventStartAtMidnight :=
        if fresh then Some (setHours4 tz eventStart 0 0 0 0)
        else eventStartAtMidnight st in
      let eventEnd :=
        if fresh then from_option Occurrence.end_ (eventEnd st) occurrence
        else eventEnd st in
      let createSegment := enter in
      let isFirstDay := bool_decide (Some timestamp = eventStartAtMidnight) in
      let isLastDay :=
        bool_decide (tmpDateFormatted = formatDateLite tz eventEnd) in
      let startDate := if isFirstDay then eventStart else timestamp in
      let formattedDate := formatDateLite tz startDate in
      let found := if isLastDay then false else enter in
      let segments :=
        if createSegment
        then <[ formattedDate :=
                  Segment.mk startDate formattedDate
                    (if isFirstDay then Event.startTimeMinutes e else 0)
                    (if isLastDay then Event.endTimeMinutes e else minutesInADay)
                    isFirstDay isLastDay 0 0 ]> (loopSegments st)
        else loopSegments st in
      mkLoop nextMidnight eventStart eventEnd eventStartAtMidnight found segments
  | None =>
      let isFirstDay := timestamp =? eventStart st in
      let isLastDay := (end_ =? eventEnd st) && (end_ <? nextMidnight) in
      let startDate := if isFirstDay then Event.startDate e else timestamp in
      let formattedDate :=
        if isFirstDay then substr0 10 (Event.start e) else formatDateLite tz startDate in
      let segments :=
        <[ formattedDate :=
             Segment.mk startDate formattedDate
               (if isFirstDay then Event.startTimeMinutes e else 0)
               (if isLastDay then Event.endTimeMinutes e else minutesInADay)
               isFirstDay isLastDay 0 0 ]> (loopSegments st) in
      mkLoop nextMidnight (eventStart st) (eventEnd st) (eventStartAtMidnight st)
             (repeatedEventStartFound st) segments
  end.

(** [while (timestamp <= end) { ... }]; [None] when the turns allowed by
    [fuel] do not reach the end. *)
Fixpoint createEventSegments_loop (fuel : nat) (e : Event.t) (end_ : Z)
    (st : SegmentsLoop) : option SegmentsLoop :=
  if timestamp st <=? end_ then
    match fuel with
    | O => None
    | S fuel' =>
        createEventSegments_loop fuel' e end_ (createEventSegments_body e end_ st)
    end
  else Some st.

(** Every turn moves [timestamp] to the next midnight: the days between the
    first timestamp and the bound, plus one, are turns enough. *)
Definition createEventSegments_fuel (timestamp end_ : Z) : nat :=
  Z.to_nat ((end_ - timestamp) / msPerDay + 2).

Definition createEventSegments (e : Event.t) (viewStartDate viewEndDate : Date)
  : option Event.t :=
  let viewStartTimestamp := getTime viewStartDate in
  let viewEndTimestamp := getTime viewEndDate in
  let eventStart := getTime (Event.startDate e) in
  let eventEnd := getTime (Event.endDate e) in
  let eventEnd :=
    if (getHours tz (Event.endDate e) =? 0) && (getMinutes tz (Event.endDate e) =? 0)
    then eventEnd - 1000 else eventEnd in
  let '(timestamp, end_) :=
    match Event.repeat e with
    | None => (Z.max viewStartTimestamp eventStart, Z.min viewEndTimestamp eventEnd)
    | Some r =>
        (viewStartTimestamp,
         Z.min viewEndTimestamp
           (match Repeat.until r with
            | Some u => getTime u
            | None => viewEndTimestamp
            end))
    end in
  st ← createEventSegments_loop (createEventSegments_fuel timestamp end_) e end_
         (mkLoop timestamp eventStart eventEnd None false ∅);
  Some (Event.set_segments (Some (loopSegments st)) e).

(** *** Events *)

Definition eventDefaults : Event.t :=
  Event.mk "" "" 0 0 "" 0 0 "" "" false false None None None 1
           true false true false true false false 0 0 [].

Definition deleteAnEvent (event : Event.t) (vuecal : Vuecal.t) : Vuecal.t :=
  let vuecal := Vuecal.emitWithEvent "event-delete" event vuecal in
  let vuecal :=
    Vuecal.set_mutableEvents
      (filter (fun e => Event._eid e ≠ Event._eid event) (Vuecal.mutableEvents vuecal))
      vuecal in
  Vuecal.set_view_events
    (filter (fun e => Event._eid e ≠ Event._eid event) (Vuecal.view_events vuecal))
    vuecal.

(** The first argument of [createAnEvent]. *)
Inductive DateTimeArg :=
| ADate (d : Date)
| AString (s : string)
| AOther.

(** What [createAnEvent] returns. *)
Inductive Created :=
| ReturnsFalse
| ReturnsUndefined
| ReturnsEvent (event : Event.t).

(** [new Date(string)] is the engine's parser, and [vuecal.addEventsToView]
    is a method of the component that works on the events it is handed (it
    creates their segments) and on the view: both are taken as given. *)
Variable Date_parse : string → Date.
Variable addEventsToView : list Event.t → Vuecal.t → list Event.t * Vuecal.t.

Definition stringToDate (date : string) : Date := Date_parse date.

(** The object literal of [createAnEvent], with the id counter stepped. *)
Definition newEvent (dateTime : Date) (eventOptions : EventOptions.t)
    (vuecal : Vuecal.t) : Event.t * Vuecal.t :=
  let hours := getHours tz dateTime in
  let minutes := getMinutes tz dateTime in
  let startTimeMinutes := hours * 60 + minutes in
  let hoursEnd := hours + defaultEventDuration in
  let endTimeMinutes := startTimeMinutes + 120 in
  let formattedHours := (if hours <? 10 then "0" else "") +:+ Number_toString hours in
  let formattedHoursEnd :=
    (if hoursEnd <? 10 then "0" else "") +:+ Number_toString hoursEnd in
  let formattedMinutes :=
    (if minutes <? 10 then "0" else "") +:+ Number_toString minutes in
  let start :=
    formatDateLite tz dateTime
      +:+ (if Vuecal.time vuecal
           then " " +:+ formattedHours +:+ ":" +:+ formattedMinutes else "") in
  let end_ :=
    formatDateLite tz dateTime
      +:+ (if Vuecal.time vuecal
           then " " +:+ formattedHoursEnd +:+ ":" +:+ formattedMinutes else "") in
  let _eid :=
    Number_toString (Vuecal._uid vuecal) +:+ "_"
      +:+ Number_toString (Vuecal.eventIdIncrement vuecal) in
  let vuecal :=
    Vuecal.set_eventIdIncrement (Vuecal.eventIdIncrement vuecal + 1) vuecal in
  let d := eventDefaults in
  let event :=
    EventOptions.spread
      (Event.mk _eid start dateTime startTimeMinutes end_ (stringToDate end_)
         endTimeMinutes (Event.title d) (Event.content d) (Event.background d)
         (Event.allDay d) None (Event.repeat d) (Event.occurrences d)
         (Event.daysCount d) (Event.deletable d) (Event.deleting d)
         (Event.resizable d) (Event.resizing d) (Event.draggable d)
         (Event.dragging d) (Event.focused d) (Event.top d) (Event.height d)
         (Event.classes d))
      eventOptions in
  (event, vuecal).

(** The part of [createAnEvent] after the hook: days count, insertion,
    signals. *)
Definition insertEvent (event : Event.t) (vuecal : Vuecal.t) : Event.t * Vuecal.t :=
  let event :=
    if bool_decide (substr0 10 (Event.start event) ≠ substr0 10 (Event.end_ event))
    then Event.set_daysCount
           (countDays tz (Event.startDate event) (Event.endDate event)) event
    else event in
  let vuecal :=
    Vuecal.set_mutableEvents (Vuecal.mutableEvents vuecal ++ [event])%list vuecal in
  let '(events, vuecal) := addEventsToView [event] vuecal in
  let event := default event (head events) in
  let vuecal := Vuecal.emitWithEvent "event-create" event vuecal in
  let vuecal := Vuecal.emitWithEvent "event-change" event vuecal in
  (event, vuecal).

Definition createAnEvent (dateTime : DateTimeArg) (eventOptions : EventOptions.t)
    (vuecal : Vuecal.t) : Created * Vuecal.t :=
  let dateTime :=
    match dateTime with
    | AString s => ADate (stringToDate s)
    | other => other
    end in
  match dateTime with
  | ADate dateTime =>
      let '(event, vuecal) := newEvent dateTime eventOptions vuecal in
      match Vuecal.onEventCreate vuecal with
      | Some hook =>
          let outcome := hook event in
          let vuecal :=
            fold_left (fun vuecal event => deleteAnEvent event vuecal)
              (Vuecal.deleteCalls outcome) vuecal in
          let event := Vuecal.editedEvent outcome in
          if Vuecal.verdict outcome
          then let '(event, vuecal) := insertEvent event vuecal in
               (ReturnsEvent event, vuecal)
          else (ReturnsUndefined, vuecal)
      | None =>
          let '(event, vuecal) := insertEvent event vuecal in
          (ReturnsEvent event, vuecal)
      end
  | _ => (ReturnsFalse, vuecal)
  end.

(** *** Geometry *)

Definition updateEventPosition (event : Event.t) (vuecal : Vuecal.t) : option Event.t :=
  let startTimeMinutes := Event.startTimeMinutes event in
  let endTimeMinutes := Event.endTimeMinutes event in
  (* Top of event. *)
  let minutesFromTop := startTimeMinutes - Vuecal.timeFrom vuecal in
  top ← roundQuotient (minutesFromTop * Vuecal.timeCellHeight vuecal)
                      (Vuecal.timeStep vuecal);
  (* Bottom of event. *)
  let minutesFromTop :=
    Z.min endTimeMinutes (Vuecal.timeTo vuecal) - Vuecal.timeFrom vuecal in
  bottom ← roundQuotient (minutesFromTop * Vuecal.timeCellHeight vuecal)
                         (Vuecal.timeStep vuecal);
  let event := Event.set_top (Z.max top 0) event in
  Some (Event.set_height (Z.max (bottom - Event.top event) 5) event).

(** *** Ranges *)

Definition eventInRange (event : Event.t) (start end_ : Date) : bool :=
  if Event.allDay event || negb (includesChar ":"%char (Event.start event)) then
    let eventStart := setHours4 tz (Event.startDate event) 0 0 0 0 in
    (setHours4 tz start 0 0 0 0 <=? eventStart)
      && (eventStart <=? setHours4 tz end_ 0 0 0 0)
  else
    let startTimestamp := getTime (Event.startDate event) in
    let endTimestamp := getTime (Event.endDate event) in
    (startTimestamp <? getTime end_) && (getTime start <? endTimestamp).

(** *** Overlaps *)

Definition checkCellOverlappingEvents (cellEvents : list Event.t)
    (options : Overlaps.Options) : option (gmap string Overlaps.Record_ * Z) :=
  Overlaps.checkCellOverlappingEvents eventInRange options cellEvents.

Definition getOverlapsStreak := Overlaps.getOverlapsStreak.
End Zone.
End Part000.

(** ** src/components/vue-cal/event-utils.js

    Where this revision reads as [part_000] does, the definition of [Part000]
    is taken over: [formatDate(date, null, texts)] is [formatDateLite(date)],
    and [new Date(end.replace(/-/g, '/'))] is [stringToDate(end)]. *)

Module EventUtils.
Import JS DateUtils.

Definition dayMilliseconds : Z := 24 * 3600 * 1000.
Definition defaultEventDuration : Z := 2.

Section Zone.
Variable tz : Z.

Definition addEventSegment (e : Event.t) : Event.t * string :=
  let segments0 : gmap string Segment.t :=
    match Event.segments e with
    | Some sg => sg
    | None =>
        <[ substr0 10 (Event.start e) :=
             Segment.mk (Event.startDate e) (substr0 10 (Event.start e))
               (Event.startTimeMinutes e) (24 * 60) true false 0 0 ]> ∅
    end in
  (* Modify the last segment - which is no more the last one. *)
  let segments1 :=
    alter (fun previousSegment =>
             Segment.set_endTimeMinutes (24 * 60)
               (Segment.set_isLastDay false previousSegment))
          (formatDate_default tz (Event.endDate e)) segments0 in
  (* Create the new last segment. *)
  let startDate := addDays tz (Event.endDate e) 1 in
  let endDate := startDate in
  let formattedDate := formatDate_default tz startDate in
  let startDate := setHours2 tz startDate 0 0 in
  let segments2 :=
    <[ formattedDate :=
         Segment.mk startDate formattedDate 0 (Event.endTimeMinutes e)
           false true 0 0 ]> segments1 in
  let e := Event.set_segments (Some segments2) e in
  let e := Event.set_daysCount (Z.of_nat (size segments2)) e in
  let e := Event.set_endDate endDate e in
  let e := Event.set_end
             (formattedDate +:+ " " +:+ formatTime (Event.endTimeMinutes e)) e in
  (e, formattedDate).

Definition removeEventSegment (e : Event.t) : option (Event.t * string) :=
  Part000.removeEventSegment tz e.

Definition deleteAnEvent := Part000.deleteAnEvent.

Definition createAnEvent := Part000.createAnEvent tz.

(** [updateEventPosition]: the height is not bounded below here. *)
Definition updateEventPosition (event : Event.t) (vuecal : Vuecal.t) : option Event.t :=
  let startTimeMinutes := Event.startTimeMinutes event in
  let endTimeMinutes := Event.endTimeMinutes event in
  (* Top of event. *)
  let minutesFromTop := startTimeMinutes - Vuecal.timeFrom vuecal in
  top ← roundQuotient (minutesFromTop * Vuecal.timeCellHeight vuecal)
                              (Vuecal.timeStep vuecal);
  (* Bottom of event. *)
  let minutesFromTop :=
    Z.min endTimeMinutes (Vuecal.timeTo vuecal) - Vuecal.timeFrom vuecal in
  bottom ← roundQuotient (minutesFromTop * Vuecal.timeCellHeight vuecal)
                                 (Vuecal.timeStep vuecal);
  let event := Event.set_top (Z.max top 0) event in
  Some (Event.set_height (bottom - Event.top event) event).

(** The [while] loop of [recurringEventInRange]: [Some true] when a day of
    the range repeats the event, [Some false] when the loop ends without
    one (the function then returns [undefined]), [None] out of fuel. *)
Fixpoint recurringEventInRange_loop (fuel : nat) (event : Event.t) (r : Repeat.t)
    (endTimestamp : Z) (tmpDate : Date) : option bool :=
  if getTime tmpDate <? endTimestamp then
    match fuel with
    | O => None
    | S fuel' =>
        let eventMonthDate := getDate tz (Event.startDate event) in
        let eventMonth := getMonth tz (Event.startDate event) in
        let weekday := if getDay tz tmpDate =? 0 then 7 else getDay tz tmpDate in
        let repeatWeekdays :=
          match Repeat.weekdays r with
          | Some days => bool_decide (weekday ∈ days)
          | None => false
          end in
        let repeatMonth :=
          bool_decide (Repeat.every r = "month")
            && (eventMonthDate =? getDate tz tmpDate) in
        let repeatYear :=
          bool_decide (Repeat.every r = "year")
            && (eventMonthDate =? getDate tz tmpDate)
            && (eventMonth =? getMonth tz tmpDate) in
        if repeatWeekdays || repeatMonth || repeatYear then Some true
        else recurringEventInRange_loop fuel' event r endTimestamp (addDays tz tmpDate 1)
    end
  else Some false.

(** [recurringEventInRange(event, start, end)] for an event with the
    repeat rule [r], as a truth value. *)
Definition recurringEventInRange (event : Event.t) (r : Repeat.t) (start end_ : Date)
  : bool :=
  if getTime end_ <=? getTime (Event.startDate event) then false
  else
    let endTimestamp :=
      match Repeat.until r with
      | Some u => Z.min (getTime end_) (getTime u)
      | None => getTime end_
      end in
    default false
      (recurringEventInRange_loop
         (Z.to_nat ((endTimestamp - getTime start) / msPerDay + 1))
         event r endTimestamp start).

(** [eventInRange(event, start, end)], as a truth value. *)
Definition eventInRange (event : Event.t) (start end_ : Date) : bool :=
  if Event.allDay event || negb (includesChar ":"%char (Event.start event)) then
    let eventStartMidnight := setHours4 tz (Event.startDate event) 0 0 0 0 in
    let startMidnight := setHours4 tz start 0 0 0 0 in
    let endMidnight := setHours4 tz end_ 23 59 59 999 in
    let inRange :=
      (startMidnight <=? eventStartMidnight) && (eventStartMidnight <=? endMidnight) in
    inRange
      || match Event.repeat event with
         | Some r => recurringEventInRange event r startMidnight endMidnight
         | None => false
         end
  else
    match Event.repeat event with
    | Some r => recurringEventInRange event r start end_
    | None =>
        let startTimestamp := getTime (Event.startDate event) in
        let endTimestamp := getTime (Event.endDate event) in
        (startTimestamp <? getTime end_) && (getTime start <? endTimestamp)
    end.

Definition checkCellOverlappingEvents (cellEvents : list Event.t)
    (options : Overlaps.Options) : option (gmap string Overlaps.Record_ * Z) :=
  Overlaps.checkCellOverlappingEvents eventInRange options cellEvents.

Definition getOverlapsStreak := Overlaps.getOverlapsStreak.
(** *** createEventSegments

    The state of the [while] loop: [timestamp] and [e.segments]. *)
Record SegmentsLoop := mkLoop {
  timestamp : Z;
  loopSegments : gmap string Segment.t
}.

(** One turn of the loop body. *)
Definition createEventSegments_body (e : Event.t) (eventStart eventEnd end_ : Z)
    (st : SegmentsLoop) : SegmentsLoop :=
  let timestamp := timestamp st in
  let nextMidnight := setHours3 tz (timestamp + dayMilliseconds) 0 0 0 in
  let isFirstDay := timestamp =? eventStart in
  let isLastDay := (end_ =? eventEnd) && (end_ <=? nextMidnight) in
  let startDate := if isFirstDay then Event.startDate e else timestamp in
  let formattedDate :=
    if isFirstDay then substr0 10 (Event.start e) else formatDate_default tz startDate in
  mkLoop nextMidnight
    (<[ formattedDate :=
          Segment.mk startDate formattedDate
            (if isFirstDay then Event.startTimeMinutes e else 0)
            (if isLastDay then Event.endTimeMinutes e else 24 * 60)
            isFirstDay isLastDay 0 0 ]> (loopSegments st)).

(** [while (timestamp <= end) { ... }]; [None] when the turns allowed by
    [fuel] do not reach the end. *)
Fixpoint createEventSegments_loop (fuel : nat) (e : Event.t)
    (eventStart eventEnd end_ : Z) (st : SegmentsLoop) : option SegmentsLoop :=
  if timestamp st <=? end_ then
    match fuel with
    | O => None
    | S fuel' =>
        createEventSegments_loop fuel' e eventStart eventEnd end_
          (createEventSegments_body e eventStart eventEnd end_ st)
    end
  else Some st.

(** [createEventSegments(e, viewStartDate, viewEndDate, vuecal)]: every turn
    moves [timestamp] to the midnight of the day that it is 24 hours later,
    which is the next day in a zone with a fixed offset, so that the turns
    of [part_000] are turns enough. *)
Definition createEventSegments (e : Event.t) (viewStartDate viewEndDate : Date)
  : option Event.t :=
  let eventStart := getTime (Event.startDate e) in
  let eventEnd := getTime (Event.endDate e) in
  let eventEnd :=
    if (getHours tz (Event.endDate e) =? 0) && (getMinutes tz (Event.endDate e) =? 0)
    then eventEnd - 1000 else eventEnd in
  let timestamp := Z.max (getTime viewStartDate) eventStart in
  let end_ := Z.min (getTime viewEndDate) eventEnd in
  st ← createEventSegments_loop (Part000.createEventSegments_fuel timestamp end_)
         e eventStart eventEnd end_ (mkLoop timestamp ∅);
  Some (Event.set_segments (Some (loopSegments st)) e).

End Zone.
End EventUtils.

(** * The vocabulary of the properties *)

(** ** Dates *)

Section ExampleDates.
Import JS.
Variable tz : Z.

End ExampleDates.

(** The month and the day that [civilFromDays] computes only depend on the
    day of the era, of which there are 146097. *)
Definition monthDayOfEra (doe : Z) : Z * Z :=
  let yoe := (doe - doe / 1460 + doe / 36524 - doe / 146096) / 365 in
  let doy := doe - (365 * yoe + yoe / 4 - yoe / 100) in
  let mp := (5 * doy + 2) / 153 in
  let d := doy - (153 * mp + 2) / 5 + 1 in
  let m := if mp <? 10 then mp + 3 else mp - 9 in
  (m, d).

Definition monthDayInRange (doe : Z) : bool :=
  let '(m, d) := monthDayOfEra doe in
  (1 <=? m) && (m <=? 12) && (1 <=? d) && (d <=? 31).

(** [p] holds of the [n] integers from [z] on. *)
Fixpoint allFrom (p : Z → bool) (n : nat) (z : Z) : bool :=
  match n with
  | O => true
  | S n' => p z && allFrom p n' (z + 1)
  end.

(** ** Events *)

(** Events with a time in [start] that are not all-day. *)
Definition timed (e : Event.t) : Prop :=
  Event.allDay e = false ∧ JS.includesChar ":"%char (Event.start e) = true.

(** [daysCount] is the number of segments, or 1 when there are none. *)
Definition daysCountInvariant (e : Event.t) : Prop :=
  Event.daysCount e
    = match Event.segments e with
      | Some sg => Z.of_nat (size sg)
      | None => 1
      end.

(** [e'] has the [end], [endDate], [daysCount] and, where [e] has segments,
    the segments of [e]. *)
Definition restores (e e' : Event.t) : Prop :=
  Event.end_ e' = Event.end_ e
  ∧ Event.endDate e' = Event.endDate e
  ∧ Event.daysCount e' = Event.daysCount e
  ∧ (is_Some (Event.segments e) → Event.segments e' = Event.segments e).

(** What [addEventSegment] and [removeEventSegment] write on the segment of
    the end day. *)
Definition notLast (s : Segment.t) : Segment.t :=
  Segment.set_endTimeMinutes Part000.minutesInADay (Segment.set_isLastDay false s).
Definition lastAgain (m : Z) (s : Segment.t) : Segment.t :=
  Segment.set_endTimeMinutes m (Segment.set_isLastDay true s).

(** The segments that [addEventSegment] starts from. *)
Definition initialSegments (e : Event.t) : gmap string Segment.t :=
  match Event.segments e with
  | Some sg => sg
  | None =>
      <[ JS.substr0 10 (Event.start e) :=
           Segment.mk (Event.startDate e) (JS.substr0 10 (Event.start e))
             (Event.startTimeMinutes e) Part000.minutesInADay true false 0 0 ]> ∅
  end.

Section Resizing.
Import JS DateUtils.
Variable tz : Z.

(** The day keys of the end of an event and of the day after. *)
Definition endKey (e : Event.t) : string := formatDateLite tz (Event.endDate e).
Definition nextKey (e : Event.t) : string :=
formatDateLite tz (addDays tz (Event.endDate e) 1).

Definition grownSegments (newSegment : Segment.t) (e : Event.t) : gmap string Segment.t :=
<[ nextKey e := newSegment ]> (alter notLast (endKey e) (initialSegments e)).

(** The event after [addEventSegment], [newSegment] being the segment of
  the added day. *)
Definition grown (newSegment : Segment.t) (e : Event.t) : Event.t :=
Event.set_end (nextKey e +:+ " " +:+ formatTime (Event.endTimeMinutes e))
  (Event.set_endDate (addDays tz (Event.endDate e) 1)
     (Event.set_daysCount (Z.of_nat (size (grownSegments newSegment e)))
        (Event.set_segments (Some (grownSegments newSegment e)) e))).

(** The events that [addEventSegment] and [removeEventSegment] are written
  for: [end] is the end day and the end time; the day after the end is a
  day of a four-digit year; the segment of the end day, if there is one, is
  the last one and ends when the event ends; the day after the end has no
  segment yet; [daysCount] counts the segments, of which there is one at
  least.  An event without segments counts one day and does not start on
  the day after its end. *)
Definition resizable (e : Event.t) : Prop :=
Event.end_ e = endKey e +:+ " " +:+ formatTime (Event.endTimeMinutes e)
∧ 1000 <= getFullYear tz (addDays tz (Event.endDate e) 1) <= 9999
∧ match Event.segments e with
  | Some sg =>
      sg ≠ ∅
      ∧ sg !! nextKey e = None
      ∧ (∀ seg, sg !! endKey e = Some seg →
                Segment.isLastDay seg = true
                ∧ Segment.endTimeMinutes seg = Event.endTimeMinutes e)
      ∧ Event.daysCount e = Z.of_nat (size sg)
  | None =>
      Event.daysCount e = 1 ∧ substr0 10 (Event.start e) ≠ nextKey e
  end.
End Resizing.

(** A meeting at 2019-11-02 09:00 that ends when it starts. *)
Definition zeroDurationEvent : Event.t :=
  Event.mk "1_0" "2019-11-02 09:00" 1572685200000 540 "2019-11-02 09:00" 1572685200000 540
    "" "" false false None None None 1 true false true false true false false 0 0 [].

(** A meeting on 2019-11-02 from 09:00 to 10:00. *)
Definition meetingEvent : Event.t :=
  Event.mk "1_1" "2019-11-02 09:00" 1572685200000 540 "2019-11-02 10:00" 1572688800000 600
    "" "" false false None None None 1 true false true false true false false 0 0 [].

(** An event that starts at 00:10. *)
Definition earlyEvent : Event.t :=
  Event.mk "1_2" "2019-11-02 00:10" 1572653400000 10 "2019-11-02 01:10" 1572657000000 70
    "" "" false false None None None 1 true false true false true false false 0 0 [].

(** The event of the specification: 2019-11-02 18:00 to 2019-11-03 02:00, with
    its two segments. *)
Definition twoDayEvent : Event.t :=
  Event.mk "1_3" "2019-11-02 18:00" 1572717600000 1080 "2019-11-03 02:00" 1572746400000 120
    "" "" false false
    (Some (<[ "2019-11-02" := Segment.mk 1572717600000 "2019-11-02" 1080 1440 true false 0 0 ]>
             (<[ "2019-11-03" := Segment.mk 1572739200000 "2019-11-03" 0 120 false true 0 0 ]>
                ∅)))
    None None 2 true false true false true false false 0 0 [].

(** A background event over the meeting. *)
Definition backgroundEvent : Event.t :=
  Event.mk "1_4" "2019-11-02 08:00" 1572681600000 480 "2019-11-02 12:00" 1572696000000 720
    "" "" true false None None None 1 true false true false true false false 0 0 [].

(** ** Geometry *)

(** [v] is the quotient [n / d] bounded below by 0, with no rounding. *)
Definition quotientFromZero (n d v : Z) : Prop :=
  (0 <= n ∧ v * d = n) ∨ (n < 0 ∧ v = 0).

(** A view from 00:00 to 24:00, 40 pixels for 60 minutes. *)
Definition hourlyView : Vuecal.t :=
  Vuecal.mk 1 3 true 0 1440 40 60 None [] [] [].

(** ** Creation *)

(** The instant of a valid first argument of [createAnEvent]. *)
Definition instantOf (Date_parse : string → JS.Date) (dateTime : Part000.DateTimeArg)
  : option JS.Date :=
  match dateTime with
  | Part000.ADate d => Some d
  | Part000.AString s => Some (Part000.stringToDate Date_parse s)
  | Part000.AOther => None
  end.

(** The id [_eid] is the id of none of the events of the component. *)
Definition freshId (_eid : string) (vuecal : Vuecal.t) : Prop :=
  (∀ e, e ∈ Vuecal.mutableEvents vuecal → Event._eid e ≠ _eid)
  ∧ (∀ e, e ∈ Vuecal.view_events vuecal → Event._eid e ≠ _eid).

(** The ids that the candidate had at the calls of the delete callback. *)
Definition deletedIds (outcome : Vuecal.HookOutcome) : list string :=
  Event._eid <$> Vuecal.deleteCalls outcome.

(** A component with one event and a hook that refuses every event. *)
Definition refusingView : Vuecal.t :=
  Vuecal.mk 1 3 true 0 1440 40 60
    (Some (fun event => Vuecal.mkOutcome event [] false))
    [meetingEvent] [meetingEvent] [].

(** The same component with the hook
    [(event, deleteEvent) => { deleteEvent(); event._eid = 'zz'; return false }],
    and options that give the new event the id of the meeting. *)
Definition deleteAndRename (event : Event.t) : Vuecal.HookOutcome :=
  Vuecal.mkOutcome (Event.set__eid "zz" event) [event] false.
Definition deletingView : Vuecal.t :=
  Vuecal.mk 1 3 true 0 1440 40 60 (Some deleteAndRename)
    [meetingEvent] [meetingEvent] [].
Definition meetingIdOptions : EventOptions.t :=
  EventOptions.mk (Some "1_1") None None None None None None None None None None None None
     None None None None None None None None None None None None.

(** ** The table of overlaps *)

(** The overlaps of the id [i], when it has an entry. *)
Definition overlapsOf (cellOverlaps : gmap string Overlaps.Record_) (i : string)
  : option (list string) :=
  Overlaps.overlaps <$> cellOverlaps !! i.

(** [j] is among the overlaps of [i]. *)
Definition related (cellOverlaps : gmap string Overlaps.Record_) (i j : string) : Prop :=
  ∃ l, overlapsOf cellOverlaps i = Some l ∧ j ∈ l.

(** What the two branches of the inner loop do to the overlaps of the id
    [i], when they add [x] to, or remove [x] from, the overlaps of [k]. *)
Definition addTo (k x i : string) (l : list string) : list string :=
  if decide (k = i) then JS.dedupe (l ++ [x]) else l.
Definition removeFrom (k x i : string) (l : list string) : list string :=
  if decide (k = i) then JS.spliceIndexOf x l else l.

(** The test of the inner loop. *)
Definition overlapping (eventInRange : Event.t → JS.Date → JS.Date → bool)
    (options : Overlaps.Options) (e e2 : Event.t) : bool :=
  negb (Event.background e) && negb (Event.allDay e)
  && negb (Event.background e2) && negb (Event.allDay e2)
  && eventInRange e2 (Event.startDate e) (Event.endDate e)
  && (if Overlaps.overlapsPerTimeStep options
      then DateUtils.datesInSameTimeStep (Event.startDate e) (Event.startDate e2)
             (Overlaps.timeStep options)
      else true).

(** Events that are neither background nor all-day. *)
Definition participates (e : Event.t) : Prop :=
  Event.background e = false ∧ Event.allDay e = false.

(** The ids of the events of the cell that are neither background nor
    all-day. *)
Definition activeIn (cellEvents : list Event.t) (i : string) : Prop :=
  ∃ e, e ∈ cellEvents ∧ Event._eid e = i ∧ participates e.

(** The invariant of the two loops: overlaps have no duplicates; who is among
    the overlaps of an id has an entry, with that id among its overlaps; and
    both ids are [active]. *)
Definition tableInv (active : string → Prop) (cellOverlaps : gmap string Overlaps.Record_)
  : Prop :=
  (∀ i l, overlapsOf cellOverlaps i = Some l → NoDup l)
  ∧ (∀ i j, related cellOverlaps i j → related cellOverlaps j i)
  ∧ (∀ i j, related cellOverlaps i j → active i ∧ active j).

(** Every id among the overlaps of an entry has an entry. *)
Definition closed (cellOverlaps : gmap string Overlaps.Record_) : Prop :=
  ∀ i j, related cellOverlaps i j → is_Some (cellOverlaps !! j).

(** The positions of the ids of [ids] are columns of their rows. *)
Definition positioned (ids : list string) (cellOverlaps : gmap string Overlaps.Record_)
  : Prop :=
  ∀ i r, i ∈ ids → cellOverlaps !! i = Some r →
         0 <= Overlaps.position r <= Z.of_nat (length (Overlaps.overlaps r)).

(** Two tables with the same ids and the same overlaps. *)
Definition samePairs (cellOverlaps' cellOverlaps : gmap string Overlaps.Record_) : Prop :=
  ∀ i, overlapsOf cellOverlaps' i = overlapsOf cellOverlaps i.

(** The table of three events of which the first overlaps the two others. *)
Definition threeOverlaps : gmap string Overlaps.Record_ :=
  <[ "1" := Overlaps.mk ["2"; "3"] "2019-11-02 09:00" 0 ]>
    (<[ "2" := Overlaps.mk ["1"] "2019-11-02 09:30" 1 ]>
       (<[ "3" := Overlaps.mk ["1"] "2019-11-02 10:30" 1 ]> ∅)).

(** * More vocabulary *)

(** ** Reading numbers back *)

(** The value of a decimal digit, and of a string of decimal digits. *)
Definition digitValue (c : ascii) : Z := Z.of_nat (nat_of_ascii c) - 48.

Fixpoint decimalValue (s : string) : Z :=
  match s with
  | EmptyString => 0
  | String c s' => digitValue c * 10 ^ Z.of_nat (String.length s') + decimalValue s'
  end.

(** The integer that a string with an optional sign denotes. *)
Definition parseInteger (s : string) : Z :=
  match s with
  | String c s' => if Ascii.eqb c "-"%char then - decimalValue s' else decimalValue s
  | EmptyString => 0
  end.

(** A digit is none of the separators [-], [_] and [:]. *)
Definition separator (p : ascii) : Prop := p = "-"%char ∨ p = "_"%char ∨ p = ":"%char.

(** ** The calendar *)

(** For a day number: [daysFromCivil] undoes [civilFromDays], and the day
    lies from the first of January of its year to the next, the latter
    left out. *)
Definition calendarChecks (z : Z) : bool :=
  let '(y, m, d) := JS.civilFromDays z in
  (JS.daysFromCivil y m d =? z)
  && (JS.daysFromCivil y 1 1 <=? z) && (z <? JS.daysFromCivil (y + 1) 1 1).

(** The days of a year: from its first of January to the next. *)
Definition daysInYear (y : Z) : Z := JS.daysFromCivil (y + 1) 1 1 - JS.daysFromCivil y 1 1.

(** The leap years of the Gregorian calendar. *)
Definition leapYear (y : Z) : bool :=
  (y mod 400 =? 0) || (negb (y mod 100 =? 0) && (y mod 4 =? 0)).

Definition leapYearChecks (y : Z) : bool :=
  daysInYear y =? (if leapYear y then 366 else 365).

(** ** Weeks *)

(** The Thursday of the week, from Monday to Sunday, of the day number [n]
    (day 0 is a Thursday). *)
Definition thursdayOf (n : Z) : Z := n - (n + 3) mod 7 + 3.

(** The number of the day of the week that begins a week. *)
Definition firstDayOfWeek (weekStartsOnSunday : bool) : Z :=
  if weekStartsOnSunday then 0 else 1.

(** The variables of [todayFormatted] after a first call at the time [clock]. *)
Definition cachedAt (tz : Z) (clock : JS.Date) : DateUtils.TodayCache :=
  (DateUtils.todayFormatted tz clock DateUtils.noToday).2.

(** ** Ranges *)

(** The test of the loop of [recurringEventInRange] for the day [tmpDate]:
    the event with the repeat rule [r] is repeated on that day. *)
Definition repeatsOn (tz : Z) (event : Event.t) (r : Repeat.t) (tmpDate : JS.Date) : bool :=
  let eventMonthDate := JS.getDate tz (Event.startDate event) in
  let eventMonth := JS.getMonth tz (Event.startDate event) in
  let weekday := if JS.getDay tz tmpDate =? 0 then 7 else JS.getDay tz tmpDate in
  let repeatWeekdays :=
    match Repeat.weekdays r with
    | Some days => bool_decide (weekday ∈ days)
    | None => false
    end in
  let repeatMonth :=
    bool_decide (Repeat.every r = "month")
      && (eventMonthDate =? JS.getDate tz tmpDate) in
  let repeatYear :=
    bool_decide (Repeat.every r = "year")
      && (eventMonthDate =? JS.getDate tz tmpDate)
      && (eventMonth =? JS.getMonth tz tmpDate) in
  repeatWeekdays || repeatMonth || repeatYear.

(** The end of the days that [recurringEventInRange] visits. *)
Definition repeatEnd (r : Repeat.t) (end_ : JS.Date) : Z :=
  match Repeat.until r with
  | Some u => Z.min (JS.getTime end_) (JS.getTime u)
  | None => JS.getTime end_
  end.

(** ** The segments of an event that is not repeated *)

Section SegmentsOfDays.
Import JS DateUtils.
Variable tz : Z.

(** The key of the day number [n]. *)
Definition dayKey (n : Z) : string := formatDateLite tz (fromLocal tz (n * msPerDay)).

(** [start] begins with the key of the day of [startDate]. *)
Definition startKeyed (e : Event.t) : Prop :=
  substr0 10 (Event.start e) = formatDateLite tz (Event.startDate e).

(** The end of the event for [createEventSegments]: a second earlier when
    the event ends at 00:00. *)
Definition segmentsEnd (e : Event.t) : Z :=
  if (getHours tz (Event.endDate e) =? 0) && (getMinutes tz (Event.endDate e) =? 0)
  then getTime (Event.endDate e) - 1000 else getTime (Event.endDate e).

(** The part of the event that the view shows: from the later of the two
    starts to the earlier of the two ends. *)
Definition firstTimestamp (e : Event.t) (viewStartDate : Date) : Z :=
  Z.max (getTime viewStartDate) (getTime (Event.startDate e)).
Definition lastTimestamp (e : Event.t) (viewEndDate : Date) : Z :=
  Z.min (getTime viewEndDate) (segmentsEnd e).

(** The segment of the day number [n]: the first day is the day of the
    start of the event, if the view shows it, and the last day the day of
    its end, if the view shows it. *)
Definition segmentOfDay (e : Event.t) (viewStartDate viewEndDate : Date) (n : Z)
  : Segment.t :=
  let isFirstDay :=
    bool_decide (n = day tz (firstTimestamp e viewStartDate)
                 ∧ getTime viewStartDate <= getTime (Event.startDate e)) in
  let isLastDay :=
    bool_decide (n = day tz (lastTimestamp e viewEndDate)
                 ∧ segmentsEnd e <= getTime viewEndDate) in
  Segment.mk
    (if bool_decide (n = day tz (firstTimestamp e viewStartDate))
     then firstTimestamp e viewStartDate else fromLocal tz (n * msPerDay))
    (dayKey n)
    (if isFirstDay then Event.startTimeMinutes e else 0)
    (if isLastDay then Event.endTimeMinutes e else 24 * 60)
    isFirstDay isLastDay 0 0.

(** The segments of the [j] days from the day [d0] on, written day after
    day. *)
Fixpoint daysSegments (f : Z → Segment.t) (d0 : Z) (j : nat) : gmap string Segment.t :=
  match j with
  | O => ∅
  | S j' => <[ dayKey (d0 + Z.of_nat j') := f (d0 + Z.of_nat j') ]> (daysSegments f d0 j')
  end.

(** The number of turns of the loop, and the timestamp of the turn [j]. *)
Definition segmentDays (e : Event.t) (viewStartDate viewEndDate : Date) : nat :=
  if firstTimestamp e viewStartDate <=? lastTimestamp e viewEndDate
  then Z.to_nat (day tz (lastTimestamp e viewEndDate)
                 - day tz (firstTimestamp e viewStartDate) + 1)
  else O.
Definition turnTimestamp (first : Z) (j : nat) : Z :=
  match j with
  | O => first
  | S _ => fromLocal tz ((day tz first + Z.of_nat j) * msPerDay)
  end.
End SegmentsOfDays.

(** ** The events that overlap *)

(** [e] comes before [e2] in the cell. *)
Fixpoint earlier (cellEvents : list Event.t) (e e2 : Event.t) : Prop :=
  match cellEvents with
  | [] => False
  | x :: rest => (x = e ∧ e2 ∈ rest) ∨ earlier rest e e2
  end.

(** [i] and [j] are the ids of [e] and [e2], in one order or the other. *)
Definition idsOf (e e2 : Event.t) (i j : string) : Prop :=
  (Event._eid e = i ∧ Event._eid e2 = j) ∨ (Event._eid e = j ∧ Event._eid e2 = i).

(** [i] and [j] are the ids of two events of the cell of which the test of
    the inner loop holds, the event that comes first in the cell first. *)
Definition overlapIn (eventInRange : Event.t → JS.Date → JS.Date → bool)
    (options : Overlaps.Options) (cellEvents : list Event.t) (i j : string) : Prop :=
  ∃ e e2, earlier cellEvents e e2
          ∧ overlapping eventInRange options e e2 = true
          ∧ idsOf e e2 i j.

(** Any id will do. *)
Definition anyId (i : string) : Prop := True.

(** Two events meet when each starts before the other ends; their starts are
    close when, if overlaps are counted per time step, they are a time step
    apart at most. *)
Definition intervalsMeet (e e2 : Event.t) : Prop :=
  Event.startDate e < Event.endDate e2 ∧ Event.startDate e2 < Event.endDate e.
Definition closeStarts (options : Overlaps.Options) (e e2 : Event.t) : Prop :=
  Overlaps.overlapsPerTimeStep options = true →
  Z.abs (Event.startDate e - Event.startDate e2) <= Overlaps.timeStep options * 60 * 1000.

(** Every one of the overlaps of [event] is among the overlaps of every
    other one. *)
Definition allOverlap (cellOverlaps : gmap string Overlaps.Record_)
    (event : Overlaps.Record_) : Prop :=
  ∀ id id3, id ∈ Overlaps.overlaps event → id3 ∈ Overlaps.overlaps event → id3 ≠ id →
            ∃ r, cellOverlaps !! id3 = Some r ∧ id ∈ Overlaps.overlaps r.

(** ** Columns *)

(** The entry [a] of a row comes before the entry [b]: it starts earlier,
    or at the same time with the greater id. *)
Definition comesBefore (a b : string * string) : bool :=
  String.ltb a.2 b.2 || (String.eqb a.2 b.2 && String.ltb b.1 a.1).

(** A row whose entries come one before the other. *)
Fixpoint rowSorted (l : list (string * string)) : Prop :=
  match l with
  | [] => True
  | x :: l' => Forall (fun y => comesBefore x y = true) l' ∧ rowSorted l'
  end.

(** The overlaps of the entry [r] of the id [i] that come before it in its
    row. *)
Definition isLeftOf (cellOverlaps : gmap string Overlaps.Record_) (i : string)
    (r : Overlaps.Record_) (j : string) : bool :=
  match cellOverlaps !! j with
  | Some rj => comesBefore (j, Overlaps.start rj) (i, Overlaps.start r)
  | None => false
  end.
Definition leftOf (cellOverlaps : gmap string Overlaps.Record_) (i : string)
    (r : Overlaps.Record_) : list string :=
  filter (fun j => isLeftOf cellOverlaps i r j = true) (Overlaps.overlaps r).

(** Two tables with the same ids, the same overlaps and the same starts. *)
Definition sameRows (cellOverlaps' cellOverlaps : gmap string Overlaps.Record_) : Prop :=
  ∀ i, (fun r => (Overlaps.overlaps r, Overlaps.start r)) <$> cellOverlaps' !! i
       = (fun r => (Overlaps.overlaps r, Overlaps.start r)) <$> cellOverlaps !! i.

(** The overlaps of every entry are different ids, and not the id of the
    entry. *)
Definition rowsDistinct (cellOverlaps : gmap string Overlaps.Record_) : Prop :=
  ∀ i r, cellOverlaps !! i = Some r →
         NoDup (Overlaps.overlaps r) ∧ i ∉ Overlaps.overlaps r.

(** The start of every entry is the start of an event of the cell that has
    the id of the entry. *)
Definition startsOf (cellEvents : list Event.t)
    (cellOverlaps : gmap string Overlaps.Record_) : Prop :=
  ∀ i r, cellOverlaps !! i = Some r →
         ∃ e, e ∈ cellEvents ∧ Event._eid e = i ∧ Overlaps.start r = Event.start e.

(** ** The segments of a repeated event *)

Section SegmentsOfRepetitions.
Import JS DateUtils.
Variable tz : Z.

(** Every occurrence starts and ends on the day of its key. *)
Definition singleDays (occurrences : gmap string Occurrence.t) : Prop :=
  ∀ n o, occurrences !! dayKey tz n = Some o →
         day tz (Occurrence.start o) = n ∧ day tz (Occurrence.end_ o) = n.

(** The end of the days that [createEventSegments] visits for a repeated
    event. *)
Definition repeatedEnd (r : Repeat.t) (viewEndDate : Date) : Z :=
  Z.min (getTime viewEndDate)
    (match Repeat.until r with
     | Some u => getTime u
     | None => getTime viewEndDate
     end).

(** The number of turns of a loop from [first] to [last]. *)
Definition turns (first last : Z) : nat :=
  if first <=? last then Z.to_nat (day tz last - day tz first + 1) else O.

(** The segment of the occurrence [o] on the day number [n]: it is a last
    day, and a first day unless the view starts on that day after
    midnight. *)
Definition repeatedSegmentOfDay (e : Event.t) (viewStartDate : Date) (n : Z)
    (o : Occurrence.t) : Segment.t :=
  let isFirstDay :=
    bool_decide (n ≠ day tz viewStartDate ∨ timeWithinDay tz viewStartDate = 0) in
  Segment.mk (if isFirstDay then Occurrence.start o else getTime viewStartDate)
    (dayKey tz n)
    (if isFirstDay then Event.startTimeMinutes e else 0)
    (Event.endTimeMinutes e)
    isFirstDay true 0 0.

(** The segments of the occurrences of the [j] days from the day [d0] on. *)
Fixpoint repeatedSegments (f : Z → Occurrence.t → Segment.t)
    (occurrences : gmap string Occurrence.t) (d0 : Z) (j : nat)
  : gmap string Segment.t :=
  match j with
  | O => ∅
  | S j' =>
      match occurrences !! dayKey tz (d0 + Z.of_nat j') with
      | Some o =>
          <[ dayKey tz (d0 + Z.of_nat j') := f (d0 + Z.of_nat j') o ]>
            (repeatedSegments f occurrences d0 j')
      | None => repeatedSegments f occurrences d0 j'
      end
  end.
End SegmentsOfRepetitions.

(** ** Examples *)

(** A day without a time, 2019-11-02, as an all-day event. *)
Definition allDayEvent : Event.t :=
  Event.mk "1_5" "2019-11-02" 1572652800000 0 "2019-11-02" 1572652800000 0
    "" "" false true None None None 1 true false true false true false false 0 0 [].

(** The meeting, repeated every day. *)
Definition dailyEvent : Event.t :=
  Event.mk "1_6" "2019-11-02 09:00" 1572685200000 540 "2019-11-02 10:00" 1572688800000 600
    "" "" false false None (Some (Repeat.mk "day" None None)) None 1
    true false true false true false false 0 0 [].

(** A meeting on 2019-11-02 from 09:30 to 11:00. *)
Definition laterEvent : Event.t :=
  Event.mk "1_7" "2019-11-02 09:30" 1572687000000 570 "2019-11-02 11:00" 1572692400000 660
    "" "" false false None None None 1 true false true false true false false 0 0 [].

(** The week from Monday 2019-10-28 00:00:00 to Sunday 2019-11-03 23:59:59. *)
Definition weekStart : JS.Date := 1572220800000.
Definition weekEnd : JS.Date := 1572825599000.

(** Saturday 2019-11-02 09:00, the Saturday after, and Friday 2019-01-04
    12:00. *)
Definition aSaturday : JS.Date := 1572685200000.
Definition nextSaturday : JS.Date := 1573290000000.
Definition fourthOfJanuary : JS.Date := 1546603200000.

(** The meeting, repeated every Saturday, with its occurrence of
    2019-11-02. *)
Definition everySaturday : Repeat.t := Repeat.mk "week" (Some [6]) None.
Definition weeklyOccurrences : gmap string Occurrence.t :=
  <[ "2019-11-02" := Occurrence.mk 1572685200000 1572688800000 ]> ∅.
Definition weeklyEvent : Event.t :=
  Event.mk "1_8" "2019-11-02 09:00" 1572685200000 540 "2019-11-02 10:00" 1572688800000 600
    "" "" false false None (Some everySaturday) (Some weeklyOccurrences) 1
    true false true false true false false 0 0 [].

(** * Properties *)

(** ** Numbers, strings and dates *)

Section DateFacts.
Import JS DateUtils.
Variable tz : Z.

Lemma day_plus_days (d : Date) (n : Z) : day tz (d + n * msPerDay) = day tz d + n.
Proof.
  unfold day, localTime.
  replace (d + n * msPerDay - tz * msPerMinute)
    with (d - tz * msPerMinute + n * msPerDay) by ring.
  apply Z.div_add. unfold msPerDay. lia.
Qed.

Lemma addDays_time (d : Date) (n : Z) : addDays tz d n = d + n * msPerDay.
Proof. unfold addDays, setDate, Date in *. lia. Qed.

Lemma subtractDays_time (d : Date) (n : Z) : subtractDays tz d n = d - n * msPerDay.
Proof. unfold subtractDays, setDate, Date in *. lia. Qed.

Lemma subtractDays_addDays (d : Date) (n : Z) : subtractDays tz (addDays tz d n) n = d.
Proof. rewrite subtractDays_time, addDays_time. unfold Date in *. lia. Qed.

Lemma midnight_le (d : Date) : setHours4 tz d 0 0 0 0 <= d.
Proof.
  unfold setHours4, fromLocal, day, localTime, msPerDay, msPerMinute.
  pose proof (Z.mul_div_le (d - tz * 60000) 86400000). lia.
Qed.

Lemma next_midnight_gt (d : Date) : d < setHours4 tz (addDays tz d 1) 0 0 0 0.
Proof.
  rewrite addDays_time. unfold setHours4. rewrite day_plus_days.
  unfold fromLocal, day, localTime, msPerDay, msPerMinute.
  pose proof (Z.mod_pos_bound (d - tz * 60000) 86400000).
  pose proof (Z.div_mod (d - tz * 60000) 86400000). lia.
Qed.

Lemma day_mono (a b : Date) : a <= b → day tz a <= day tz b.
Proof.
  intros H. unfold day, localTime. apply Z.div_le_mono; unfold msPerDay; lia.
Qed.

Lemma midnight_mono (a b : Date) :
  a <= b → setHours4 tz a 0 0 0 0 <= setHours4 tz b 0 0 0 0.
Proof.
  intros H. apply day_mono in H. unfold setHours4, fromLocal, msPerDay. lia.
Qed.
End DateFacts.

Section Decimal.
Import JS.

Lemma digits_last (f : nat) (n : Z) (acc : string) :
  n < 10 → digits (S f) n acc = String (digitChar (n mod 10)) acc.
Proof. intros H. simpl. destruct (Z.ltb_spec n 10); [done | lia]. Qed.

Lemma digits_next (f : nat) (n : Z) (acc : string) :
  10 <= n → digits (S f) n acc = digits f (n / 10) (String (digitChar (n mod 10)) acc).
Proof. intros H. simpl. destruct (Z.ltb_spec n 10); [lia | done]. Qed.

Lemma fuel_enough (n k : Z) :
  0 <= k → 2 ^ k <= n → ∃ f, S (Z.to_nat (Z.log2 n)) = (Z.to_nat k + S f)%nat.
Proof.
  intros Hk Hn.
  assert (k <= Z.log2 n) by (apply Z.log2_le_pow2; lia).
  exists (Z.to_nat (Z.log2 n - k)). lia.
Qed.

Lemma Number_toString_1 (n : Z) :
  0 <= n < 10 → String.length (Number_toString n) = 1%nat.
Proof.
  intros H. unfold Number_toString.
  destruct (Z.ltb_spec n 0); [lia |]. by rewrite digits_last by lia.
Qed.

Lemma Number_toString_2 (n : Z) :
  10 <= n < 100 → String.length (Number_toString n) = 2%nat.
Proof.
  intros H. unfold Number_toString.
  destruct (Z.ltb_spec n 0); [lia |].
  destruct (fuel_enough n 3) as [f ->]; [lia | simpl; lia |].
  change (Z.to_nat 3 + S f)%nat with (S (S (S (S f)))).
  rewrite digits_next by lia.
  rewrite digits_last; [done |].
  apply Z.div_lt_upper_bound; lia.
Qed.

Lemma Number_toString_4 (n : Z) :
  1000 <= n <= 9999 → String.length (Number_toString n) = 4%nat.
Proof.
  intros H. unfold Number_toString.
  destruct (Z.ltb_spec n 0); [lia |].
  destruct (fuel_enough n 9) as [f ->]; [lia | simpl; lia |].
  change (Z.to_nat 9 + S f)%nat with (S (S (S (S (S (S (S (S (S (S f)))))))))).
  assert (100 <= n / 10 < 1000)
    by (split; [apply Z.div_le_lower_bound | apply Z.div_lt_upper_bound]; lia).
  assert (10 <= n / 10 / 10 < 100)
    by (split; [apply Z.div_le_lower_bound | apply Z.div_lt_upper_bound]; lia).
  assert (n / 10 / 10 / 10 < 10) by (apply Z.div_lt_upper_bound; lia).
  rewrite digits_next by lia.
  rewrite digits_next by lia.
  rewrite digits_next by lia.
  by rewrite digits_last.
Qed.

Lemma string_app_cons (c : ascii) (s t : string) :
  String c s +:+ t = String c (s +:+ t).
Proof. reflexivity. Qed.

Lemma string_app_nil (t : string) : "" +:+ t = t.
Proof. reflexivity. Qed.

Lemma string_app_length (s t : string) :
  String.length (s +:+ t) = (String.length s + String.length t)%nat.
Proof.
  induction s as [| c s IH]; [done |].
  rewrite string_app_cons. cbn [String.length]. by rewrite IH.
Qed.

(** [(k + rest).substr(0, length k)] is [k]. *)
Lemma substr0_app (k rest : string) :
  substr0 (String.length k) (k +:+ rest) = k.
Proof.
  unfold substr0. induction k as [| c k IH].
  - rewrite string_app_nil. by destruct rest.
  - rewrite string_app_cons. cbn [String.length substring]. by rewrite IH.
Qed.

Lemma pad2_length (n : Z) :
  0 <= n < 100 →
  String.length ((if n <? 10 then "0" else "") +:+ Number_toString n) = 2%nat.
Proof.
  intros H. destruct (Z.ltb_spec n 10).
  - by rewrite string_app_length, Number_toString_1 by lia.
  - by rewrite string_app_length, Number_toString_2 by lia.
Qed.

Lemma allFrom_spec (p : Z → bool) (n : nat) (z k : Z) :
  allFrom p n z = true → z <= k < z + Z.of_nat n → p k = true.
Proof.
  revert z. induction n as [| n IH]; intros z Hall Hk; [lia |].
  cbn [allFrom] in Hall. apply andb_prop in Hall as [Hz Hrest].
  destruct (Z.eq_dec k z) as [-> | Hne]; [done |].
  apply (IH (z + 1)); [done | lia].
Qed.

Lemma monthDayInRange_era : allFrom monthDayInRange (Z.to_nat 146097) 0 = true.
Proof. vm_compute. reflexivity. Qed.

Lemma civilFromDays_month_day (z : Z) :
  1 <= (civilFromDays z).1.2 <= 12 ∧ 1 <= (civilFromDays z).2 <= 31.
Proof.
  set (doe := (z + 719468) - (z + 719468) / 146097 * 146097).
  assert (Hdoe : 0 <= doe < 0 + Z.of_nat (Z.to_nat 146097)).
  { unfold doe. pose proof (Z.mod_pos_bound (z + 719468) 146097).
    pose proof (Z.div_mod (z + 719468) 146097). lia. }
  pose proof (allFrom_spec _ _ _ _ monthDayInRange_era Hdoe) as Hok.
  unfold monthDayInRange in Hok.
  assert (E1 : (civilFromDays z).1.2 = (monthDayOfEra doe).1) by reflexivity.
  assert (E2 : (civilFromDays z).2 = (monthDayOfEra doe).2) by reflexivity.
  rewrite E1, E2. destruct (monthDayOfEra doe) as [m d]. cbn [fst snd]. lia.
Qed.

Lemma formatDateLite_length (tz : Z) (d : Date) :
  1000 <= getFullYear tz d <= 9999 →
  String.length (DateUtils.formatDateLite tz d) = 10%nat.
Proof.
  intros Hy. unfold DateUtils.formatDateLite.
  pose proof (civilFromDays_month_day (day tz d)) as [Hm Hd].
  rewrite !string_app_length.
  rewrite Number_toString_4 by done.
  assert (Hm' : 0 <= getMonth tz d + 1 < 100) by (unfold getMonth; lia).
  assert (Hd' : 0 <= getDate tz d < 100) by (unfold getDate; lia).
  pose proof (pad2_length _ Hm') as E1.
  pose proof (pad2_length _ Hd') as E2.
  rewrite string_app_length in E1, E2.
  cbn [String.length]. lia.
Qed.

(** The day key is what [substr(0, 10)] finds in front of a formatted
    date and time. *)
Lemma substr0_formatted (tz : Z) (d : Date) (rest : string) :
  1000 <= getFullYear tz d <= 9999 →
  substr0 10 (DateUtils.formatDateLite tz d +:+ rest) = DateUtils.formatDateLite tz d.
Proof.
  intros Hy. rewrite <- (formatDateLite_length tz d Hy) at 1. apply substr0_app.
Qed.
End Decimal.

(** ** countDays *)

Section CountDays.
Import JS DateUtils.
Variable tz : Z.

Lemma countDays_end_time (e : Date) :
  countDays_end tz e = setHours4 tz e 0 0 0 0 + 1000 + getMilliseconds tz e.
Proof. unfold countDays_end, setHours3, setHours4, fromLocal, msPerSecond. lia. Qed.

Lemma getMilliseconds_range (d : Date) : 0 <= getMilliseconds tz d < 1000.
Proof. unfold getMilliseconds, msPerSecond. apply Z.mod_pos_bound. lia. Qed.

(** [countDays] counts the civil days from the day of [start] to the day
    of [end_], both included. *)
Lemma countDays_counts_civil_days (start end_ : Date) :
  countDays tz start end_ = day tz end_ - day tz start + 1.
Proof.
  unfold countDays, countDays_start, countDays_end, getTimezoneOffset.
  unfold setHours3, setHours4, fromLocal.
  pose proof (getMilliseconds_range start). pose proof (getMilliseconds_range end_).
  set (x := getMilliseconds tz end_) in *. set (y := getMilliseconds tz start) in *.
  unfold ceilDiv, msPerSecond, msPerHour, msPerMinute, msPerDay in *.
  set (a := day tz end_). set (b := day tz start).
  replace (- (a * 86400000 + 0 * 3600000 + 0 * 60000 + 1 * 1000 + x + tz * 60000
              - (b * 86400000 + 0 * 3600000 + 0 * 60000 + 0 * 1000 + y + tz * 60000)
              - (tz - tz) * 60 * 1000))
    with ((86400000 - (1000 + x - y)) + (b - a - 1) * 86400000) by lia.
  change (24 * 3600 * 1000) with 86400000.
  rewrite Z.div_add by lia. rewrite Z.div_small by lia. lia.
Qed.





End CountDays.



(** ** eventInRange *)

Section InRange.
Import JS DateUtils.
Variable tz : Z.

Lemma end_of_day_ge (d : Date) : setHours4 tz d 0 0 0 0 <= setHours4 tz d 23 59 59 999.
Proof. unfold setHours4, fromLocal, msPerHour, msPerMinute, msPerSecond. lia. Qed.

Lemma Part000_eventInRange_timed (e : Event.t) (start end_ : Date) :
  timed e →
  Part000.eventInRange tz e start end_
    = bool_decide (Event.startDate e < end_ ∧ start < Event.endDate e).
Proof.
  intros [Hall Hcolon]. unfold Part000.eventInRange, getTime.
  rewrite Hall, Hcolon. cbn [negb orb].
  destruct (Z.ltb_spec (Event.startDate e) end_), (Z.ltb_spec start (Event.endDate e));
    cbn [andb]; symmetry;
    first [apply bool_decide_eq_true; lia | apply bool_decide_eq_false; lia].
Qed.

Lemma Part000_eventInRange_dated (e : Event.t) (start end_ : Date) :
  ¬ timed e →
  Part000.eventInRange tz e start end_
    = bool_decide (setHours4 tz start 0 0 0 0 <= setHours4 tz (Event.startDate e) 0 0 0 0
                   ∧ setHours4 tz (Event.startDate e) 0 0 0 0
                     <= setHours4 tz end_ 0 0 0 0).
Proof.
  intros Hnt. unfold Part000.eventInRange.
  assert (E : Event.allDay e || negb (includesChar ":"%char (Event.start e)) = true).
  { unfold timed in Hnt.
    destruct (Event.allDay e), (includesChar ":"%char (Event.start e)); try done.
    by destruct Hnt. }
  rewrite E.
  destruct (Z.leb_spec (setHours4 tz start 0 0 0 0)
              (setHours4 tz (Event.startDate e) 0 0 0 0)),
           (Z.leb_spec (setHours4 tz (Event.startDate e) 0 0 0 0)
              (setHours4 tz end_ 0 0 0 0));
    cbn [andb]; symmetry;
    first [apply bool_decide_eq_true; lia | apply bool_decide_eq_false; lia].
Qed.

Lemma EventUtils_eventInRange_timed (e : Event.t) (start end_ : Date) :
  timed e → Event.repeat e = None →
  EventUtils.eventInRange tz e start end_
    = bool_decide (Event.startDate e < end_ ∧ start < Event.endDate e).
Proof.
  intros [Hall Hcolon] Hrep. unfold EventUtils.eventInRange, getTime.
  rewrite Hall, Hcolon, Hrep. cbn [negb orb].
  destruct (Z.ltb_spec (Event.startDate e) end_), (Z.ltb_spec start (Event.endDate e));
    cbn [andb]; symmetry;
    first [apply bool_decide_eq_true; lia | apply bool_decide_eq_false; lia].
Qed.

Lemma EventUtils_eventInRange_dated (e : Event.t) (start end_ : Date) :
  ¬ timed e →
  setHours4 tz start 0 0 0 0 <= setHours4 tz (Event.startDate e) 0 0 0 0
    <= setHours4 tz end_ 23 59 59 999 →
  EventUtils.eventInRange tz e start end_ = true.
Proof.
  intros Hnt [H1 H2]. unfold EventUtils.eventInRange.
  assert (E : Event.allDay e || negb (includesChar ":"%char (Event.start e)) = true).
  { unfold timed in Hnt.
    destruct (Event.allDay e), (includesChar ":"%char (Event.start e)); try done.
    by destruct Hnt. }
  rewrite E. apply orb_true_iff. left. apply andb_true_iff.
  split; apply Z.leb_le; done.
Qed.

Lemma timed_dec (e : Event.t) : timed e ∨ ¬ timed e.
Proof.
  unfold timed.
  destruct (Event.allDay e), (includesChar ":"%char (Event.start e)); intuition congruence.
Qed.

(** A timed event that does not last is outside of its own interval. *)
Lemma eventInRange_zero_duration (e : Event.t) :
  timed e → Event.repeat e = None → Event.startDate e = Event.endDate e →
  Part000.eventInRange tz e (Event.startDate e) (Event.endDate e) = false
  ∧ EventUtils.eventInRange tz e (Event.startDate e) (Event.endDate e) = false.
Proof.
  intros Ht Hrep Heq.
  rewrite Part000_eventInRange_timed, EventUtils_eventInRange_timed by done.
  split; apply bool_decide_eq_false; lia.
Qed.
End InRange.

(** C6, as stated, fails: a timed event whose start and end coincide is not
    in range of its own interval, in either revision. *)
Lemma C6_zero_duration_counterexample :
  ¬ (∀ e : Event.t,
       Part000.eventInRange 0 e (Event.startDate e) (Event.endDate e) = true).
Proof. intros H. specialize (H zeroDurationEvent). vm_compute in H. discriminate. Qed.

(** C6, amended. Every event that ends after it starts is in range of its own
    interval, and so is an all-day or time-less event whose start and end
    coincide; in [event-utils.js] this is for the events that are not handed to
    [recurringEventInRange] (timed events with a repeat rule). *)
Theorem C6_eventInRange_own_interval (tz : Z) (e : Event.t) :
  Event.startDate e < Event.endDate e
    ∨ (¬ timed e ∧ Event.startDate e <= Event.endDate e) →
  Part000.eventInRange tz e (Event.startDate e) (Event.endDate e) = true
  ∧ (Event.repeat e = None ∨ ¬ timed e →
     EventUtils.eventInRange tz e (Event.startDate e) (Event.endDate e) = true).
Proof.
  intros Hlen. destruct (timed_dec e) as [Ht | Hnt].
  - assert (Event.startDate e < Event.endDate e) by (destruct Hlen as [? | [? ?]]; done).
    split.
    + rewrite Part000_eventInRange_timed by done. apply bool_decide_eq_true. lia.
    + intros [Hrep | ?]; [| done].
      rewrite EventUtils_eventInRange_timed by done. apply bool_decide_eq_true. lia.
  - assert (Hle : Event.startDate e <= Event.endDate e) by (destruct Hlen as [? | [? ?]]; lia).
    pose proof (midnight_mono tz _ _ Hle).
    pose proof (end_of_day_ge tz (Event.endDate e)).
    split.
    + rewrite Part000_eventInRange_dated by done. apply bool_decide_eq_true. lia.
    + intros _. apply EventUtils_eventInRange_dated; [done | lia].
Qed.

Lemma C6_eventInRange_own_interval_witness :
  (Event.startDate meetingEvent < Event.endDate meetingEvent
   ∨ (¬ timed meetingEvent ∧ Event.startDate meetingEvent <= Event.endDate meetingEvent))
  ∧ Part000.eventInRange 0 meetingEvent
      (Event.startDate meetingEvent) (Event.endDate meetingEvent) = true.
Proof.
  assert (H : Event.startDate meetingEvent < Event.endDate meetingEvent
              ∨ (¬ timed meetingEvent
                 ∧ Event.startDate meetingEvent <= Event.endDate meetingEvent))
    by (left; vm_compute; reflexivity).
  split; [exact H |].
  exact (proj1 (C6_eventInRange_own_interval 0 meetingEvent H)).
Defined.

(** ** Geometry *)

Section Geometry.
Import JS.

(** [roundDiv n d] is the integer nearest to [n / d], halves going up. *)
Lemma roundDiv_nearest (n d : Z) :
  0 < d → 2 * n - d < 2 * d * roundDiv n d <= 2 * n + d.
Proof.
  intros Hd. unfold roundDiv.
  pose proof (Z.mul_div_le (2 * n + d) (2 * d)).
  pose proof (Z.mul_succ_div_gt (2 * n + d) (2 * d)). lia.
Qed.

Lemma roundQuotient_defined (n d : Z) : d ≠ 0 → is_Some (roundQuotient n d).
Proof.
  intros Hd. unfold roundQuotient.
  destruct (Z.eqb_spec d 0); [done |]. destruct (0 <? d); eauto.
Qed.

Lemma roundQuotient_positive_step (n d : Z) :
  0 < d → roundQuotient n d = Some (roundDiv n d).
Proof.
  intros Hd. unfold roundQuotient.
  destruct (Z.eqb_spec d 0); [lia |]. destruct (Z.ltb_spec 0 d); [done | lia].
Qed.

End Geometry.

(** C7, as stated, fails: the top is not the quotient itself but the quotient
    rounded to a whole pixel.  At 00:10 with 40 pixels for an hour the
    quotient is 400 / 60 and the top is 7. *)
Lemma C7_top_is_rounded_counterexample :
  ¬ (∀ event vuecal e',
       Part000.updateEventPosition event vuecal = Some e' →
       quotientFromZero
         ((Event.startTimeMinutes event - Vuecal.timeFrom vuecal)
          * Vuecal.timeCellHeight vuecal)
         (Vuecal.timeStep vuecal) (Event.top e')).
Proof.
  intros H. specialize (H earlyEvent hourlyView _ eq_refl).
  vm_compute in H. destruct H as [[_ H] | [H _]]; discriminate.
Qed.

(** C7, amended. For a view whose time step is positive, [updateEventPosition]
    sets [top] to the rounding of [(startTimeMinutes - timeFrom) *
    timeCellHeight / timeStep], bounded below by 0, in both revisions; in
    [part_000] it sets [height] to the rounding of the same formula at
    [min(endTimeMinutes, timeTo)], less [top], bounded below by 5: the height
    is at least 5 and never zero or negative. *)
Theorem C7_updateEventPosition_geometry (event : Event.t) (vuecal : Vuecal.t) :
  0 < Vuecal.timeStep vuecal →
  let top :=
    JS.roundDiv ((Event.startTimeMinutes event - Vuecal.timeFrom vuecal)
                 * Vuecal.timeCellHeight vuecal) (Vuecal.timeStep vuecal) in
  let bottom :=
    JS.roundDiv ((Z.min (Event.endTimeMinutes event) (Vuecal.timeTo vuecal)
                  - Vuecal.timeFrom vuecal)
                 * Vuecal.timeCellHeight vuecal) (Vuecal.timeStep vuecal) in
  (∃ e', Part000.updateEventPosition event vuecal = Some e'
         ∧ Event.top e' = Z.max top 0
         ∧ Event.height e' = Z.max (bottom - Z.max top 0) 5
         ∧ 5 <= Event.height e')
  ∧ (∃ e', EventUtils.updateEventPosition event vuecal = Some e'
           ∧ Event.top e' = Z.max top 0).
Proof.
  intros Hstep top bottom.
  unfold Part000.updateEventPosition, EventUtils.updateEventPosition.
  rewrite !roundQuotient_positive_step by done. cbn [mbind option_bind].
  fold top bottom. split.
  - eexists. split; [reflexivity |]. cbn [Event.top Event.height Event.set_top Event.set_height].
    repeat split; lia.
  - eexists. split; [reflexivity |]. done.
Qed.

Lemma C7_updateEventPosition_geometry_witness :
  0 < Vuecal.timeStep hourlyView
  ∧ ∃ e', Part000.updateEventPosition zeroDurationEvent hourlyView = Some e'
          ∧ Event.top e' = 360 ∧ Event.height e' = 5.
Proof.
  assert (H : 0 < Vuecal.timeStep hourlyView) by (vm_compute; reflexivity).
  split; [exact H |].
  destruct (C7_updateEventPosition_geometry zeroDurationEvent hourlyView H)
    as [(e' & E & Htop & Hheight & _) _].
  exists e'. split; [exact E |]. split; [exact Htop | exact Hheight].
Defined.

(** In [event-utils.js] the height is the difference itself: an event of no
    duration is given the height 0. *)
Lemma EventUtils_updateEventPosition_zero_height :
  Event.height <$> EventUtils.updateEventPosition zeroDurationEvent hourlyView = Some 0.
Proof. reflexivity. Qed.

(** ** Segments *)

Section Segments.
Import JS DateUtils.
Variable tz : Z.

Lemma Part000_addEventSegment_grown (e : Event.t) :
  Part000.addEventSegment tz e
    = (grown tz (Segment.mk (setHours4 tz (addDays tz (Event.endDate e) 1) 0 0 0 0)
                (nextKey tz e) 0 (Event.endTimeMinutes e) false true 0 0) e,
       nextKey tz e).
Proof.
  unfold Part000.addEventSegment, grown, grownSegments, initialSegments, notLast,
    nextKey, endKey.
  cbv zeta. destruct e. reflexivity.
Qed.

Lemma EventUtils_addEventSegment_grown (e : Event.t) :
  EventUtils.addEventSegment tz e
    = (grown tz (Segment.mk (setHours2 tz (addDays tz (Event.endDate e) 1) 0 0)
                (nextKey tz e) 0 (Event.endTimeMinutes e) false true 0 0) e,
       nextKey tz e).
Proof.
  unfold EventUtils.addEventSegment, grown, grownSegments, initialSegments, notLast,
    nextKey, endKey, formatDate_default, Part000.minutesInADay.
  cbv zeta. destruct e. reflexivity.
Qed.

Lemma size_alter (f : Segment.t → Segment.t) (k : string) (sg : gmap string Segment.t) :
  size (alter f k sg) = size sg.
Proof. by rewrite <- !size_dom, dom_alter_L. Qed.

Lemma lastAgain_notLast (m : Z) (seg : Segment.t) :
  Segment.isLastDay seg = true → Segment.endTimeMinutes seg = m →
  lastAgain m (notLast seg) = seg.
Proof. destruct seg. cbn. by intros -> ->. Qed.

(** Deleting the added day and marking the end day as last again undoes
    the growth of a map. *)
Lemma shrink_grownSegments (sg : gmap string Segment.t) (k k' : string) (m : Z)
    (newSegment : Segment.t) :
  sg !! k' = None →
  (∀ seg, sg !! k = Some seg →
          Segment.isLastDay seg = true ∧ Segment.endTimeMinutes seg = m) →
  alter (lastAgain m) k (delete k' (<[ k' := newSegment ]> (alter notLast k sg))) = sg.
Proof.
  intros Hnext Hlast.
  rewrite delete_insert_id.
  - rewrite alter_alter_eq. apply alter_id. intros seg Hseg.
    destruct (Hlast seg Hseg). by apply lastAgain_notLast.
  - rewrite lookup_alter. case_decide; [subst; by rewrite Hnext | done].
Qed.

Lemma size_grownSegments (newSegment : Segment.t) (e : Event.t) :
  initialSegments e !! nextKey tz e = None →
  size (grownSegments tz newSegment e) = S (size (initialSegments e)).
Proof.
  intros Hnext. unfold grownSegments.
  rewrite map_size_insert_None, size_alter; [done |].
  rewrite lookup_alter. case_decide as E; [rewrite <- E in Hnext; by rewrite Hnext | done].
Qed.

Lemma resizable_initialSegments (e : Event.t) :
  resizable tz e →
  initialSegments e !! nextKey tz e = None ∧ (0 < size (initialSegments e))%nat
  ∧ Event.daysCount e = Z.of_nat (size (initialSegments e)).
Proof.
  intros (_ & _ & Hsg). unfold initialSegments.
  destruct (Event.segments e) as [sg |].
  - destruct Hsg as (Hne & Hnext & _ & Hcount). split; [done |]. split; [| done].
    apply map_size_non_empty_iff in Hne. lia.
  - destruct Hsg as [Hcount Hstart]. split; [| split].
    + by rewrite lookup_insert_ne.
    + rewrite map_size_insert_None by done. lia.
    + rewrite map_size_insert_None, map_size_empty by done. lia.
Qed.

(** [removeEventSegment] after the growth by one day. *)
Lemma removeEventSegment_grown (newSegment : Segment.t) (e : Event.t) :
  resizable tz e →
  ∃ e', Part000.removeEventSegment tz (grown tz newSegment e) = Some (e', endKey tz e)
        ∧ Event.end_ e' = Event.end_ e
        ∧ Event.endDate e' = Event.endDate e
        ∧ Event.daysCount e' = Event.daysCount e
        ∧ (is_Some (Event.segments e) → Event.segments e' = Event.segments e).
Proof.
  intros Hres.
  destruct (resizable_initialSegments e Hres) as (Hnext & Hpos & Hcount).
  pose proof Hres as (Hend & Hyear & Hsg).
  pose proof (size_grownSegments newSegment e Hnext) as Hsize.
  unfold Part000.removeEventSegment, grown.
  cbn [Event.segments Event.set_end Event.set_endDate Event.set_daysCount
       Event.set_segments Event.end_ Event.endDate Event.endTimeMinutes].
  rewrite Hsize.
  destruct (Z.leb_spec (Z.of_nat (S (size (initialSegments e)))) 1) as [? | _]; [lia |].
  destruct (Z.eqb_spec (Z.of_nat (S (size (initialSegments e))) - 1) 0) as [? | _]; [lia |].
  rewrite subtractDays_addDays. fold (endKey tz e).
  unfold nextKey at 1. rewrite substr0_formatted by done. fold (nextKey tz e).
  eexists. split; [reflexivity |].
  cbn [Event.segments Event.set_end Event.set_endDate Event.set_daysCount
       Event.set_segments Event.end_ Event.endDate Event.endTimeMinutes Event.daysCount].
  split; [by rewrite Hend |]. split; [done |]. split; [lia |].
  intros [sg Esg]. unfold grownSegments, initialSegments in *.
  rewrite Esg in *. destruct Hsg as (_ & _ & Hlast & _).
  f_equal. by apply shrink_grownSegments.
Qed.
End Segments.

Lemma twoDayEvent_built :
  Part000.createEventSegments 0 (Event.set_segments None twoDayEvent)
    1572652800000 1573257600000 = Some twoDayEvent.
Proof. by vm_compute. Qed.

Lemma twoDayEvent_resizable : resizable 0 twoDayEvent.
Proof.
  split; [by vm_compute |]. split; [vm_compute; split; discriminate |].
  cbn [Event.segments twoDayEvent].
  split; [intros H; apply (f_equal size) in H; vm_compute in H; discriminate |].
  split; [by vm_compute |]. split; [| by vm_compute].
  intros seg H. vm_compute in H. injection H as <-. by split.
Qed.

Lemma meetingEvent_resizable : resizable 0 meetingEvent.
Proof.
  split; [by vm_compute |]. split; [vm_compute; split; discriminate |].
  cbn [Event.segments meetingEvent]. split; [done |]. vm_compute. discriminate.
Qed.

(** C1, as stated, fails for an event without segments: after
    [addEventSegment] and [removeEventSegment] its [segments] are a mapping
    with the one day of the event, not [null]. *)
Lemma C1_null_segments_counterexample :
  ¬ (∀ e e' k,
       Part000.removeEventSegment 0 (Part000.addEventSegment 0 e).1 = Some (e', k) →
       Event.end_ e' = Event.end_ e ∧ Event.endDate e' = Event.endDate e
       ∧ Event.daysCount e' = Event.daysCount e
       ∧ Event.segments e' = Event.segments e).
Proof.
  intros H.
  destruct (Part000.removeEventSegment 0 (Part000.addEventSegment 0 meetingEvent).1)
    as [[e' k] |] eqn:E; [| vm_compute in E; discriminate].
  destruct (H _ _ _ E) as (_ & _ & _ & Hsg).
  vm_compute in E. injection E as <- _. vm_compute in Hsg. discriminate.
Qed.

(** What is left of the segments in that case: the day of the event. *)
Lemma add_then_remove_null_segments :
  (fun r => map_to_list <$> Event.segments r.1)
    <$> Part000.removeEventSegment 0 (Part000.addEventSegment 0 meetingEvent).1
  = Some (Some [("2019-11-02",
                 Segment.mk 1572685200000 "2019-11-02" 540 600 true true 0 0)]).
Proof. by vm_compute. Qed.

(** C1, amended. In a zone with a fixed offset [tz], for an event that is
    fit for resizing ([resizable]), [addEventSegment] followed by
    [removeEventSegment] gives back the [end], the [endDate] and the
    [daysCount] of the event, and its segments when it had segments; this
    holds in both revisions.  (The fixed offset is for [endDate], which goes
    through [addDays(1)] and [subtractDays(1)]: where a day has 23 or 25
    hours, an end time that the next day skips comes back an hour off.) *)
Theorem C1_add_then_remove_restores (tz : Z) (e : Event.t) :
  resizable tz e →
  (∃ e' k,
     Part000.removeEventSegment tz (Part000.addEventSegment tz e).1 = Some (e', k)
     ∧ restores e e')
  ∧ (∃ e' k,
       EventUtils.removeEventSegment tz (EventUtils.addEventSegment tz e).1 = Some (e', k)
       ∧ restores e e').
Proof.
  intros Hres. split.
  - rewrite Part000_addEventSegment_grown. cbn [fst].
    match goal with
    | |- context [grown tz ?ns e] =>
        destruct (removeEventSegment_grown tz ns e Hres) as (e' & E & R)
    end.
    by exists e', (endKey tz e).
  - rewrite EventUtils_addEventSegment_grown. cbn [fst]. unfold EventUtils.removeEventSegment.
    match goal with
    | |- context [grown tz ?ns e] =>
        destruct (removeEventSegment_grown tz ns e Hres) as (e' & E & R)
    end.
    by exists e', (endKey tz e).
Qed.

Lemma C1_add_then_remove_restores_witness :
  resizable 0 twoDayEvent
  ∧ ∃ e' k,
      Part000.removeEventSegment 0 (Part000.addEventSegment 0 twoDayEvent).1 = Some (e', k)
      ∧ restores twoDayEvent e'.
Proof.
  split; [exact twoDayEvent_resizable |].
  exact (proj1 (C1_add_then_remove_restores 0 twoDayEvent twoDayEvent_resizable)).
Defined.

(** ** The days count *)

Section DaysCount.
Import JS DateUtils.
Variable tz : Z.

Lemma addEventSegment_daysCount (e : Event.t) :
  daysCountInvariant (Part000.addEventSegment tz e).1
  ∧ daysCountInvariant (EventUtils.addEventSegment tz e).1.
Proof.
  rewrite Part000_addEventSegment_grown, EventUtils_addEventSegment_grown.
  by split.
Qed.

Lemma removeEventSegment_daysCount (e : Event.t) (sg : gmap string Segment.t) :
  Event.segments e = Some sg →
  daysCountInvariant e →
  is_Some (sg !! substr0 10 (Event.end_ e)) →
  ∃ e' k, Part000.removeEventSegment tz e = Some (e', k) ∧ daysCountInvariant e'.
Proof.
  intros Hsg Hinv Hkey. unfold Part000.removeEventSegment. rewrite Hsg.
  destruct (Z.leb_spec (Z.of_nat (size sg)) 1) as [? | Hmany]; [by eauto |].
  destruct (Z.eqb_spec (Z.of_nat (size sg) - 1) 0) as [? | _]; [lia |].
  eexists _, _. split; [reflexivity |]. unfold daysCountInvariant.
  cbn [Event.segments Event.set_end Event.set_endDate Event.set_daysCount
       Event.set_segments Event.daysCount].
  rewrite size_alter, map_size_delete_Some by done. lia.
Qed.

(** An event made by [createAnEvent] without options and without a hook,
    in a component whose [addEventsToView] leaves the event as it is. *)
Lemma createAnEvent_daysCount (Date_parse : string → Date)
    (addEventsToView : list Event.t → Vuecal.t → list Event.t * Vuecal.t)
    (dateTime : Date) (vuecal : Vuecal.t) :
  Vuecal.onEventCreate vuecal = None →
  1000 <= getFullYear tz dateTime <= 9999 →
  (∀ events v, (addEventsToView events v).1 = events) →
  ∃ e' vuecal',
    Part000.createAnEvent tz Date_parse addEventsToView
      (Part000.ADate dateTime) EventOptions.empty vuecal
      = (Part000.ReturnsEvent e', vuecal')
    ∧ Event.segments e' = None ∧ Event.daysCount e' = 1.
Proof.
  intros Hhook Hyear Hview.
  unfold Part000.createAnEvent, Part000.newEvent. cbv zeta.
  cbn [Vuecal.onEventCreate Vuecal.set_eventIdIncrement]. rewrite Hhook.
  unfold Part000.insertEvent.
  cbn [EventOptions.spread EventOptions.empty default Event.start Event.end_
       EventOptions._eid EventOptions.start EventOptions.startDate
       EventOptions.startTimeMinutes EventOptions.end_ EventOptions.endDate
       EventOptions.endTimeMinutes EventOptions.title EventOptions.content
       EventOptions.background EventOptions.allDay EventOptions.segments
       EventOptions.repeat EventOptions.occurrences EventOptions.daysCount
       EventOptions.deletable EventOptions.deleting EventOptions.resizable
       EventOptions.resizing EventOptions.draggable EventOptions.dragging
       EventOptions.focused EventOptions.top EventOptions.height EventOptions.classes].
  rewrite !substr0_formatted by done.
  rewrite bool_decide_eq_false_2 by (intros H; by apply H).
  match goal with
  | |- context [addEventsToView ?evs ?v] =>
      pose proof (Hview evs v) as Hsame; destruct (addEventsToView evs v) as [events v']
  end.
  cbn [fst] in Hsame. subst events. cbn [head default].
  eexists _, _. split; [reflexivity |]. by split.
Qed.
End DaysCount.

(** C2, as stated, fails for [createEventSegments]: it makes the segments of
    the days that are in the view and leaves [daysCount] as it is.  The two-day
    event, seen in a view that starts on its second day, has one segment and
    counts two days. *)
Lemma C2_createEventSegments_counterexample :
  ¬ (∀ e viewStartDate viewEndDate e',
       daysCountInvariant e →
       Part000.createEventSegments 0 e viewStartDate viewEndDate = Some e' →
       daysCountInvariant e').
Proof.
  intros H.
  assert (Hinv : daysCountInvariant twoDayEvent) by (by vm_compute).
  destruct (Part000.createEventSegments 0 twoDayEvent 1572739200000 1573257600000)
    as [e' |] eqn:E; [| vm_compute in E; discriminate].
  specialize (H _ _ _ _ Hinv E).
  vm_compute in E. injection E as <-. vm_compute in H. discriminate H.
Qed.

(** C2, amended. [daysCount] is the number of segments after
    [addEventSegment]; [removeEventSegment] keeps it so when the end day of the
    event has a segment; an event made by [createAnEvent] without options and
    without a hook has no segments and counts one day.  (Nothing is said of
    [createEventSegments], which does not write [daysCount].) *)
Theorem C2_daysCount_counts_segments (tz : Z) (e : Event.t) :
  daysCountInvariant (Part000.addEventSegment tz e).1
  ∧ (∀ sg, Event.segments e = Some sg →
           daysCountInvariant e →
           is_Some (sg !! JS.substr0 10 (Event.end_ e)) →
           ∃ e' k, Part000.removeEventSegment tz e = Some (e', k) ∧ daysCountInvariant e')
  ∧ (∀ Date_parse addEventsToView dateTime vuecal,
       Vuecal.onEventCreate vuecal = None →
       1000 <= JS.getFullYear tz dateTime <= 9999 →
       (∀ events v, (addEventsToView events v).1 = events) →
       ∃ e' vuecal',
         Part000.createAnEvent tz Date_parse addEventsToView
           (Part000.ADate dateTime) EventOptions.empty vuecal
           = (Part000.ReturnsEvent e', vuecal')
         ∧ daysCountInvariant e').
Proof.
  split; [exact (proj1 (addEventSegment_daysCount tz e)) |]. split.
  - intros sg. exact (removeEventSegment_daysCount tz e sg).
  - intros parse view dateTime vuecal Hhook Hyear Hview.
    destruct (createAnEvent_daysCount tz parse view dateTime vuecal Hhook Hyear Hview)
      as (e' & v' & E & Hsg & Hcount).
    exists e', v'. split; [done |]. unfold daysCountInvariant. by rewrite Hsg.
Qed.

(** ** Creation and the hook *)

Section Creation.
Import JS DateUtils.
Variable tz : Z.
Variable Date_parse : string → Date.
Variable addEventsToView : list Event.t → Vuecal.t → list Event.t * Vuecal.t.

Lemma filter_all {A} (P : A → Prop) `{∀ x, Decision (P x)} (l : list A) :
  (∀ x, x ∈ l → P x) → filter P l = l.
Proof.
  induction l as [| x l IH]; intros Hall; [done |].
  rewrite filter_cons_True by (apply Hall; left).
  f_equal. apply IH. intros y Hy. apply Hall. by right.
Qed.

Lemma deleteAnEvent_fields (event : Event.t) (vuecal : Vuecal.t) :
  Vuecal.mutableEvents (Part000.deleteAnEvent event vuecal)
    = filter (fun e => Event._eid e ≠ Event._eid event) (Vuecal.mutableEvents vuecal)
  ∧ Vuecal.view_events (Part000.deleteAnEvent event vuecal)
    = filter (fun e => Event._eid e ≠ Event._eid event) (Vuecal.view_events vuecal)
  ∧ Vuecal.emitted (Part000.deleteAnEvent event vuecal)
    = (Vuecal.emitted vuecal ++ [("event-delete", event)])%list.
Proof. done. Qed.

(** The calls of the delete callback, one after the other: each sends
    [event-delete] with the event as it is then, and takes away the events
    that have the id that it has then. *)
Lemma deleteCalls_fields (calls : list Event.t) (vuecal : Vuecal.t) :
  let vuecal' :=
    fold_left (fun vuecal event => Part000.deleteAnEvent event vuecal) calls vuecal in
  Vuecal.mutableEvents vuecal'
    = filter (fun e => Event._eid e ∉ Event._eid <$> calls) (Vuecal.mutableEvents vuecal)
  ∧ Vuecal.view_events vuecal'
    = filter (fun e => Event._eid e ∉ Event._eid <$> calls) (Vuecal.view_events vuecal)
  ∧ Vuecal.emitted vuecal'
    = (Vuecal.emitted vuecal ++ ((fun e => ("event-delete", e)) <$> calls))%list.
Proof.
  clear tz Date_parse addEventsToView. cbv zeta. revert vuecal. induction calls as [| c calls IH]; intros vuecal.
  - cbn [fold_left fmap list_fmap]. rewrite app_nil_r.
    rewrite !filter_all; [done | intros x _; apply not_elem_of_nil ..].
  - cbn [fold_left]. destruct (IH (Part000.deleteAnEvent c vuecal)) as (-> & -> & ->).
    destruct (deleteAnEvent_fields c vuecal) as (-> & -> & ->).
    rewrite !list_filter_filter, fmap_cons, <- app_assoc.
    split; [| split; [| done]];
      apply list_filter_iff; intros x; rewrite not_elem_of_cons; tauto.
Qed.

(** Calls at which the candidate has the id of no event take no event away. *)
Lemma filter_fresh (ids : list string) (vuecal : Vuecal.t) :
  (∀ id, id ∈ ids → freshId id vuecal) →
  filter (fun e => Event._eid e ∉ ids) (Vuecal.mutableEvents vuecal)
    = Vuecal.mutableEvents vuecal
  ∧ filter (fun e => Event._eid e ∉ ids) (Vuecal.view_events vuecal)
    = Vuecal.view_events vuecal.
Proof.
  intros Hfresh.
  split; apply filter_all; intros e He Hin; destruct (Hfresh _ Hin) as [Hm Hv].
  - by apply (Hm e).
  - by apply (Hv e).
Qed.

(** [createAnEvent] when the hook says no. *)
Lemma createAnEvent_vetoed (dateTime : Part000.DateTimeArg) (d : Date)
    (eventOptions : EventOptions.t) (vuecal : Vuecal.t)
    (hook : Event.t → Vuecal.HookOutcome) :
  instantOf Date_parse dateTime = Some d →
  Vuecal.onEventCreate vuecal = Some hook →
  let outcome := hook (Part000.newEvent tz Date_parse d eventOptions vuecal).1 in
  Vuecal.verdict outcome = false →
  Part000.createAnEvent tz Date_parse addEventsToView dateTime eventOptions vuecal
    = (Part000.ReturnsUndefined,
       fold_left (fun vuecal event => Part000.deleteAnEvent event vuecal)
         (Vuecal.deleteCalls outcome)
         (Part000.newEvent tz Date_parse d eventOptions vuecal).2).
Proof.
  intros Hd Hhook outcome Hverdict.
  assert (E : match dateTime with
              | Part000.AString s => Part000.ADate (Part000.stringToDate Date_parse s)
              | other => other
              end = Part000.ADate d).
  { destruct dateTime; cbn in Hd; by simplify_eq. }
  unfold Part000.createAnEvent. rewrite E.
  destruct (Part000.newEvent tz Date_parse d eventOptions vuecal) as [event vuecal1] eqn:En.
  assert (Hhook1 : Vuecal.onEventCreate vuecal1 = Some hook).
  { unfold Part000.newEvent in En. cbv zeta in En. injection En as _ <-. exact Hhook. }
  rewrite Hhook1. cbn [fst snd] in *. fold outcome. by rewrite Hverdict.
Qed.

Lemma newEvent_collections (d : Date) (eventOptions : EventOptions.t) (vuecal : Vuecal.t) :
  let vuecal1 := (Part000.newEvent tz Date_parse d eventOptions vuecal).2 in
  Vuecal.mutableEvents vuecal1 = Vuecal.mutableEvents vuecal
  ∧ Vuecal.view_events vuecal1 = Vuecal.view_events vuecal
  ∧ Vuecal.emitted vuecal1 = Vuecal.emitted vuecal.
Proof. done. Qed.
End Creation.

(** C9, as stated, fails: the hook is handed a callback that deletes, and a
    hook that calls it and then refuses the event takes away the events that
    have the id of the candidate.  Here the options give the candidate the
    id of the meeting, the hook calls the callback, renames the candidate
    and refuses it: the meeting is gone. *)
Lemma C9_delete_callback_counterexample :
  ¬ (∀ (eventOptions : EventOptions.t) (vuecal : Vuecal.t)
       (hook : Event.t → Vuecal.HookOutcome) (d : JS.Date),
       Vuecal.onEventCreate vuecal = Some hook →
       Vuecal.verdict (hook (Part000.newEvent 0 (fun _ => 0) d eventOptions vuecal).1)
         = false →
       let after :=
         (Part000.createAnEvent 0 (fun _ => 0) (fun events v => (events, v))
            (Part000.ADate d) eventOptions vuecal).2 in
       Vuecal.mutableEvents after = Vuecal.mutableEvents vuecal
       ∧ Vuecal.view_events after = Vuecal.view_events vuecal).
Proof.
  intros H.
  destruct (H meetingIdOptions deletingView deleteAndRename 1572717600000 eq_refl eq_refl)
    as [Hm _].
  vm_compute in Hm. discriminate.
Qed.

(** What that call leaves: no event, and the signal of the deletion, sent
    with the candidate as it was at the call. *)
Lemma vetoed_creation_deletes :
  let after :=
    (Part000.createAnEvent 0 (fun _ => 0) (fun events v => (events, v))
       (Part000.ADate 1572717600000) meetingIdOptions deletingView) in
  after.1 = Part000.ReturnsUndefined
  ∧ Vuecal.mutableEvents after.2 = []
  ∧ Vuecal.view_events after.2 = []
  ∧ (fun s => (s.1, Event._eid s.2)) <$> Vuecal.emitted after.2 = [("event-delete", "1_1")].
Proof. by vm_compute. Qed.

(** C9, amended. When the hook is there and its verdict is falsy,
    [createAnEvent] returns nothing ([undefined]) and inserts nothing: the
    events of the component and of the view are those of before, less the
    events that have an id that the candidate had when the hook called its
    delete callback; the signals sent are those sent before and one
    [event-delete] for each of these calls: no [event-create], no
    [event-change].  So the events are what they were when the hook does not
    call the callback, or calls it only while the id of the candidate is the
    id of no event. *)
Theorem C9_vetoed_creation_inserts_nothing (tz : Z) (Date_parse : string → JS.Date)
    (addEventsToView : list Event.t → Vuecal.t → list Event.t * Vuecal.t)
    (dateTime : Part000.DateTimeArg) (d : JS.Date)
    (eventOptions : EventOptions.t) (vuecal : Vuecal.t)
    (hook : Event.t → Vuecal.HookOutcome) :
  instantOf Date_parse dateTime = Some d →
  Vuecal.onEventCreate vuecal = Some hook →
  let outcome := hook (Part000.newEvent tz Date_parse d eventOptions vuecal).1 in
  Vuecal.verdict outcome = false →
  ∃ vuecal',
    Part000.createAnEvent tz Date_parse addEventsToView dateTime eventOptions vuecal
      = (Part000.ReturnsUndefined, vuecal')
    ∧ Vuecal.mutableEvents vuecal'
      = filter (fun e => Event._eid e ∉ deletedIds outcome) (Vuecal.mutableEvents vuecal)
    ∧ Vuecal.view_events vuecal'
      = filter (fun e => Event._eid e ∉ deletedIds outcome) (Vuecal.view_events vuecal)
    ∧ Vuecal.emitted vuecal'
      = (Vuecal.emitted vuecal
           ++ ((fun e => ("event-delete", e)) <$> Vuecal.deleteCalls outcome))%list
    ∧ ((∀ id, id ∈ deletedIds outcome → freshId id vuecal) →
       Vuecal.mutableEvents vuecal' = Vuecal.mutableEvents vuecal
       ∧ Vuecal.view_events vuecal' = Vuecal.view_events vuecal).
Proof.
  intros Hd Hhook outcome Hverdict.
  eexists. split.
  { exact (createAnEvent_vetoed tz Date_parse addEventsToView dateTime d eventOptions
             vuecal hook Hd Hhook Hverdict). }
  fold outcome.
  destruct (newEvent_collections tz Date_parse d eventOptions vuecal) as (Em & Ev & Ee).
  cbv zeta in Em, Ev, Ee.
  destruct (deleteCalls_fields (Vuecal.deleteCalls outcome)
              (Part000.newEvent tz Date_parse d eventOptions vuecal).2) as (Dm & Dv & De).
  cbv zeta in Dm, Dv, De. rewrite Dm, Dv, De, Em, Ev, Ee. unfold deletedIds.
  split; [done |]. split; [done |]. split; [done |].
  apply filter_fresh.
Qed.

Lemma C9_vetoed_creation_inserts_nothing_witness :
  ∃ vuecal',
    Part000.createAnEvent 0 (fun _ => 0) (fun events v => (events, v))
      (Part000.ADate 1572717600000) EventOptions.empty deletingView
      = (Part000.ReturnsUndefined, vuecal')
    ∧ Vuecal.mutableEvents vuecal'
      = filter (fun e => Event._eid e ∉ ["1_3"]) [meetingEvent]
    ∧ Vuecal.view_events vuecal'
      = filter (fun e => Event._eid e ∉ ["1_3"]) [meetingEvent]
    ∧ Vuecal.emitted vuecal'
      = [("event-delete",
          (Part000.newEvent 0 (fun _ => 0) 1572717600000 EventOptions.empty deletingView).1)]
    ∧ ((∀ id, id ∈ ["1_3"] → freshId id deletingView) →
       Vuecal.mutableEvents vuecal' = [meetingEvent]
       ∧ Vuecal.view_events vuecal' = [meetingEvent]).
Proof.
  exact (C9_vetoed_creation_inserts_nothing 0 (fun _ => 0) (fun events v => (events, v))
           (Part000.ADate 1572717600000) 1572717600000 EventOptions.empty deletingView
           deleteAndRename eq_refl eq_refl eq_refl).
Defined.

(** ** Arrays *)

Section Arrays.
Import JS.
Context {A : Type} `{EqDecision A}.
Implicit Types l seen : list A.

Lemma dedupe_from seen l :
  NoDup seen →
  let r := fold_left
             (fun seen x => if bool_decide (x ∈ seen) then seen else (seen ++ [x])%list)
             l seen in
  NoDup r ∧ ∀ x, x ∈ r ↔ x ∈ seen ∨ x ∈ l.
Proof.
  revert seen. induction l as [| y l IH]; intros seen Hnd; cbn [fold_left].
  - split; [done |]. intros x. rewrite elem_of_nil. tauto.
  - destruct (bool_decide_reflect (y ∈ seen)) as [Hin | Hout].
    + destruct (IH seen Hnd) as [Hr Hmem]. split; [done |].
      intros x. rewrite Hmem, elem_of_cons. split; [tauto |].
      intros [? | [-> | ?]]; tauto.
    + assert (Hnd' : NoDup (seen ++ [y])).
      { apply NoDup_app. split; [done |]. split; [| apply NoDup_singleton].
        intros x Hx ->%list_elem_of_singleton. done. }
      destruct (IH _ Hnd') as [Hr Hmem]. split; [done |].
      intros x. rewrite Hmem, elem_of_app, list_elem_of_singleton, elem_of_cons. tauto.
Qed.

Lemma NoDup_dedupe l : NoDup (dedupe l).
Proof. apply (dedupe_from [] l). constructor. Qed.

Lemma elem_of_dedupe l x : x ∈ dedupe l ↔ x ∈ l.
Proof.
  destruct (dedupe_from [] l (NoDup_nil_2)) as [_ Hmem].
  unfold dedupe. rewrite Hmem, elem_of_nil. tauto.
Qed.

Lemma dedupe_length_le l k :
  (∀ x, x ∈ l → x ∈ k) → (length (dedupe l) <= length k)%nat.
Proof.
  intros Hsub. apply submseteq_length, NoDup_submseteq; [apply NoDup_dedupe |].
  intros x Hx. apply Hsub. by apply elem_of_dedupe.
Qed.

Lemma elem_of_spliceIndexOf_1 l x y : x ∈ spliceIndexOf y l → x ∈ l.
Proof.
  induction l as [| z l IH]; cbn [spliceIndexOf]; [done |].
  destruct (bool_decide_reflect (z = y)); rewrite !elem_of_cons; [tauto |].
  intros [? | ?]; [tauto | right; by apply IH].
Qed.

Lemma NoDup_spliceIndexOf l y : NoDup l → NoDup (spliceIndexOf y l).
Proof.
  induction l as [| z l IH]; cbn [spliceIndexOf]; [done |].
  intros [Hz Hl]%NoDup_cons.
  destruct (bool_decide_reflect (z = y)); [done |].
  apply NoDup_cons. split; [| by apply IH].
  intros Hin. by apply Hz, (elem_of_spliceIndexOf_1 _ _ y).
Qed.

Lemma elem_of_spliceIndexOf l x y :
  NoDup l → x ∈ spliceIndexOf y l ↔ x ∈ l ∧ x ≠ y.
Proof.
  induction l as [| z l IH]; cbn [spliceIndexOf]; intros Hnd.
  - rewrite elem_of_nil. tauto.
  - apply NoDup_cons in Hnd as [Hz Hl].
    destruct (bool_decide_reflect (z = y)) as [-> | Hne].
    + rewrite elem_of_cons. split; [| tauto].
      intros Hx. split; [tauto |]. by intros ->.
    + rewrite !elem_of_cons, IH by done. split; [| tauto].
      intros [-> | ?]; tauto.
Qed.

Lemma findIndex_range {B} (p : B → bool) (l : list B) :
  (∃ x, x ∈ l ∧ p x = true) → 0 <= findIndex p l < Z.of_nat (length l).
Proof.
  induction l as [| y l IH]; cbn [findIndex length].
  - intros (x & Hx & _). by apply elem_of_nil in Hx.
  - intros (x & Hx & Hp). destruct (p y) eqn:Ey; [lia |].
    apply elem_of_cons in Hx as [-> | Hx]; [congruence |].
    destruct IH as [? ?]; [by eauto |].
    destruct (Z.ltb_spec (findIndex p l) 0); lia.
Qed.

Lemma sortInsert_Permutation {B} (cmp : B → B → Z) (x : B) (l : list B) :
  sortInsert cmp x l ≡ₚ x :: l.
Proof.
  induction l as [| y l IH]; cbn [sortInsert]; [done |].
  destruct (0 <? cmp x y); [| done].
  rewrite IH. apply Permutation_swap.
Qed.

Lemma sort_Permutation {B} (cmp : B → B → Z) (l : list B) : sort cmp l ≡ₚ l.
Proof.
  unfold sort. induction l as [| y l IH]; cbn [foldr]; [done |].
  by rewrite sortInsert_Permutation, IH.
Qed.
End Arrays.

(** ** Streaks *)

Section Streak.
Import JS Overlaps.
Variable cellOverlaps : gmap string Record_.

Lemma streakInner_step (id id3 : string) (removeFromStreak : list string) (r : Record_) :
  cellOverlaps !! id3 = Some r →
  streakInner cellOverlaps id (Some removeFromStreak) id3
    = Some (if bool_decide (id ∈ overlaps r) then removeFromStreak
            else (removeFromStreak ++ [id3])%list).
Proof. intros Hr. unfold streakInner. cbn [mbind option_bind]. by rewrite Hr. Qed.

Lemma streakOuter_step (event : Record_) (id : string) (removeFromStreak : list string) :
  streakOuter cellOverlaps event (Some removeFromStreak) id
    = if bool_decide (id ∈ removeFromStreak) then Some removeFromStreak
      else fold_left (streakInner cellOverlaps id)
             (filter (fun id2 => id2 ≠ id) (overlaps event)) (Some removeFromStreak).
Proof. reflexivity. Qed.

Lemma streakInner_fold (id : string) (ids removeFromStreak : list string) :
  (∀ id3, id3 ∈ ids → is_Some (cellOverlaps !! id3)) →
  ∃ removed,
    fold_left (streakInner cellOverlaps id) ids (Some removeFromStreak) = Some removed
    ∧ ∀ x, x ∈ removed → x ∈ removeFromStreak ∨ x ∈ ids.
Proof.
  revert removeFromStreak.
  induction ids as [| id3 ids IH]; intros removeFromStreak Hids; cbn [fold_left].
  - exists removeFromStreak. split; [done | tauto].
  - destruct (Hids id3) as [r Hr]; [left |].
    rewrite (streakInner_step _ _ _ _ Hr).
    destruct (IH (if bool_decide (id ∈ overlaps r) then removeFromStreak
                  else (removeFromStreak ++ [id3])%list)) as (removed & E & Hsub).
    { intros ? ?. apply Hids. by right. }
    exists removed. split; [done |]. intros x Hx. apply Hsub in Hx.
    rewrite elem_of_cons. destruct (bool_decide (id ∈ overlaps r)); [tauto |].
    rewrite elem_of_app, list_elem_of_singleton in Hx. tauto.
Qed.

Lemma streakOuter_fold (event : Record_) (ids removeFromStreak : list string) :
  (∀ id, id ∈ overlaps event → is_Some (cellOverlaps !! id)) →
  (∀ x, x ∈ removeFromStreak → x ∈ overlaps event) →
  ∃ removed,
    fold_left (streakOuter cellOverlaps event) ids (Some removeFromStreak) = Some removed
    ∧ ∀ x, x ∈ removed → x ∈ overlaps event.
Proof.
  intros Hpresent. revert removeFromStreak.
  induction ids as [| id ids IH]; intros removeFromStreak Hsub; cbn [fold_left].
  - by exists removeFromStreak.
  - rewrite streakOuter_step.
    destruct (bool_decide (id ∈ removeFromStreak)); [by apply IH |].
    destruct (streakInner_fold id (filter (fun id2 => id2 ≠ id) (overlaps event))
                removeFromStreak) as (removed & -> & Hremoved).
    { intros id3 [_ ?]%list_elem_of_filter. by apply Hpresent. }
    apply IH. intros x [? | [_ ?]%list_elem_of_filter]%Hremoved; auto.
Qed.

Lemma getOverlapsStreak_range (event : Record_) :
  (∀ id, id ∈ overlaps event → is_Some (cellOverlaps !! id)) →
  ∃ streak,
    getOverlapsStreak event cellOverlaps = Some streak
    ∧ 1 <= streak <= Z.of_nat (length (overlaps event)) + 1.
Proof.
  intros Hpresent. unfold getOverlapsStreak.
  destruct (streakOuter_fold event (overlaps event) []) as (removed & -> & Hsub);
    [done | by intros x ?%elem_of_nil |].
  cbn [mbind option_bind]. eexists. split; [reflexivity |].
  pose proof (dedupe_length_le removed (overlaps event) Hsub). lia.
Qed.
End Streak.

(** C5. For a record whose overlaps all have an entry in the table,
    [getOverlapsStreak] returns a streak between 1 and the number of overlaps
    plus 1. *)
Theorem C5_streak_between_1_and_overlaps_plus_1
    (event : Overlaps.Record_) (cellOverlaps : gmap string Overlaps.Record_) :
  (∀ id, id ∈ Overlaps.overlaps event → is_Some (cellOverlaps !! id)) →
  ∃ streak,
    Part000.getOverlapsStreak event cellOverlaps = Some streak
    ∧ 1 <= streak <= Z.of_nat (length (Overlaps.overlaps event)) + 1.
Proof. exact (getOverlapsStreak_range cellOverlaps event). Qed.

Lemma C5_streak_between_1_and_overlaps_plus_1_witness :
  ∃ streak,
    Part000.getOverlapsStreak (Overlaps.mk ["2"; "3"] "2019-11-02 09:00" 0) threeOverlaps
      = Some streak
    ∧ 1 <= streak <= 3.
Proof.
  apply (C5_streak_between_1_and_overlaps_plus_1
           (Overlaps.mk ["2"; "3"] "2019-11-02 09:00" 0) threeOverlaps).
  intros id Hid. cbn [Overlaps.overlaps] in Hid.
  apply elem_of_cons in Hid as [-> | Hid]; [eexists; reflexivity |].
  apply list_elem_of_singleton in Hid as ->. eexists; reflexivity.
Defined.

(** ** The table of overlaps *)

Section Table.
Import JS Overlaps.

Lemma bind_Some {A B} (x : A) (f : A → option B) : Some x ≫= f = f x.
Proof. reflexivity. Qed.

Lemma overlapsOf_is_Some (cellOverlaps : gmap string Record_) (i : string) :
  is_Some (overlapsOf cellOverlaps i) ↔ is_Some (cellOverlaps !! i).
Proof. unfold overlapsOf. by rewrite fmap_is_Some. Qed.

Lemma overlapsOf_alter_overlaps (g : list string → list string) (k : string)
    (cellOverlaps : gmap string Record_) (i : string) :
  overlapsOf (alter (fun r => set_overlaps (g (overlaps r)) r) k cellOverlaps) i
    = (fun l => if decide (k = i) then g l else l) <$> overlapsOf cellOverlaps i.
Proof.
  unfold overlapsOf. rewrite lookup_alter.
  case_decide as E; [subst k |]; by destruct (cellOverlaps !! i).
Qed.

Lemma overlapsOf_alter_position (F : Record_ → Record_) (k : string)
    (cellOverlaps : gmap string Record_) (i : string) :
  (∀ r, overlaps (F r) = overlaps r) →
  overlapsOf (alter F k cellOverlaps) i = overlapsOf cellOverlaps i.
Proof.
  intros HF. unfold overlapsOf. rewrite lookup_alter.
  case_decide as E; [subst k |]; [| done].
  destruct (cellOverlaps !! i); cbn; [by rewrite HF | done].
Qed.

Lemma overlapsOf_ensure (e : Event.t) (cellOverlaps : gmap string Record_) (i : string) :
  overlapsOf (ensure e cellOverlaps) i
    = match overlapsOf cellOverlaps i with
      | Some l => Some l
      | None => if decide (Event._eid e = i) then Some [] else None
      end.
Proof.
  unfold ensure, overlapsOf.
  destruct (cellOverlaps !! Event._eid e) eqn:E.
  - destruct (cellOverlaps !! i) eqn:Ei; cbn; [done |].
    case_decide; [subst; congruence | done].
  - rewrite lookup_insert. case_decide as Ek.
    + subst i. by rewrite E.
    + by destruct (cellOverlaps !! i).
Qed.

Lemma elem_of_addTo (k x i j : string) (l : list string) :
  j ∈ addTo k x i l ↔ j ∈ l ∨ (k = i ∧ j = x).
Proof.
  unfold addTo. case_decide.
  - rewrite elem_of_dedupe, elem_of_app, list_elem_of_singleton. tauto.
  - tauto.
Qed.

Lemma NoDup_addTo (k x i : string) (l : list string) : NoDup l → NoDup (addTo k x i l).
Proof. unfold addTo. case_decide; [intros _; apply NoDup_dedupe | done]. Qed.

Lemma elem_of_removeFrom (k x i j : string) (l : list string) :
  NoDup l → j ∈ removeFrom k x i l ↔ j ∈ l ∧ ¬ (k = i ∧ j = x).
Proof.
  intros Hnd. unfold removeFrom. case_decide.
  - rewrite elem_of_spliceIndexOf by done. tauto.
  - tauto.
Qed.

Lemma NoDup_removeFrom (k x i : string) (l : list string) :
  NoDup l → NoDup (removeFrom k x i l).
Proof. unfold removeFrom. case_decide; [apply NoDup_spliceIndexOf | done]. Qed.

Section Cell.
Variable eventInRange : Event.t → Date → Date → bool.
Variable options : Options.

Lemma overlapping_participates (e e2 : Event.t) :
  overlapping eventInRange options e e2 = true → participates e ∧ participates e2.
Proof.
  unfold overlapping, participates.
  destruct (Event.background e), (Event.allDay e),
    (Event.background e2), (Event.allDay e2); cbn; intros ?; try done.
Qed.

Lemma overlapsOf_compareEvents (e e2 : Event.t) (cellOverlaps : gmap string Record_)
    (i : string) :
  overlapsOf (compareEvents eventInRange options e cellOverlaps e2) i
    = (fun l =>
         if overlapping eventInRange options e e2
         then addTo (Event._eid e2) (Event._eid e) i
                (addTo (Event._eid e) (Event._eid e2) i l)
         else removeFrom (Event._eid e2) (Event._eid e) i
                (removeFrom (Event._eid e) (Event._eid e2) i l))
        <$> overlapsOf (ensure e2 cellOverlaps) i.
Proof.
  unfold compareEvents. cbv zeta. fold (overlapping eventInRange options e e2).
  destruct (overlapping eventInRange options e e2).
  - rewrite overlapsOf_alter_position by done.
    rewrite (overlapsOf_alter_overlaps (fun l => dedupe (l ++ [Event._eid e]))).
    rewrite (overlapsOf_alter_overlaps (fun l => dedupe (l ++ [Event._eid e2]))).
    by destruct (overlapsOf (ensure e2 cellOverlaps) i).
  - rewrite overlapsOf_alter_position by done.
    rewrite (overlapsOf_alter_overlaps (spliceIndexOf (Event._eid e))).
    rewrite (overlapsOf_alter_overlaps (spliceIndexOf (Event._eid e2))).
    by destruct (overlapsOf (ensure e2 cellOverlaps) i).
Qed.

Lemma related_compareEvents (e e2 : Event.t) (cellOverlaps : gmap string Record_)
    (i j : string) :
  (∀ i l, overlapsOf (ensure e2 cellOverlaps) i = Some l → NoDup l) →
  related (compareEvents eventInRange options e cellOverlaps e2) i j
  ↔ ∃ l0, overlapsOf (ensure e2 cellOverlaps) i = Some l0
          ∧ if overlapping eventInRange options e e2
            then j ∈ l0 ∨ (Event._eid e = i ∧ j = Event._eid e2)
                 ∨ (Event._eid e2 = i ∧ j = Event._eid e)
            else j ∈ l0 ∧ ¬ (Event._eid e = i ∧ j = Event._eid e2)
                 ∧ ¬ (Event._eid e2 = i ∧ j = Event._eid e).
Proof.
  intros Hnd. unfold related. setoid_rewrite overlapsOf_compareEvents.
  destruct (overlapsOf (ensure e2 cellOverlaps) i) as [l0 |] eqn:E; cbn.
  - specialize (Hnd i l0 E). split.
    + intros (l & [= <-] & Hj). exists l0. split; [done |].
      destruct (overlapping eventInRange options e e2).
      * rewrite !elem_of_addTo in Hj. tauto.
      * rewrite !elem_of_removeFrom in Hj by auto using NoDup_removeFrom. tauto.
    + intros (l & [= <-] & Hj). eexists. split; [reflexivity |].
      destruct (overlapping eventInRange options e e2).
      * rewrite !elem_of_addTo. tauto.
      * rewrite !elem_of_removeFrom by auto using NoDup_removeFrom. tauto.
  - split; intros (l & ? & _); done.
Qed.

(** *** The invariant of the two loops

    Overlaps have no duplicates; who is among the overlaps of an id has an
    entry, with that id among its overlaps; and both ids are [active]. *)
Variable active : string → Prop.

Lemma tableInv_empty : tableInv active ∅.
Proof.
  unfold tableInv, related, overlapsOf.
  split; [| split]; intros *; rewrite ?lookup_empty; cbn; try done;
    intros (l & ? & _); done.
Qed.

Lemma related_ensure (e : Event.t) (cellOverlaps : gmap string Record_) (i j : string) :
  related (ensure e cellOverlaps) i j ↔ related cellOverlaps i j.
Proof.
  unfold related. rewrite overlapsOf_ensure.
  destruct (overlapsOf cellOverlaps i) as [l0 |]; [done |].
  split.
  - intros (l & E & Hj). case_decide; [| done].
    injection E as <-. by apply elem_of_nil in Hj.
  - intros (l & ? & _). done.
Qed.

Lemma tableInv_ensure (e : Event.t) (cellOverlaps : gmap string Record_) :
  tableInv active cellOverlaps → tableInv active (ensure e cellOverlaps).
Proof.
  intros (Hnd & Hsym & Hact). split; [| split].
  - intros i l. rewrite overlapsOf_ensure.
    destruct (overlapsOf cellOverlaps i) as [l0 |] eqn:E.
    + intros [= <-]. by apply (Hnd i).
    + case_decide; [| done]. intros [= <-]. constructor.
  - intros i j. rewrite !related_ensure. apply Hsym.
  - intros i j. rewrite !related_ensure. apply Hact.
Qed.

Lemma ensure_is_Some (e : Event.t) (cellOverlaps : gmap string Record_) (i : string) :
  is_Some (ensure e cellOverlaps !! i)
  ↔ is_Some (cellOverlaps !! i) ∨ i = Event._eid e.
Proof.
  rewrite <- !overlapsOf_is_Some, overlapsOf_ensure.
  destruct (overlapsOf cellOverlaps i) as [l |].
  - split; [left | ]; by eauto.
  - case_decide as E.
    + split; [by right | by eauto].
    + split; [intros [? ?]; done | intros [[? ?] | ->]; done].
Qed.

Lemma compareEvents_is_Some (e e2 : Event.t) (cellOverlaps : gmap string Record_)
    (i : string) :
  is_Some (compareEvents eventInRange options e cellOverlaps e2 !! i)
  ↔ is_Some (cellOverlaps !! i) ∨ i = Event._eid e2.
Proof.
  rewrite <- ensure_is_Some, <- !overlapsOf_is_Some, overlapsOf_compareEvents.
  by rewrite fmap_is_Some.
Qed.

Lemma tableInv_compareEvents (e e2 : Event.t) (cellOverlaps : gmap string Record_) :
  tableInv active cellOverlaps →
  is_Some (cellOverlaps !! Event._eid e) →
  (overlapping eventInRange options e e2 = true → active (Event._eid e) ∧ active (Event._eid e2)) →
  tableInv active (compareEvents eventInRange options e cellOverlaps e2).
Proof.
  intros Hinv Ha Hact.
  pose proof (tableInv_ensure e2 _ Hinv) as (Hnd0 & Hsym0 & Hact0).
  assert (Ha0 : is_Some (overlapsOf (ensure e2 cellOverlaps) (Event._eid e))).
  { apply overlapsOf_is_Some, ensure_is_Some. by left. }
  assert (Hb0 : is_Some (overlapsOf (ensure e2 cellOverlaps) (Event._eid e2))).
  { apply overlapsOf_is_Some, ensure_is_Some. by right. }
  split; [| split].
  - intros i l. rewrite overlapsOf_compareEvents.
    destruct (overlapsOf (ensure e2 cellOverlaps) i) as [l0 |] eqn:E; [| done].
    cbn. intros [= <-]. specialize (Hnd0 i l0 E).
    destruct (overlapping eventInRange options e e2);
      auto using NoDup_addTo, NoDup_removeFrom.
  - intros i j. rewrite !related_compareEvents by done.
    intros (l0 & E & Hj). destruct (overlapping eventInRange options e e2).
    + destruct Hj as [Hj | [[<- ->] | [<- ->]]].
      * destruct (Hsym0 i j) as (l' & E' & Hi); [by exists l0 |].
        exists l'. split; [done | by left].
      * destruct Hb0 as [lb Eb]. exists lb. split; [done |]. right. right. done.
      * destruct Ha0 as [la Ea]. exists la. split; [done |]. right. left. done.
    + destruct Hj as (Hj & Hn1 & Hn2).
      destruct (Hsym0 i j) as (l' & E' & Hi); [by exists l0 |].
      exists l'. split; [done |]. split; [done |].
      split; intros [? ?]; [apply Hn2 | apply Hn1]; split; congruence.
  - intros i j. rewrite related_compareEvents by done.
    intros (l0 & E & Hj). destruct (overlapping eventInRange options e e2).
    + destruct Hj as [Hj | [[<- ->] | [<- ->]]]; [| tauto ..].
      apply Hact0. by exists l0.
    + apply Hact0. exists l0. tauto.
Qed.

Lemma tableInv_same_overlaps (cellOverlaps cellOverlaps' : gmap string Record_) :
  (∀ i, overlapsOf cellOverlaps' i = overlapsOf cellOverlaps i) →
  tableInv active cellOverlaps → tableInv active cellOverlaps'.
Proof.
  intros Hsame (Hnd & Hsym & Hact). unfold tableInv, related.
  setoid_rewrite Hsame. done.
Qed.

Lemma tableInv_compareEvents_fold (e : Event.t) (comparisonArray : list Event.t)
    (cellOverlaps : gmap string Record_) :
  tableInv active cellOverlaps →
  is_Some (cellOverlaps !! Event._eid e) →
  (participates e → active (Event._eid e)) →
  Forall (fun e2 => participates e2 → active (Event._eid e2)) comparisonArray →
  let cellOverlaps' :=
    fold_left (compareEvents eventInRange options e) comparisonArray cellOverlaps in
  tableInv active cellOverlaps'
  ∧ ∀ i, is_Some (cellOverlaps' !! i)
         ↔ is_Some (cellOverlaps !! i) ∨ i ∈ Event._eid <$> comparisonArray.
Proof.
  intros Hinv Ha Hacte Hrest. cbv zeta. revert cellOverlaps Hinv Ha.
  induction Hrest as [| e2 rest He2 Hrest IH]; intros cellOverlaps Hinv Ha;
    cbn [fold_left].
  - split; [done |]. intros i. rewrite fmap_nil, elem_of_nil. tauto.
  - destruct (IH (compareEvents eventInRange options e cellOverlaps e2)) as [Hinv' Hkeys].
    + apply tableInv_compareEvents; [done .. |].
      intros [? ?]%overlapping_participates. auto.
    + apply compareEvents_is_Some. by left.
    + split; [done |]. intros i.
      rewrite Hkeys, compareEvents_is_Some, fmap_cons, elem_of_cons. tauto.
Qed.

Lemma tableInv_compareAll (cellEvents : list Event.t)
    (cellOverlaps : gmap string Record_) :
  Forall (fun e => participates e → active (Event._eid e)) cellEvents →
  tableInv active cellOverlaps →
  tableInv active (compareAll eventInRange options cellEvents cellOverlaps)
  ∧ ∀ i, is_Some (compareAll eventInRange options cellEvents cellOverlaps !! i)
         ↔ is_Some (cellOverlaps !! i) ∨ i ∈ Event._eid <$> cellEvents.
Proof.
  intros Hact. revert cellOverlaps.
  induction Hact as [| e rest He Hrest IH]; intros cellOverlaps Hinv; cbn [compareAll].
  - split; [done |]. intros i. rewrite fmap_nil, elem_of_nil. tauto.
  - set (first := alter (set_position 0) (Event._eid e) (ensure e cellOverlaps)).
    assert (Hfirst : tableInv active first).
    { apply (tableInv_same_overlaps (ensure e cellOverlaps)).
      - intros i. by apply overlapsOf_alter_position.
      - by apply tableInv_ensure. }
    assert (Hkeys1 : ∀ i, is_Some (first !! i)
                          ↔ is_Some (cellOverlaps !! i) ∨ i = Event._eid e).
    { intros i. rewrite <- ensure_is_Some, <- !overlapsOf_is_Some.
      unfold first. by rewrite overlapsOf_alter_position. }
    destruct (tableInv_compareEvents_fold e rest first) as [Hinv2 Hkeys2];
      [done | apply Hkeys1; by right | done | done |].
    destruct (IH _ Hinv2) as [Hinv3 Hkeys3].
    split; [done |]. intros i.
    rewrite Hkeys3, Hkeys2, Hkeys1, fmap_cons, elem_of_cons. tauto.
Qed.

(** *** The last loop *)

Lemma tableInv_closed (cellOverlaps : gmap string Record_) :
  tableInv active cellOverlaps → closed cellOverlaps.
Proof.
  intros (_ & Hsym & _) i j Hij. destruct (Hsym i j Hij) as (l & E & _).
  apply overlapsOf_is_Some. by rewrite E.
Qed.

Lemma positionStep_position (cellOverlaps : gmap string Record_) (longestStreak : Z)
    (id : string) (item : Record_) :
  closed cellOverlaps →
  cellOverlaps !! id = Some item →
  ∃ overlapsRow p streak,
    mapM (fun id2 => (fun r => (id2, start r)) <$> cellOverlaps !! id2) (overlaps item)
      = Some overlapsRow
    ∧ p = findIndex (fun e : string * string => bool_decide (e.1 = id))
            (sort compareRow (overlapsRow ++ [(id, start item)]))
    ∧ positionStep (Some (cellOverlaps, longestStreak)) id
      = Some (<[ id := set_position p item ]> cellOverlaps, Z.max streak longestStreak)
    ∧ 0 <= p <= Z.of_nat (length (overlaps item)).
Proof.
  intros Hclosed Hitem. unfold positionStep.
  rewrite !bind_Some, Hitem, bind_Some.
  destruct (mapM (fun id2 => (fun r => (id2, start r)) <$> cellOverlaps !! id2)
              (overlaps item)) as [overlapsRow |] eqn:Erow.
  2:{ apply mapM_None in Erow. apply Exists_exists in Erow as (j & Hj & Enone).
      destruct (Hclosed id j) as [r Hr].
      - exists (overlaps item). unfold overlapsOf. by rewrite Hitem.
      - by rewrite Hr in Enone. }
  rewrite bind_Some. cbv zeta.
  set (row := sort compareRow (overlapsRow ++ [(id, start item)])).
  set (p := findIndex (fun e : string * string => bool_decide (e.1 = id)) row).
  assert (Hlen : length row = S (length (overlaps item))).
  { unfold row. rewrite sort_Permutation, length_app. cbn [length].
    apply mapM_Some in Erow. apply Forall2_length in Erow. lia. }
  assert (Hp : 0 <= p < Z.of_nat (length row)).
  { apply findIndex_range. exists (id, start item). split.
    - unfold row. rewrite sort_Permutation, elem_of_app, list_elem_of_singleton. by right.
    - by apply bool_decide_eq_true. }
  destruct (getOverlapsStreak_range
              (<[ id := set_position p item ]> cellOverlaps) (set_position p item))
    as (streak & -> & _).
  { intros j Hj. cbn [overlaps set_position] in Hj.
    apply lookup_insert_is_Some'. right. apply (Hclosed id j).
    exists (overlaps item). unfold overlapsOf. by rewrite Hitem. }
  rewrite bind_Some. exists overlapsRow, p, streak.
  split; [done |]. split; [done |]. split; [done | lia].
Qed.

Lemma samePairs_insert (cellOverlaps : gmap string Record_) (id : string)
    (item : Record_) (p : Z) :
  cellOverlaps !! id = Some item →
  samePairs (<[ id := set_position p item ]> cellOverlaps) cellOverlaps.
Proof.
  intros Hitem i. unfold overlapsOf. rewrite lookup_insert.
  case_decide; [subst; by rewrite Hitem | done].
Qed.

Lemma closed_samePairs (cellOverlaps' cellOverlaps : gmap string Record_) :
  samePairs cellOverlaps' cellOverlaps → closed cellOverlaps → closed cellOverlaps'.
Proof.
  intros Hsame Hclosed i j (l & E & Hj).
  apply overlapsOf_is_Some. rewrite Hsame. apply overlapsOf_is_Some.
  apply (Hclosed i j). exists l. by rewrite <- Hsame.
Qed.

Lemma positionStep_fold (ids placed : list string)
    (cellOverlaps : gmap string Record_) (longestStreak : Z) :
  closed cellOverlaps →
  (∀ id, id ∈ ids → is_Some (cellOverlaps !! id)) →
  positioned placed cellOverlaps →
  ∃ cellOverlaps' longestStreak',
    fold_left positionStep ids (Some (cellOverlaps, longestStreak))
      = Some (cellOverlaps', longestStreak')
    ∧ samePairs cellOverlaps' cellOverlaps
    ∧ positioned (placed ++ ids) cellOverlaps'.
Proof.
  revert placed cellOverlaps longestStreak.
  induction ids as [| id ids IH]; intros placed cellOverlaps longestStreak
    Hclosed Hids Hplaced; cbn [fold_left].
  - exists cellOverlaps, longestStreak. split; [done |]. split; [done |].
    by rewrite app_nil_r.
  - destruct (Hids id) as [item Hitem]; [left |].
    destruct (positionStep_position cellOverlaps longestStreak id item Hclosed Hitem)
      as (overlapsRow & p & streak & _ & _ & -> & Hp).
    pose proof (samePairs_insert cellOverlaps id item p Hitem) as Hsame1.
    destruct (IH (placed ++ [id]) (<[ id := set_position p item ]> cellOverlaps)
                (Z.max streak longestStreak))
      as (cellOverlaps' & longestStreak' & E & Hsame & Hpos).
    + by apply (closed_samePairs _ cellOverlaps).
    + intros id' Hid'. apply lookup_insert_is_Some'. right. apply Hids. by right.
    + intros i r Hi Hr. rewrite lookup_insert in Hr. case_decide as Ei.
      * injection Hr as <-. cbn [position overlaps set_position]. lia.
      * apply elem_of_app in Hi as [Hi | Hi%list_elem_of_singleton]; [| congruence].
        by apply (Hplaced i).
    + exists cellOverlaps', longestStreak'. split; [done |]. split.
      * intros i. by rewrite Hsame, Hsame1.
      * by rewrite <- app_assoc in Hpos.
Qed.

(** [checkCellOverlappingEvents] returns a table; the ids of the table are
    the ids of the events, the table has the invariant of the loops, and
    every position is a column of the row of its entry. *)
Lemma checkCellOverlappingEvents_table (cellEvents : list Event.t) :
  Forall (fun e => participates e → active (Event._eid e)) cellEvents →
  ∃ cellOverlaps longestStreak,
    checkCellOverlappingEvents eventInRange options cellEvents
      = Some (cellOverlaps, longestStreak)
    ∧ tableInv active cellOverlaps
    ∧ (∀ i, is_Some (cellOverlaps !! i) ↔ i ∈ Event._eid <$> cellEvents)
    ∧ ∀ i r, cellOverlaps !! i = Some r →
             0 <= position r <= Z.of_nat (length (overlaps r)).
Proof.
  intros Hact. unfold checkCellOverlappingEvents. cbv zeta.
  destruct (tableInv_compareAll cellEvents ∅ Hact tableInv_empty) as [Hinv Hkeys].
  set (compared := compareAll eventInRange options cellEvents ∅) in *.
  destruct (positionStep_fold (map_to_list compared).*1 [] compared 0)
    as (cellOverlaps & longestStreak & E & Hsame & Hpos).
  - by apply tableInv_closed.
  - intros id ((i & r) & -> & Hir%elem_of_map_to_list)%list_elem_of_fmap. by exists r.
  - intros i r Hi. by apply elem_of_nil in Hi.
  - exists cellOverlaps, longestStreak. split; [done |]. split; [| split].
    + by apply (tableInv_same_overlaps compared).
    + intros i. rewrite <- overlapsOf_is_Some, Hsame, overlapsOf_is_Some, Hkeys.
      rewrite lookup_empty. split; [intros [[? ?] | ?]; done | by right].
    + intros i r Hr. apply (Hpos i r); [| done]. cbn [app].
      assert (is_Some (compared !! i)) as [r0 Hr0].
      { apply overlapsOf_is_Some. rewrite <- Hsame. apply overlapsOf_is_Some. by exists r. }
      apply list_elem_of_fmap. exists (i, r0). split; [done |].
      by apply elem_of_map_to_list.
Qed.
End Cell.
End Table.

(** ** The claims on [checkCellOverlappingEvents] *)

Section CellClaims.
Import Overlaps.
Variable eventInRange : Event.t → JS.Date → JS.Date → bool.
Variable options : Options.

Lemma activeIn_Forall (cellEvents : list Event.t) :
  Forall (fun e => participates e → activeIn cellEvents (Event._eid e)) cellEvents.
Proof. apply Forall_forall. intros e He Hp. by exists e. Qed.

Lemma overlaps_symmetric (cellEvents : list Event.t) :
  ∃ cellOverlaps longestStreak,
    checkCellOverlappingEvents eventInRange options cellEvents
      = Some (cellOverlaps, longestStreak)
    ∧ ∀ i j ri rj,
        cellOverlaps !! i = Some ri → cellOverlaps !! j = Some rj →
        (j ∈ overlaps ri ↔ i ∈ overlaps rj).
Proof.
  destruct (checkCellOverlappingEvents_table eventInRange options
              (activeIn cellEvents) cellEvents (activeIn_Forall cellEvents))
    as (cellOverlaps & longestStreak & E & (_ & Hsym & _) & _).
  exists cellOverlaps, longestStreak. split; [done |].
  assert (Hhalf : ∀ i j ri rj,
             cellOverlaps !! i = Some ri → cellOverlaps !! j = Some rj →
             j ∈ overlaps ri → i ∈ overlaps rj).
  { intros i j ri rj Hi Hj Hin.
    destruct (Hsym i j) as (l & El & Hl).
    - exists (overlaps ri). unfold overlapsOf. by rewrite Hi.
    - unfold overlapsOf in El. rewrite Hj in El. by injection El as <-. }
  intros i j ri rj Hi Hj. split; by eauto.
Qed.

Lemma NoDup_fmap_eq {A B} (f : A → B) (l : list A) (x y : A) :
  NoDup (f <$> l) → x ∈ l → y ∈ l → f x = f y → x = y.
Proof.
  induction l as [| z l IH]; [by intros _ ?%elem_of_nil |].
  rewrite fmap_cons. intros [Hz Hl]%NoDup_cons [-> | Hx]%elem_of_cons [-> | Hy]%elem_of_cons E;
    [done | | | by apply IH].
  - destruct Hz. rewrite E. by apply list_elem_of_fmap_2.
  - destruct Hz. rewrite <- E. by apply list_elem_of_fmap_2.
Qed.

Lemma background_has_no_overlaps (cellEvents : list Event.t) (e : Event.t) :
  NoDup (Event._eid <$> cellEvents) →
  e ∈ cellEvents →
  Event.background e = true ∨ Event.allDay e = true →
  ∃ cellOverlaps longestStreak,
    checkCellOverlappingEvents eventInRange options cellEvents
      = Some (cellOverlaps, longestStreak)
    ∧ ∃ r, cellOverlaps !! Event._eid e = Some r
           ∧ overlaps r = []
           ∧ ∀ j rj, cellOverlaps !! j = Some rj → Event._eid e ∉ overlaps rj.
Proof.
  intros Hids He Hflag.
  destruct (checkCellOverlappingEvents_table eventInRange options
              (activeIn cellEvents) cellEvents (activeIn_Forall cellEvents))
    as (cellOverlaps & longestStreak & E & (_ & _ & Hact) & Hkeys & _).
  exists cellOverlaps, longestStreak. split; [done |].
  assert (Hidle : ¬ activeIn cellEvents (Event._eid e)).
  { intros (e' & He' & Eid & Hb & Ha).
    assert (e' = e) as -> by (by apply (NoDup_fmap_eq Event._eid cellEvents)).
    destruct Hflag; congruence. }
  destruct (proj2 (Hkeys (Event._eid e))) as [r Hr]; [by apply list_elem_of_fmap_2 |].
  exists r. split; [done |]. split.
  - apply elem_of_nil_inv. intros j Hj. apply Hidle.
    apply (Hact (Event._eid e) j). exists (overlaps r). unfold overlapsOf. by rewrite Hr.
  - intros j rj Hrj Hin. apply Hidle.
    apply (Hact j (Event._eid e)). exists (overlaps rj). unfold overlapsOf. by rewrite Hrj.
Qed.

Lemma positions_are_columns (cellEvents : list Event.t) :
  ∃ cellOverlaps longestStreak,
    checkCellOverlappingEvents eventInRange options cellEvents
      = Some (cellOverlaps, longestStreak)
    ∧ ∀ i r, cellOverlaps !! i = Some r →
             0 <= position r <= Z.of_nat (length (overlaps r)).
Proof.
  destruct (checkCellOverlappingEvents_table eventInRange options
              (activeIn cellEvents) cellEvents (activeIn_Forall cellEvents))
    as (cellOverlaps & longestStreak & E & _ & _ & Hpos).
  by exists cellOverlaps, longestStreak.
Qed.
End CellClaims.

(** C3. The table that [checkCellOverlappingEvents] returns is symmetric:
    for two ids [i] and [j] of the table, [j] is among the overlaps of [i]
    if and only if [i] is among the overlaps of [j]. *)
Theorem C3_overlap_table_symmetric (tz : Z) (cellEvents : list Event.t)
    (options : Overlaps.Options) :
  ∃ cellOverlaps longestStreak,
    Part000.checkCellOverlappingEvents tz cellEvents options
      = Some (cellOverlaps, longestStreak)
    ∧ ∀ i j ri rj,
        cellOverlaps !! i = Some ri → cellOverlaps !! j = Some rj →
        (j ∈ Overlaps.overlaps ri ↔ i ∈ Overlaps.overlaps rj).
Proof. exact (overlaps_symmetric (Part000.eventInRange tz) options cellEvents). Qed.

(** C4. In a cell whose events have different ids, an event that is
    background or all-day has an entry in the table, the overlaps of that
    entry are empty, and its id is among the overlaps of no entry; in both
    revisions. *)
Theorem C4_background_and_allDay_do_not_overlap (tz : Z) (cellEvents : list Event.t)
    (options : Overlaps.Options) (e : Event.t) :
  NoDup (Event._eid <$> cellEvents) →
  e ∈ cellEvents →
  Event.background e = true ∨ Event.allDay e = true →
  (∃ cellOverlaps longestStreak,
     Part000.checkCellOverlappingEvents tz cellEvents options
       = Some (cellOverlaps, longestStreak)
     ∧ ∃ r, cellOverlaps !! Event._eid e = Some r
            ∧ Overlaps.overlaps r = []
            ∧ ∀ j rj, cellOverlaps !! j = Some rj → Event._eid e ∉ Overlaps.overlaps rj)
  ∧ (∃ cellOverlaps longestStreak,
       EventUtils.checkCellOverlappingEvents tz cellEvents options
         = Some (cellOverlaps, longestStreak)
       ∧ ∃ r, cellOverlaps !! Event._eid e = Some r
              ∧ Overlaps.overlaps r = []
              ∧ ∀ j rj, cellOverlaps !! j = Some rj → Event._eid e ∉ Overlaps.overlaps rj).
Proof.
  intros Hids He Hflag. split.
  - exact (background_has_no_overlaps (Part000.eventInRange tz) options cellEvents e
             Hids He Hflag).
  - exact (background_has_no_overlaps (EventUtils.eventInRange tz) options cellEvents e
             Hids He Hflag).
Qed.

(** C10. Every entry of the table that [checkCellOverlappingEvents] returns
    has a position between 0 and the number of its overlaps: the last loop
    sets it to the index of the id of the entry in the sorted row of its
    overlaps and itself ([positionStep_position]); in both revisions. *)
Theorem C10_position_is_a_column_of_the_row (tz : Z) (cellEvents : list Event.t)
    (options : Overlaps.Options) :
  (∃ cellOverlaps longestStreak,
     Part000.checkCellOverlappingEvents tz cellEvents options
       = Some (cellOverlaps, longestStreak)
     ∧ ∀ i r, cellOverlaps !! i = Some r →
              0 <= Overlaps.position r <= Z.of_nat (length (Overlaps.overlaps r)))
  ∧ (∃ cellOverlaps longestStreak,
       EventUtils.checkCellOverlappingEvents tz cellEvents options
         = Some (cellOverlaps, longestStreak)
       ∧ ∀ i r, cellOverlaps !! i = Some r →
                0 <= Overlaps.position r <= Z.of_nat (length (Overlaps.overlaps r))).
Proof.
  split.
  - exact (positions_are_columns (Part000.eventInRange tz) options cellEvents).
  - exact (positions_are_columns (EventUtils.eventInRange tz) options cellEvents).
Qed.

(** ** The loops end *)

Section LoopsEnd.
Import JS DateUtils.
Variable tz : Z.

Lemma day_fromLocal_midnight (n : Z) : day tz (fromLocal tz (n * msPerDay)) = n.
Proof.
  unfold day, localTime, fromLocal.
  replace (n * msPerDay + tz * msPerMinute - tz * msPerMinute) with (n * msPerDay) by lia.
  apply Z.div_mul. unfold msPerDay. lia.
Qed.

Lemma day_next_midnight (d : Date) :
  day tz (setHours4 tz (addDays tz d 1) 0 0 0 0) = day tz d + 1.
Proof.
  rewrite addDays_time. unfold setHours4. rewrite day_plus_days.
  replace ((day tz d + 1) * msPerDay + 0 * msPerHour + 0 * msPerMinute
           + 0 * msPerSecond + 0)
    with ((day tz d + 1) * msPerDay) by lia.
  apply day_fromLocal_midnight.
Qed.

Lemma createEventSegments_body_timestamp (e : Event.t) (end_ : Z)
    (st : Part000.SegmentsLoop) :
  Part000.timestamp (Part000.createEventSegments_body tz e end_ st)
    = setHours4 tz (addDays tz (Part000.timestamp st) 1) 0 0 0 0.
Proof. unfold Part000.createEventSegments_body. by destruct (Event.repeat e). Qed.

Lemma createEventSegments_loop_ends (fuel : nat) (e : Event.t) (end_ : Z)
    (st : Part000.SegmentsLoop) :
  day tz end_ - day tz (Part000.timestamp st) + 1 <= Z.of_nat fuel →
  is_Some (Part000.createEventSegments_loop tz fuel e end_ st).
Proof.
  revert st. induction fuel as [| fuel IH]; intros st Hfuel;
    cbn [Part000.createEventSegments_loop];
    destruct (Z.leb_spec (Part000.timestamp st) end_) as [Hle | ?]; try by eauto.
  - apply (day_mono tz) in Hle. lia.
  - apply IH. rewrite createEventSegments_body_timestamp, day_next_midnight. lia.
Qed.

Lemma days_between (a b : Z) : day tz b - day tz a <= (b - a) / msPerDay + 1.
Proof.
  unfold day, localTime, msPerDay, msPerMinute.
  pose proof (Z.div_mod (b - tz * 60000) 86400000).
  pose proof (Z.mod_pos_bound (b - tz * 60000) 86400000).
  pose proof (Z.div_mod (a - tz * 60000) 86400000).
  pose proof (Z.mod_pos_bound (a - tz * 60000) 86400000).
  pose proof (Z.div_mod (b - a) 86400000).
  pose proof (Z.mod_pos_bound (b - a) 86400000). lia.
Qed.

(** [createEventSegments] returns: the turns that it allows to its loop are
    enough. *)
Lemma createEventSegments_returns (e : Event.t) (viewStartDate viewEndDate : Date) :
  is_Some (Part000.createEventSegments tz e viewStartDate viewEndDate).
Proof.
  unfold Part000.createEventSegments. cbv zeta.
  match goal with
  | |- context [let '(timestamp, end_) := ?p in _] => destruct p as [timestamp end_]
  end.
  destruct (createEventSegments_loop_ends
              (Part000.createEventSegments_fuel timestamp end_) e end_
              (Part000.mkLoop timestamp
                 (getTime (Event.startDate e))
                 (if (getHours tz (Event.endDate e) =? 0)
                     && (getMinutes tz (Event.endDate e) =? 0)
                  then getTime (Event.endDate e) - 1000
                  else getTime (Event.endDate e))
                 None false ∅)) as [st ->]; [| by eauto].
  cbn [Part000.timestamp]. unfold Part000.createEventSegments_fuel.
  pose proof (days_between timestamp end_). lia.
Qed.

Lemma recurringEventInRange_loop_ends (fuel : nat) (event : Event.t) (r : Repeat.t)
    (endTimestamp : Z) (tmpDate : Date) :
  (endTimestamp - tmpDate) / msPerDay + 1 <= Z.of_nat fuel →
  is_Some (EventUtils.recurringEventInRange_loop tz fuel event r endTimestamp tmpDate).
Proof.
  revert tmpDate. induction fuel as [| fuel IH]; intros tmpDate Hfuel;
    cbn [EventUtils.recurringEventInRange_loop]; unfold getTime;
    destruct (Z.ltb_spec tmpDate endTimestamp) as [Hlt | ?]; try by eauto.
  - assert (0 <= (endTimestamp - tmpDate) / msPerDay)
      by (apply Z.div_pos; unfold msPerDay; lia).
    lia.
  - cbv zeta.
    match goal with |- context [if ?c then Some true else _] => destruct c end;
      [by eauto |].
    apply IH. rewrite addDays_time.
    replace (endTimestamp - (tmpDate + 1 * msPerDay))
      with (endTimestamp - tmpDate + (-1) * msPerDay) by lia.
    rewrite Z.div_add by (unfold msPerDay; lia). lia.
Qed.
End LoopsEnd.

(** ** Witnesses *)

Lemma C4_background_and_allDay_do_not_overlap_witness :
  NoDup (Event._eid <$> [backgroundEvent; meetingEvent; earlyEvent])
  ∧ backgroundEvent ∈ [backgroundEvent; meetingEvent; earlyEvent]
  ∧ (Event.background backgroundEvent = true ∨ Event.allDay backgroundEvent = true)
  ∧ ∃ cellOverlaps longestStreak,
      Part000.checkCellOverlappingEvents 0 [backgroundEvent; meetingEvent; earlyEvent]
        (Overlaps.mkOptions false 30) = Some (cellOverlaps, longestStreak)
      ∧ ∃ r, cellOverlaps !! "1_4" = Some r ∧ Overlaps.overlaps r = [].
Proof.
  assert (H1 : NoDup (Event._eid <$> [backgroundEvent; meetingEvent; earlyEvent]))
    by (apply (bool_decide_unpack _); vm_compute; exact I).
  assert (H2 : backgroundEvent ∈ [backgroundEvent; meetingEvent; earlyEvent])
    by (apply elem_of_cons; left; reflexivity).
  assert (H3 : Event.background backgroundEvent = true
               ∨ Event.allDay backgroundEvent = true)
    by (left; reflexivity).
  split; [exact H1 |]. split; [exact H2 |]. split; [exact H3 |].
  destruct (C4_background_and_allDay_do_not_overlap 0
              [backgroundEvent; meetingEvent; earlyEvent] (Overlaps.mkOptions false 30)
              backgroundEvent H1 H2 H3)
    as [(cellOverlaps & longestStreak & E & r & Hr & Hempty & _) _].
  exists cellOverlaps, longestStreak. split; [exact E |].
  exists r. split; [exact Hr | exact Hempty].
Defined.

Lemma C2_daysCount_counts_segments_witness :
  daysCountInvariant twoDayEvent
  ∧ (∃ sg, Event.segments twoDayEvent = Some sg
           ∧ is_Some (sg !! JS.substr0 10 (Event.end_ twoDayEvent)))
  ∧ daysCountInvariant (Part000.addEventSegment 0 twoDayEvent).1
  ∧ (∃ e' k, Part000.removeEventSegment 0 twoDayEvent = Some (e', k)
             ∧ daysCountInvariant e')
  ∧ ∃ e' vuecal',
      Part000.createAnEvent 0 (fun _ => 0) (fun events v => (events, v))
        (Part000.ADate 1572717600000) EventOptions.empty hourlyView
        = (Part000.ReturnsEvent e', vuecal')
      ∧ daysCountInvariant e'.
Proof.
  assert (H1 : daysCountInvariant twoDayEvent) by (vm_compute; reflexivity).
  assert (H2 : is_Some (default ∅ (Event.segments twoDayEvent)
                          !! JS.substr0 10 (Event.end_ twoDayEvent)))
    by (eexists; vm_compute; reflexivity).
  destruct (C2_daysCount_counts_segments 0 twoDayEvent) as (Hadd & Hremove & Hcreate).
  split; [exact H1 |]. split; [eexists; split; [reflexivity | exact H2] |].
  split; [exact Hadd |]. split; [exact (Hremove _ eq_refl H1 H2) |].
  apply (Hcreate (fun _ => 0) (fun events v => (events, v)) 1572717600000 hourlyView eq_refl).
  - vm_compute. split; discriminate.
  - reflexivity.
Defined.

(** * Further properties *)

From Stdlib Require OrderedTypeEx.

(** ** Strings and decimal numbers *)

Section Strings.
Import JS.

Lemma includesChar_app (p : ascii) (s t : string) :
  includesChar p (s +:+ t) = includesChar p s || includesChar p t.
Proof.
  induction s as [| c s IH]; [done |].
  rewrite string_app_cons. cbn [includesChar]. by destruct (Ascii.eqb c p).
Qed.

(** Two strings that are cut at a character which their tails do not
    have are cut at the same place. *)
Lemma string_app_pivot (p : ascii) (s1 s2 t1 t2 : string) :
  includesChar p t1 = false → includesChar p t2 = false →
  s1 +:+ String p t1 = s2 +:+ String p t2 → s1 = s2 ∧ t1 = t2.
Proof.
  intros H1 H2. revert s2.
  induction s1 as [| c s1 IH]; intros [| c2 s2] E.
  - rewrite !string_app_nil in E. by injection E.
  - rewrite string_app_nil, string_app_cons in E. injection E as <- ->.
    rewrite includesChar_app in H1. cbn [includesChar] in H1.
    rewrite Ascii.eqb_refl, orb_true_r in H1. done.
  - rewrite string_app_nil, string_app_cons in E. injection E as -> <-.
    rewrite includesChar_app in H2. cbn [includesChar] in H2.
    rewrite Ascii.eqb_refl, orb_true_r in H2. done.
  - rewrite !string_app_cons in E. injection E as -> E.
    destruct (IH _ E) as [-> ->]. done.
Qed.

Lemma digitChar_cases (x : Z) :
  0 <= x <= 9 →
  x = 0 ∨ x = 1 ∨ x = 2 ∨ x = 3 ∨ x = 4 ∨ x = 5 ∨ x = 6 ∨ x = 7 ∨ x = 8 ∨ x = 9.
Proof. lia. Qed.

Lemma digitValue_digitChar (x : Z) : 0 <= x <= 9 → digitValue (digitChar x) = x.
Proof.
  intros H. destruct (digitChar_cases x H) as [-> | [-> | [-> | [-> | [-> | [-> | [-> | [-> | [-> | ->]]]]]]]]];
    reflexivity.
Qed.

Lemma digitChar_separator (p : ascii) (x : Z) :
  separator p → 0 <= x <= 9 → Ascii.eqb (digitChar x) p = false.
Proof.
  intros [-> | [-> | ->]] H;
    destruct (digitChar_cases x H) as [-> | [-> | [-> | [-> | [-> | [-> | [-> | [-> | [-> | ->]]]]]]]]];
    reflexivity.
Qed.

Lemma mod10_range (n : Z) : 0 <= n mod 10 <= 9.
Proof. pose proof (Z.mod_pos_bound n 10). lia. Qed.

Lemma digits_separator (p : ascii) (f : nat) (n : Z) (acc : string) :
  separator p → includesChar p (digits f n acc) = includesChar p acc.
Proof.
  intros Hp. revert n acc. induction f as [| f IH]; intros n acc; [done |].
  cbn [digits].
  assert (E : includesChar p (String (digitChar (n mod 10)) acc) = includesChar p acc).
  { cbn [includesChar]. by rewrite (digitChar_separator p _ Hp (mod10_range n)). }
  destruct (n <? 10); [done |]. by rewrite IH.
Qed.

Lemma digits_head (f : nat) (n : Z) (acc : string) :
  ∃ x rest, 0 <= x <= 9 ∧ digits (S f) n acc = String (digitChar x) rest.
Proof.
  revert n acc. induction f as [| f IH]; intros n acc.
  - exists (n mod 10). cbn [digits]. pose proof (mod10_range n).
    destruct (n <? 10); eauto.
  - change (digits (S (S f)) n acc)
      with (if n <? 10 then String (digitChar (n mod 10)) acc
            else digits (S f) (n / 10) (String (digitChar (n mod 10)) acc)).
    destruct (n <? 10); [| apply IH].
    exists (n mod 10). pose proof (mod10_range n). eauto.
Qed.

Lemma decimalValue_digits (f : nat) (n : Z) (acc : string) :
  0 <= n < 10 ^ Z.of_nat f →
  decimalValue (digits f n acc)
    = n * 10 ^ Z.of_nat (String.length acc) + decimalValue acc.
Proof.
  revert n acc. induction f as [| f IH]; intros n acc Hn.
  - cbn [digits]. change (10 ^ Z.of_nat 0) with 1 in Hn. assert (n = 0) as -> by lia. lia.
  - cbn [digits].
    assert (Estep : decimalValue (String (digitChar (n mod 10)) acc)
                    = (n mod 10) * 10 ^ Z.of_nat (String.length acc) + decimalValue acc).
    { cbn [decimalValue]. by rewrite digitValue_digitChar by apply mod10_range. }
    destruct (Z.ltb_spec n 10) as [Hsmall | Hbig].
    + rewrite Estep, Z.mod_small by lia. done.
    + rewrite IH, Estep.
      * cbn [String.length]. rewrite Nat2Z.inj_succ, Z.pow_succ_r by lia.
        pose proof (Z.div_mod n 10). nia.
      * rewrite Nat2Z.inj_succ, Z.pow_succ_r in Hn by lia.
        split; [apply Z.div_pos; lia | apply Z.div_lt_upper_bound; lia].
Qed.

Lemma fuel_bound (n : Z) : 0 <= n → n < 10 ^ Z.of_nat (S (Z.to_nat (Z.log2 n))).
Proof.
  intros Hn. destruct (Z.eq_dec n 0) as [-> | Hnz]; [by vm_compute |].
  pose proof (Z.log2_spec n ltac:(lia)) as [_ Hup].
  pose proof (Z.log2_nonneg n).
  rewrite Nat2Z.inj_succ, Z2Nat.id by done.
  assert (2 ^ Z.succ (Z.log2 n) <= 10 ^ Z.succ (Z.log2 n))
    by (apply Z.pow_le_mono_l; lia).
  lia.
Qed.

Lemma decimalValue_Number_toString (n : Z) :
  0 <= n → decimalValue (Number_toString n) = n.
Proof.
  intros Hn. unfold Number_toString. destruct (Z.ltb_spec n 0); [lia |].
  rewrite decimalValue_digits by (split; [done | by apply fuel_bound]).
  cbn [String.length decimalValue]. lia.
Qed.

(** [Number_toString] can be read back. *)
Lemma parseInteger_Number_toString (n : Z) : parseInteger (Number_toString n) = n.
Proof.
  destruct (Z.ltb_spec n 0) as [Hneg | Hpos].
  - unfold Number_toString. destruct (Z.ltb_spec n 0); [| lia].
    cbn [parseInteger]. rewrite Ascii.eqb_refl.
    rewrite decimalValue_digits by (split; [lia | apply fuel_bound; lia]).
    cbn [String.length decimalValue]. lia.
  - pose proof (decimalValue_Number_toString n Hpos) as E.
    unfold Number_toString in *. destruct (Z.ltb_spec n 0); [lia |].
    destruct (digits_head (Z.to_nat (Z.log2 n)) n EmptyString) as (x & rest & Hx & Ed).
    rewrite Ed in *. cbn [parseInteger].
    by rewrite (digitChar_separator "-"%char x (or_introl eq_refl) Hx).
Qed.

Lemma Number_toString_inj (a b : Z) : Number_toString a = Number_toString b → a = b.
Proof.
  intros E. rewrite <- (parseInteger_Number_toString a), E.
  apply parseInteger_Number_toString.
Qed.

Lemma Number_toString_separator (p : ascii) (n : Z) :
  separator p → 0 <= n → includesChar p (Number_toString n) = false.
Proof.
  intros Hp Hn. unfold Number_toString. destruct (Z.ltb_spec n 0); [lia |].
  by rewrite digits_separator.
Qed.

(** A number of two digits, as the sources pad it. *)
Lemma decimalValue_padded (n : Z) :
  0 <= n →
  decimalValue ((if n <? 10 then "0" else "") +:+ Number_toString n) = n.
Proof.
  intros Hn. destruct (n <? 10).
  - change ("0" +:+ Number_toString n) with (String "0"%char (Number_toString n)).
    cbn [decimalValue]. rewrite decimalValue_Number_toString by done.
    change (digitValue "0"%char) with 0. lia.
  - rewrite string_app_nil. by apply decimalValue_Number_toString.
Qed.

Lemma padded_separator (p : ascii) (n : Z) :
  separator p → 0 <= n →
  includesChar p ((if n <? 10 then "0" else "") +:+ Number_toString n) = false.
Proof.
  intros Hp Hn. rewrite includesChar_app, Number_toString_separator by done.
  destruct (n <? 10); [| done]. cbn [includesChar].
  destruct Hp as [-> | [-> | ->]]; reflexivity.
Qed.
End Strings.

(** ** The calendar *)

Section Calendar.
Import JS.

(** Four hundred years are 146097 days. *)
Lemma civilFromDays_shift (z k : Z) :
  civilFromDays (z + 146097 * k)
    = ((civilFromDays z).1.1 + 400 * k, (civilFromDays z).1.2, (civilFromDays z).2).
Proof.
  unfold civilFromDays. cbv zeta.
  replace (z + 146097 * k + 719468) with (z + 719468 + k * 146097) by lia.
  rewrite Z.div_add by lia.
  replace (z + 719468 + k * 146097 - ((z + 719468) / 146097 + k) * 146097)
    with (z + 719468 - (z + 719468) / 146097 * 146097) by lia.
  cbn [fst snd].
  set (doe := z + 719468 - (z + 719468) / 146097 * 146097).
  set (yoe := (doe - doe / 1460 + doe / 36524 - doe / 146096) / 365).
  set (doy := doe - (365 * yoe + yoe / 4 - yoe / 100)).
  set (mp := (5 * doy + 2) / 153).
  f_equal. f_equal. destruct (_ <=? 2); lia.
Qed.

Lemma daysFromCivil_shift (y m d k : Z) :
  daysFromCivil (y + 400 * k) m d = daysFromCivil y m d + 146097 * k.
Proof.
  unfold daysFromCivil. cbv zeta.
  set (y' := if m <=? 2 then y - 1 else y).
  replace (if m <=? 2 then y + 400 * k - 1 else y + 400 * k) with (y' + k * 400)
    by (unfold y'; destruct (m <=? 2); lia).
  rewrite Z.div_add by lia.
  replace (y' + k * 400 - (y' / 400 + k) * 400) with (y' - y' / 400 * 400) by lia.
  lia.
Qed.

Lemma calendarChecks_era : allFrom calendarChecks (Z.to_nat 146097) (-719468) = true.
Proof. vm_compute. reflexivity. Qed.

Lemma calendarChecks_spec (z : Z) :
  calendarChecks z = true ↔
  daysFromCivil (civilFromDays z).1.1 (civilFromDays z).1.2 (civilFromDays z).2 = z
  ∧ daysFromCivil (civilFromDays z).1.1 1 1 <= z
      < daysFromCivil ((civilFromDays z).1.1 + 1) 1 1.
Proof.
  unfold calendarChecks. destruct (civilFromDays z) as [[y m] d]. cbn [fst snd].
  rewrite !andb_true_iff, Z.eqb_eq, Z.leb_le, Z.ltb_lt. tauto.
Qed.

Lemma calendarChecks_all (z : Z) : calendarChecks z = true.
Proof.
  set (k := (z + 719468) / 146097).
  set (z0 := z - 146097 * k).
  assert (Hz0 : -719468 <= z0 < -719468 + Z.of_nat (Z.to_nat 146097)).
  { unfold z0, k. pose proof (Z.div_mod (z + 719468) 146097).
    pose proof (Z.mod_pos_bound (z + 719468) 146097). lia. }
  pose proof (allFrom_spec _ _ _ _ calendarChecks_era Hz0) as H0.
  apply calendarChecks_spec in H0 as [Hround Hyear].
  apply calendarChecks_spec.
  replace z with (z0 + 146097 * k) by (unfold z0; lia).
  rewrite civilFromDays_shift. cbn [fst snd].
  replace ((civilFromDays z0).1.1 + 400 * k + 1)
    with ((civilFromDays z0).1.1 + 1 + 400 * k) by lia.
  rewrite !daysFromCivil_shift. lia.
Qed.

(** [daysFromCivil] undoes [civilFromDays]. *)
Lemma daysFromCivil_civilFromDays (z : Z) :
  daysFromCivil (civilFromDays z).1.1 (civilFromDays z).1.2 (civilFromDays z).2 = z.
Proof. exact (proj1 (proj1 (calendarChecks_spec z) (calendarChecks_all z))). Qed.

Lemma civilFromDays_inj (a b : Z) : civilFromDays a = civilFromDays b → a = b.
Proof.
  intros E. rewrite <- (daysFromCivil_civilFromDays a), E.
  apply daysFromCivil_civilFromDays.
Qed.

(** A day lies in its year. *)
Lemma day_in_its_year (z : Z) :
  daysFromCivil (civilFromDays z).1.1 1 1 <= z
    < daysFromCivil ((civilFromDays z).1.1 + 1) 1 1.
Proof. exact (proj2 (proj1 (calendarChecks_spec z) (calendarChecks_all z))). Qed.

Lemma leapYearChecks_era : allFrom leapYearChecks 400 0 = true.
Proof. vm_compute. reflexivity. Qed.

Lemma daysInYear_leapYear (y : Z) : daysInYear y = if leapYear y then 366 else 365.
Proof.
  set (k := y / 400). set (y0 := y - 400 * k).
  assert (Hy0 : 0 <= y0 < 0 + Z.of_nat 400).
  { unfold y0, k. pose proof (Z.div_mod y 400). pose proof (Z.mod_pos_bound y 400). lia. }
  pose proof (allFrom_spec _ _ _ _ leapYearChecks_era Hy0) as H0.
  unfold leapYearChecks in H0. apply Z.eqb_eq in H0.
  assert (Ed : daysInYear y = daysInYear y0).
  { unfold daysInYear. replace y with (y0 + 400 * k) by (unfold y0; lia).
    replace (y0 + 400 * k + 1) with (y0 + 1 + 400 * k) by lia.
    rewrite !daysFromCivil_shift. lia. }
  assert (El : leapYear y = leapYear y0).
  { assert (E400 : y mod 400 = y0 mod 400).
    { replace y with (y0 + k * 400) by (unfold y0; lia). apply Z.mod_add. lia. }
    assert (E100 : y mod 100 = y0 mod 100).
    { replace y with (y0 + (k * 4) * 100) by (unfold y0; lia). apply Z.mod_add. lia. }
    assert (E4 : y mod 4 = y0 mod 4).
    { replace y with (y0 + (k * 100) * 4) by (unfold y0; lia). apply Z.mod_add. lia. }
    unfold leapYear. by rewrite E400, E100, E4. }
  by rewrite Ed, El.
Qed.

Lemma daysInYear_range (y : Z) : 365 <= daysInYear y <= 366.
Proof. rewrite daysInYear_leapYear. destruct (leapYear y); lia. Qed.

Lemma dayOfYear_range (z : Z) :
  0 <= z - daysFromCivil (civilFromDays z).1.1 1 1 <= 365.
Proof.
  pose proof (day_in_its_year z). pose proof (daysInYear_range (civilFromDays z).1.1).
  unfold daysInYear in *. lia.
Qed.

(** The first of January comes later in a later year. *)
Lemma newYear_mono (a b : Z) : a <= b → daysFromCivil a 1 1 <= daysFromCivil b 1 1.
Proof.
  intros H. replace b with (a + Z.of_nat (Z.to_nat (b - a))) by lia.
  induction (Z.to_nat (b - a)) as [| n IH]; [by rewrite Z.add_0_r |].
  pose proof (daysInYear_range (a + Z.of_nat n)). unfold daysInYear in *.
  replace (a + Z.of_nat (S n)) with (a + Z.of_nat n + 1) by lia. lia.
Qed.

(** The year of a day is the one between whose first of January and the
    next the day lies. *)
Lemma year_of_day (z y : Z) :
  daysFromCivil y 1 1 <= z < daysFromCivil (y + 1) 1 1 → (civilFromDays z).1.1 = y.
Proof.
  intros Hy. pose proof (day_in_its_year z) as Hz.
  set (y' := (civilFromDays z).1.1) in *.
  destruct (Z.lt_trichotomy y' y) as [Hlt | [-> | Hgt]]; [| done |].
  - pose proof (newYear_mono (y' + 1) y ltac:(lia)). lia.
  - pose proof (newYear_mono (y + 1) y' ltac:(lia)). lia.
Qed.
End Calendar.

(** ** date-utils.js: days, keys and weeks *)

Section DateUtilsFacts.
Import JS DateUtils.
Variable tz : Z.

Lemma string_app_assoc (s t u : string) : (s +:+ t) +:+ u = s +:+ (t +:+ u).
Proof.
  induction s as [| c s IH]; [done |]. rewrite !string_app_cons. by rewrite IH.
Qed.

Lemma formatDateLite_parts (d : Date) :
  formatDateLite tz d
    = (Number_toString (getFullYear tz d)
         +:+ String "-"%char
               ((if getMonth tz d + 1 <? 10 then "0" else "")
                  +:+ Number_toString (getMonth tz d + 1)))
        +:+ String "-"%char
              ((if getDate tz d <? 10 then "0" else "") +:+ Number_toString (getDate tz d)).
Proof.
  unfold formatDateLite. cbv zeta.
  set (Y := Number_toString (getFullYear tz d)).
  set (pm := if getMonth tz d + 1 <? 10 then "0" else "").
  set (M := Number_toString (getMonth tz d + 1)).
  set (pd := if getDate tz d <? 10 then "0" else "").
  set (D := Number_toString (getDate tz d)).
  change ("-" +:+ pm +:+ M +:+ "-" +:+ pd +:+ D)
    with (String "-"%char (pm +:+ M +:+ String "-"%char (pd +:+ D))).
  change (String "-"%char (pm +:+ M +:+ String "-"%char (pd +:+ D)))
    with (String "-"%char (pm +:+ (M +:+ String "-"%char (pd +:+ D)))).
  rewrite <- (string_app_assoc pm M).
  change (String "-"%char ((pm +:+ M) +:+ String "-"%char (pd +:+ D)))
    with ((String "-"%char (pm +:+ M)) +:+ String "-"%char (pd +:+ D)).
  by rewrite <- string_app_assoc.
Qed.

Lemma getMonth_getDate_range (d : Date) : 0 <= getMonth tz d <= 11 ∧ 1 <= getDate tz d <= 31.
Proof.
  pose proof (civilFromDays_month_day (day tz d)). unfold getMonth, getDate. lia.
Qed.

Lemma civil_fields_day (a b : Date) :
  getFullYear tz a = getFullYear tz b → getMonth tz a = getMonth tz b →
  getDate tz a = getDate tz b → day tz a = day tz b.
Proof.
  unfold getFullYear, getMonth, getDate. intros Hy Hm Hd.
  apply civilFromDays_inj.
  destruct (civilFromDays (day tz a)) as [[y m] d], (civilFromDays (day tz b)) as [[y' m'] d'].
  cbn [fst snd] in *. f_equal; [f_equal |]; lia.
Qed.

(** Two dates have the same day key exactly when they are on the same
    civil day. *)
Lemma formatDateLite_same_key_same_day (a b : Date) :
  formatDateLite tz a = formatDateLite tz b ↔ day tz a = day tz b.
Proof.
  split.
  - rewrite !formatDateLite_parts. intros E.
    destruct (getMonth_getDate_range a) as [Hma Hda].
    destruct (getMonth_getDate_range b) as [Hmb Hdb].
    apply (string_app_pivot "-"%char) in E as [E Ed];
      [| apply padded_separator; [by left | lia] ..].
    apply (string_app_pivot "-"%char) in E as [Ey Em];
      [| apply padded_separator; [by left | lia] ..].
    apply civil_fields_day.
    + by apply Number_toString_inj.
    + apply (f_equal decimalValue) in Em. rewrite !decimalValue_padded in Em by lia. lia.
    + apply (f_equal decimalValue) in Ed. rewrite !decimalValue_padded in Ed by lia. lia.
  - intros E. unfold formatDateLite, getFullYear, getMonth, getDate. by rewrite E.
Qed.

Lemma formatDateLite_addDays (d : Date) (n : Z) :
  formatDateLite tz (addDays tz d n) = formatDateLite tz d ↔ n = 0.
Proof.
  rewrite formatDateLite_same_key_same_day, addDays_time, day_plus_days. lia.
Qed.

(** *** formatTime *)

Lemma formatTime_parts (time : Z) :
  formatTime time
    = ((if time / 60 <? 10 then "0" else "") +:+ Number_toString (time / 60))
        +:+ String ":"%char
              ((if Z.rem time 60 <? 10 then "0" else "")
                 +:+ Number_toString (Z.rem time 60)).
Proof.
  unfold formatTime. cbv zeta.
  set (ph := if time / 60 <? 10 then "0" else "").
  set (pm := if Z.rem time 60 <? 10 then "0" else "").
  change (":" +:+ pm +:+ Number_toString (Z.rem time 60))
    with (String ":"%char (pm +:+ Number_toString (Z.rem time 60))).
  by rewrite string_app_assoc.
Qed.

(** The formatted time gives the minutes back: hours times sixty plus
    minutes. *)
Lemma formatTime_reads_back (time : Z) :
  0 <= time →
  ∃ HH mm,
    formatTime time = HH +:+ ":" +:+ mm
    ∧ includesChar ":"%char mm = false
    ∧ decimalValue HH * 60 + decimalValue mm = time.
Proof.
  intros Ht.
  assert (0 <= time / 60) by (apply Z.div_pos; lia).
  assert (Hrem : Z.rem time 60 = time mod 60) by (apply Z.rem_mod_nonneg; lia).
  pose proof (Z.mod_pos_bound time 60). pose proof (Z.div_mod time 60).
  eexists _, _. split; [reflexivity |]. split.
  - apply padded_separator; [right; by right | lia].
  - rewrite !decimalValue_padded by lia. lia.
Qed.

Lemma formatTime_inj (a b : Z) :
  0 <= a → 0 <= b → formatTime a = formatTime b → a = b.
Proof.
  intros Ha Hb. rewrite !formatTime_parts. intros E.
  assert (Hra : Z.rem a 60 = a mod 60) by (apply Z.rem_mod_nonneg; lia).
  assert (Hrb : Z.rem b 60 = b mod 60) by (apply Z.rem_mod_nonneg; lia).
  pose proof (Z.mod_pos_bound a 60). pose proof (Z.mod_pos_bound b 60).
  assert (0 <= a / 60) by (apply Z.div_pos; lia).
  assert (0 <= b / 60) by (apply Z.div_pos; lia).
  apply (string_app_pivot ":"%char) in E as [Eh Em];
    [| apply padded_separator; [right; by right | lia] ..].
  apply (f_equal decimalValue) in Eh, Em.
  rewrite !decimalValue_padded in Eh, Em by lia.
  pose proof (Z.div_mod a 60). pose proof (Z.div_mod b 60). lia.
Qed.
End DateUtilsFacts.

(** ** date-utils.js: weeks, leap years and today *)

Section Weeks.
Import JS DateUtils.
Variable tz : Z.

Lemma getDay_range (d : Date) : 0 <= getDay tz d <= 6.
Proof. unfold getDay. pose proof (Z.mod_pos_bound (day tz d + 4) 7). lia. Qed.

Lemma day_setDate (d : Date) (n : Z) : day tz (setDate tz d n) = day tz d + (n - getDate tz d).
Proof. unfold setDate. apply day_plus_days. Qed.

Lemma timeWithinDay_setDate (d : Date) (n : Z) :
  timeWithinDay tz (setDate tz d n) = timeWithinDay tz d.
Proof.
  unfold setDate, timeWithinDay, localTime.
  replace (d + (n - getDate tz d) * msPerDay - tz * msPerMinute)
    with (d - tz * msPerMinute + (n - getDate tz d) * msPerDay) by lia.
  apply Z.mod_add. unfold msPerDay. lia.
Qed.

Lemma getPreviousFirstDayOfWeek_back (now : Date) (date : option Date) (sunday : bool) :
  getPreviousFirstDayOfWeek tz now date sunday
    = default now date
      - ((getDay tz (default now date) + (if sunday then 7 else 6)) mod 7) * msPerDay.
Proof.
  unfold getPreviousFirstDayOfWeek. cbv zeta. set (d := default now date).
  pose proof (getDay_range d).
  rewrite Z.rem_mod_nonneg by (destruct sunday; lia).
  unfold setDate. lia.
Qed.

Lemma getPreviousFirstDayOfWeek_of (now d : Date) (sunday : bool) :
  getPreviousFirstDayOfWeek tz now (Some d) sunday
    = d - ((getDay tz d + (if sunday then 7 else 6)) mod 7) * msPerDay.
Proof. exact (getPreviousFirstDayOfWeek_back now (Some d) sunday). Qed.

(** [getPreviousFirstDayOfWeek] gives a first day of the week, at most six
    days back, at the same time of day. *)
Lemma getPreviousFirstDayOfWeek_is_first_day (now : Date) (date : option Date)
    (weekStartsOnSunday : bool) :
  let d := default now date in
  let r := getPreviousFirstDayOfWeek tz now date weekStartsOnSunday in
  getDay tz r = firstDayOfWeek weekStartsOnSunday
  ∧ 0 <= day tz d - day tz r <= 6
  ∧ timeWithinDay tz r = timeWithinDay tz d.
Proof.
  cbv zeta. set (d := default now date).
  assert (Er : getPreviousFirstDayOfWeek tz now date weekStartsOnSunday
               = setDate tz d (getDate tz d
                   - (getDay tz d + (if weekStartsOnSunday then 7 else 6)) mod 7)).
  { rewrite getPreviousFirstDayOfWeek_back. unfold setDate. fold d. lia. }
  rewrite Er. rewrite timeWithinDay_setDate. unfold getDay at 1. rewrite day_setDate.
  unfold getDay, firstDayOfWeek. set (n := day tz d).
  pose proof (Z.mod_pos_bound (n + 4) 7).
  split; [| split; [| done]].
  - set (k := (n + 4) mod 7 + (if weekStartsOnSunday then 7 else 6)).
    set (e := n + (getDate tz d - k mod 7 - getDate tz d) + 4).
    pose proof (Z.div_mod (n + 4) 7). pose proof (Z.div_mod k 7).
    pose proof (Z.mod_pos_bound k 7). pose proof (Z.div_mod e 7).
    pose proof (Z.mod_pos_bound e 7).
    unfold e, k in *. destruct weekStartsOnSunday; lia.
  - pose proof (Z.mod_pos_bound ((n + 4) mod 7 + (if weekStartsOnSunday then 7 else 6)) 7).
    lia.
Qed.

(** A first day of the week is its own previous first day of the week. *)
Lemma getPreviousFirstDayOfWeek_idempotent (now now' : Date) (date : option Date)
    (weekStartsOnSunday : bool) :
  let r := getPreviousFirstDayOfWeek tz now date weekStartsOnSunday in
  getPreviousFirstDayOfWeek tz now' (Some r) weekStartsOnSunday = r.
Proof.
  cbv zeta.
  destruct (getPreviousFirstDayOfWeek_is_first_day now date weekStartsOnSunday) as [Hd _].
  rewrite getPreviousFirstDayOfWeek_of.
  rewrite Hd. unfold firstDayOfWeek.
  destruct weekStartsOnSunday;
    [change ((0 + 7) mod 7) with 0 | change ((1 + 6) mod 7) with 0]; lia.
Qed.

(** The Monday before a day is three days before the Thursday of its week. *)
Lemma monday_thursday (now d : Date) :
  day tz (getPreviousFirstDayOfWeek tz now (Some d) false) = thursdayOf (day tz d) - 3.
Proof.
  rewrite getPreviousFirstDayOfWeek_of.
  replace (d - (getDay tz d + 6) mod 7 * msPerDay)
    with (d + (- ((getDay tz d + 6) mod 7)) * msPerDay) by lia.
  rewrite day_plus_days. unfold getDay, thursdayOf. set (n := day tz d).
  pose proof (Z.div_mod (n + 4) 7). pose proof (Z.mod_pos_bound (n + 4) 7).
  pose proof (Z.div_mod (n + 3) 7). pose proof (Z.mod_pos_bound (n + 3) 7).
  pose proof (Z.div_mod ((n + 4) mod 7 + 6) 7).
  pose proof (Z.mod_pos_bound ((n + 4) mod 7 + 6) 7).
  lia.
Qed.

(** *** Years *)

Lemma newYear_next (y : Z) :
  daysFromCivil y 1 1 + 365 <= daysFromCivil (y + 1) 1 1 <= daysFromCivil y 1 1 + 366.
Proof. pose proof (daysInYear_range y) as H. unfold daysInYear in H. lia. Qed.

Lemma year_mono (a b : Z) : a <= b → (civilFromDays a).1.1 <= (civilFromDays b).1.1.
Proof.
  intros H. pose proof (day_in_its_year a). pose proof (day_in_its_year b).
  destruct (Z.le_gt_cases (civilFromDays a).1.1 (civilFromDays b).1.1) as [| Hgt]; [done |].
  pose proof (newYear_mono ((civilFromDays b).1.1 + 1) (civilFromDays a).1.1 ltac:(lia)).
  lia.
Qed.

Lemma year_within (z k : Z) :
  0 <= k <= 365 → (civilFromDays (z + k)).1.1 <= (civilFromDays z).1.1 + 1.
Proof.
  intros H. pose proof (day_in_its_year z) as Hz. pose proof (day_in_its_year (z + k)) as Hk.
  pose proof (newYear_next ((civilFromDays z).1.1 + 1)) as Hy.
  destruct (Z.le_gt_cases (civilFromDays (z + k)).1.1 ((civilFromDays z).1.1 + 1))
    as [| Hgt]; [done |].
  pose proof (newYear_mono ((civilFromDays z).1.1 + 1 + 1) (civilFromDays (z + k)).1.1
                ltac:(lia)) as Hm.
  exfalso. clear Hgt. revert Hz Hk Hy Hm.
  generalize (daysFromCivil (civilFromDays z).1.1 1 1)
             (daysFromCivil ((civilFromDays z).1.1 + 1) 1 1)
             (daysFromCivil ((civilFromDays z).1.1 + 1 + 1) 1 1)
             (daysFromCivil (civilFromDays (z + k)).1.1 1 1)
             (daysFromCivil ((civilFromDays (z + k)).1.1 + 1) 1 1).
  intros s s1 s2 r r1 Hz Hk Hy Hm. lia.
Qed.

Lemma thursdayOf_near (n : Z) : n - 3 <= thursdayOf n <= n + 3.
Proof. unfold thursdayOf. pose proof (Z.mod_pos_bound (n + 3) 7). lia. Qed.

Lemma thursdayOf_year (n : Z) :
  (civilFromDays n).1.1 - 1 <= (civilFromDays (thursdayOf n)).1.1 <= (civilFromDays n).1.1 + 1.
Proof.
  pose proof (thursdayOf_near n). split.
  - pose proof (year_mono (n - 3) (thursdayOf n) ltac:(lia)).
    pose proof (year_within (n - 3) 3 ltac:(lia)) as H3.
    replace (n - 3 + 3) with n in H3 by lia. lia.
  - pose proof (year_mono (thursdayOf n) (n + 3) ltac:(lia)).
    pose proof (year_within n 3 ltac:(lia)). lia.
Qed.

Lemma Date_UTC_plain (y m d : Z) :
  ¬ (0 <= y <= 99) → Date_UTC y m d = daysFromCivil y (m + 1) d * msPerDay.
Proof.
  intros H. unfold Date_UTC. cbv zeta.
  destruct (0 <=? y) eqn:E1, (y <=? 99) eqn:E2; cbn [andb]; try done. lia.
Qed.

Lemma ceilDiv_days (x : Z) : ceilDiv (x * 86400000 + 86400000) (7 * 86400000) = x / 7 + 1.
Proof.
  unfold ceilDiv.
  replace (- (x * 86400000 + 86400000)) with ((- (x + 1)) * 86400000) by lia.
  rewrite Z.div_mul_cancel_r by lia.
  pose proof (Z.div_mod (- (x + 1)) 7). pose proof (Z.mod_pos_bound (- (x + 1)) 7).
  pose proof (Z.div_mod x 7). pose proof (Z.mod_pos_bound x 7). lia.
Qed.

(** The week of a date is counted from the first of January of the year
    of the Thursday of its week. *)
Lemma getWeek_thursday (this : Date) :
  ¬ (-1 <= getFullYear tz this <= 100) →
  getWeek tz this
    = (thursdayOf (day tz this)
       - daysFromCivil (civilFromDays (thursdayOf (day tz this))).1.1 1 1) / 7 + 1.
Proof.
  intros Hy. unfold getWeek. cbv zeta. unfold getFullYear, getMonth, getDate in *.
  set (n := day tz this) in *.
  rewrite Date_UTC_plain by lia. rewrite Z.sub_add.
  rewrite (daysFromCivil_civilFromDays n).
  unfold setUTCDate, getUTCDay, getUTCDate, getUTCFullYear.
  assert (Ediv : ∀ k, k * msPerDay / msPerDay = k)
    by (intros k; apply Z.div_mul; unfold msPerDay; lia).
  rewrite !Ediv.
  set (dayNum := if (n + 4) mod 7 =? 0 then 7 else (n + 4) mod 7).
  assert (Et : n * msPerDay + ((civilFromDays n).2 + 4 - dayNum - (civilFromDays n).2) * msPerDay
               = thursdayOf n * msPerDay).
  { unfold dayNum, thursdayOf.
    pose proof (Z.div_mod (n + 4) 7). pose proof (Z.mod_pos_bound (n + 4) 7).
    pose proof (Z.div_mod (n + 3) 7). pose proof (Z.mod_pos_bound (n + 3) 7).
    destruct (Z.eqb_spec ((n + 4) mod 7) 0); unfold msPerDay; lia. }
  rewrite Et, Ediv.
  pose proof (thursdayOf_year n).
  rewrite Date_UTC_plain by lia. change (0 + 1) with 1.
  set (t := thursdayOf n). set (s := daysFromCivil (civilFromDays t).1.1 1 1).
  unfold msPerDay.
  replace (t * 86400000 - s * 86400000 + 86400000) with ((t - s) * 86400000 + 86400000)
    by lia.
  apply ceilDiv_days.
Qed.

(** Away from the years 0 to 99, which [Date.UTC] reads as years of the
    twentieth century, the week number goes from 1 to 53. *)
Lemma getWeek_range (this : Date) :
  ¬ (-1 <= getFullYear tz this <= 100) → 1 <= getWeek tz this <= 53.
Proof.
  intros Hy. rewrite getWeek_thursday by done.
  pose proof (dayOfYear_range (thursdayOf (day tz this))) as H.
  set (x := thursdayOf (day tz this)
            - daysFromCivil (civilFromDays (thursdayOf (day tz this))).1.1 1 1) in *.
  pose proof (Z.div_mod x 7). pose proof (Z.mod_pos_bound x 7). lia.
Qed.

(** Two dates after the same Monday are in the same week of the year. *)
Lemma getWeek_same_monday (now a b : Date) :
  ¬ (-1 <= getFullYear tz a <= 100) → ¬ (-1 <= getFullYear tz b <= 100) →
  day tz (getPreviousFirstDayOfWeek tz now (Some a) false)
    = day tz (getPreviousFirstDayOfWeek tz now (Some b) false) →
  getWeek tz a = getWeek tz b.
Proof.
  intros Ha Hb. rewrite !monday_thursday. intros E.
  rewrite !getWeek_thursday by done.
  assert (Et : thursdayOf (day tz a) = thursdayOf (day tz b)) by lia.
  by rewrite Et.
Qed.

(** Seven days later the week number is one more, or it is 1 again after
    a week 52 or 53. *)
Lemma getWeek_a_week_later (a b : Date) :
  ¬ (-1 <= getFullYear tz a <= 100) → ¬ (-1 <= getFullYear tz b <= 100) →
  day tz b = day tz a + 7 →
  getWeek tz b = getWeek tz a + 1 ∨ (52 <= getWeek tz a ∧ getWeek tz b = 1).
Proof.
  intros Ha Hb E. rewrite !getWeek_thursday by done. rewrite E.
  assert (Et : thursdayOf (day tz a + 7) = thursdayOf (day tz a) + 7).
  { unfold thursdayOf. replace (day tz a + 7 + 3) with (day tz a + 3 + 1 * 7) by lia.
    rewrite Z.mod_add by lia. lia. }
  rewrite Et. clear Et E Ha Hb. generalize (thursdayOf (day tz a)). intros t.
  pose proof (day_in_its_year t) as Ht. pose proof (day_in_its_year (t + 7)) as Ht7.
  pose proof (year_mono t (t + 7) ltac:(lia)) as Hmono.
  pose proof (year_within t 7 ltac:(lia)) as Hwithin.
  revert Ht Ht7 Hmono Hwithin.
  generalize (civilFromDays t).1.1 (civilFromDays (t + 7)).1.1. intros y y' Ht Ht7 Hmono Hwithin.
  pose proof (newYear_next y) as Hdays.
  assert (Hc : y' = y ∨ y' = y + 1) by lia.
  destruct Hc as [-> | ->]; clear Hmono Hwithin;
    revert Ht Ht7 Hdays; generalize (daysFromCivil y 1 1) (daysFromCivil (y + 1) 1 1);
    [clear y; intros s s1 Ht Ht7 Hdays
    | generalize (daysFromCivil (y + 1 + 1) 1 1); clear y; intros s2 s s1 Ht Ht7 Hdays].
  - left. replace (t + 7 - s) with (t - s + 1 * 7) by lia.
    rewrite Z.div_add by lia. lia.
  - right.
    pose proof (Z.div_mod (t - s) 7). pose proof (Z.mod_pos_bound (t - s) 7).
    pose proof (Z.div_mod (t + 7 - s1) 7). pose proof (Z.mod_pos_bound (t + 7 - s1) 7).
    lia.
Qed.

Lemma daysFromCivil_january (y d : Z) : daysFromCivil y 1 d = daysFromCivil y 1 1 + (d - 1).
Proof.
  unfold daysFromCivil. cbv zeta.
  change (1 <=? 2) with true. change (2 <? 1) with false. cbv iota.
  change ((153 * (1 + 9) + 2) / 5) with 306. lia.
Qed.

(** The fourth of January is in week 1. *)
Lemma getWeek_4_january (this : Date) :
  ¬ (-1 <= getFullYear tz this <= 100) →
  getMonth tz this = 0 → getDate tz this = 4 → getWeek tz this = 1.
Proof.
  intros Hy Hm Hd. rewrite getWeek_thursday by done. clear Hy.
  pose proof (daysFromCivil_civilFromDays (day tz this)) as En.
  assert (E1 : (civilFromDays (day tz this)).1.2 = 1) by (unfold getMonth in Hm; lia).
  unfold getDate in Hd. rewrite E1, Hd, daysFromCivil_january in En. clear E1 Hd Hm.
  pose proof (thursdayOf_near (day tz this)) as Hnear.
  pose proof (newYear_next (civilFromDays (day tz this)).1.1) as Hdays.
  assert (Ey : (civilFromDays (thursdayOf (day tz this))).1.1
               = (civilFromDays (day tz this)).1.1).
  { apply year_of_day. revert En Hnear Hdays.
    generalize (daysFromCivil (civilFromDays (day tz this)).1.1 1 1)
               (daysFromCivil ((civilFromDays (day tz this)).1.1 + 1) 1 1)
               (thursdayOf (day tz this)).
    intros s s1 t En Hnear Hdays. lia. }
  rewrite Ey. clear Ey. revert En Hnear Hdays.
  generalize (daysFromCivil (civilFromDays (day tz this)).1.1 1 1)
             (daysFromCivil ((civilFromDays (day tz this)).1.1 + 1) 1 1)
             (thursdayOf (day tz this)).
  intros s s1 t En Hnear Hdays.
  pose proof (Z.div_mod (t - s) 7). pose proof (Z.mod_pos_bound (t - s) 7). lia.
Qed.

(** *** Leap years *)

Lemma rem_zero_mod (a b : Z) : b ≠ 0 → (Z.rem a b =? 0) = (a mod b =? 0).
Proof.
  intros Hb. apply eq_iff_eq_true. rewrite !Z.eqb_eq.
  rewrite Z.rem_divide, Z.mod_divide by done. tauto.
Qed.

(** [isLeapYear] holds of the dates of the years of 366 days. *)
Lemma isLeapYear_366_days (this : Date) :
  isLeapYear tz this = true ↔ daysInYear (getFullYear tz this) = 366.
Proof.
  unfold isLeapYear. cbv zeta. rewrite !rem_zero_mod by lia.
  rewrite daysInYear_leapYear. unfold leapYear.
  destruct (_ || _); split; (done || lia).
Qed.

(** *** Hours and minutes *)

(** The formatted time of a date shows its hours and its minutes. *)
Lemma Date_formatTime_reads_back (this : Date) :
  ∃ HH mm,
    Date_formatTime tz this = HH +:+ ":" +:+ mm
    ∧ includesChar ":"%char mm = false
    ∧ decimalValue HH = getHours tz this ∧ decimalValue mm = getMinutes tz this.
Proof.
  unfold Date_formatTime, formatTime. cbv zeta.
  assert (Hh : 0 <= getHours tz this).
  { unfold getHours, timeWithinDay. apply Z.div_pos; [| unfold msPerHour; lia].
    pose proof (Z.mod_pos_bound (localTime tz this) msPerDay). unfold msPerDay in *. lia. }
  assert (Hm : 0 <= getMinutes tz this < 60).
  { unfold getMinutes. apply Z.mod_pos_bound. lia. }
  set (h := getHours tz this) in *. set (m := getMinutes tz this) in *.
  assert (Eh : (h * 60 + m) / 60 = h).
  { rewrite Z.add_comm, Z.div_add by lia. rewrite Z.div_small by lia. lia. }
  assert (Em : Z.rem (h * 60 + m) 60 = m).
  { rewrite Z.rem_mod_nonneg by lia. rewrite Z.add_comm, Z.mod_add by lia.
    apply Z.mod_small. lia. }
  rewrite Eh, Em. eexists _, _. split; [reflexivity |]. split; [| split].
  - apply padded_separator; [right; by right | lia].
  - apply decimalValue_padded. lia.
  - apply decimalValue_padded. lia.
Qed.

(** *** Today *)

Lemma dashed_inj (y m d y' m' d' : Z) :
  0 <= m → 0 <= d → 0 <= m' → 0 <= d' →
  Number_toString y +:+ "-" +:+ Number_toString m +:+ "-" +:+ Number_toString d
    = Number_toString y' +:+ "-" +:+ Number_toString m' +:+ "-" +:+ Number_toString d' →
  y = y' ∧ m = m' ∧ d = d'.
Proof.
  intros Hm Hd Hm' Hd' E.
  assert (Eshape : ∀ Y M D : string,
    Y +:+ "-" +:+ M +:+ "-" +:+ D = (Y +:+ String "-"%char M) +:+ String "-"%char D).
  { intros Y M D.
    change (Y +:+ "-" +:+ M +:+ "-" +:+ D) with (Y +:+ (String "-"%char (M +:+ String "-"%char D))).
    change (String "-"%char (M +:+ String "-"%char D))
      with (String "-"%char M +:+ String "-"%char D).
    by rewrite <- string_app_assoc. }
  rewrite !Eshape in E.
  apply (string_app_pivot "-"%char) in E as [E Ed];
    [| apply Number_toString_separator; [by left | lia] ..].
  apply (string_app_pivot "-"%char) in E as [Ey Em];
    [| apply Number_toString_separator; [by left | lia] ..].
  split; [| split]; by apply Number_toString_inj.
Qed.

Lemma cachedAt_fields (clock : Date) :
  cachedAt tz clock
    = mkToday (Some clock) (Some (getDate tz clock))
        (Some (Number_toString (getFullYear tz clock) +:+ "-"
                 +:+ Number_toString (getMonth tz clock) +:+ "-"
                 +:+ Number_toString (getDate tz clock))).
Proof.
  unfold cachedAt, todayFormatted, noToday. cbn [todayDate].
  by rewrite bool_decide_eq_true_2.
Qed.

Lemma todayFormatted_cachedAt (clock filled : Date) :
  todayFormatted tz clock (cachedAt tz filled)
    = let asked := if bool_decide (getDate tz filled = getDate tz clock)
                   then filled else clock in
      (todayF (cachedAt tz asked), cachedAt tz asked).
Proof.
  cbv zeta. rewrite (cachedAt_fields filled). unfold todayFormatted. cbn [todayDate].
  destruct (decide (getDate tz filled = getDate tz clock)) as [E | E].
  - rewrite (bool_decide_eq_true_2 _ E).
    rewrite bool_decide_eq_false_2 by (intros H; apply H; by rewrite E).
    by rewrite <- cachedAt_fields.
  - rewrite (bool_decide_eq_false_2 _ E).
    rewrite bool_decide_eq_true_2 by congruence.
    by rewrite <- cachedAt_fields.
Qed.

(** [isToday] compares a date with the day for which the variables were
    filled: that is today when the day of the month has changed since, and
    the day of the last filling when it has not, whatever the month. *)
Lemma isToday_answers_for_the_cached_day (this clock filled : Date) :
  let asked := if bool_decide (getDate tz filled = getDate tz clock) then filled else clock in
  ((isToday tz this clock (cachedAt tz filled)).1 = true ↔ day tz this = day tz asked)
  ∧ (isToday tz this clock (cachedAt tz filled)).2 = cachedAt tz asked.
Proof.
  cbv zeta. unfold isToday. rewrite todayFormatted_cachedAt. cbv zeta.
  set (asked := if bool_decide (getDate tz filled = getDate tz clock) then filled else clock).
  cbn [fst snd]. split; [| done].
  rewrite cachedAt_fields. cbn [todayF]. rewrite bool_decide_eq_true.
  destruct (getMonth_getDate_range tz this), (getMonth_getDate_range tz asked).
  split.
  - intros E. injection E as E. apply dashed_inj in E as (Ey & Em & Ed); [| lia ..].
    by apply civil_fields_day.
  - intros E. unfold getFullYear, getMonth, getDate. by rewrite E.
Qed.
End Weeks.

(** ** Ranges *)

Section Ranges.
Import JS DateUtils.
Variable tz : Z.

Lemma midnight_le_iff (a b : Date) :
  setHours4 tz a 0 0 0 0 <= setHours4 tz b 0 0 0 0 ↔ day tz a <= day tz b.
Proof. unfold setHours4, fromLocal, msPerDay. lia. Qed.

Lemma midnight_le_end_of_day (a b : Date) :
  setHours4 tz a 0 0 0 0 <= setHours4 tz b 23 59 59 999 ↔ day tz a <= day tz b.
Proof. unfold setHours4, fromLocal, msPerDay, msPerHour, msPerMinute, msPerSecond. lia. Qed.

Lemma dated_test (e : Event.t) :
  ¬ timed e → Event.allDay e || negb (includesChar ":"%char (Event.start e)) = true.
Proof.
  unfold timed. intros Hnt.
  destruct (Event.allDay e), (includesChar ":"%char (Event.start e)); try done.
  by destruct Hnt.
Qed.

(** An all-day event, or one without a time, is in a range when the day
    of its start is one of the days of the range: its end plays no role. *)
Lemma eventInRange_dated_by_start_day (e : Event.t) (start end_ : Date) :
  ¬ timed e →
  Part000.eventInRange tz e start end_ = true
  ↔ day tz start <= day tz (Event.startDate e) <= day tz end_.
Proof.
  intros Hnt. rewrite Part000_eventInRange_dated by done.
  rewrite bool_decide_eq_true, !midnight_le_iff. tauto.
Qed.

(** On events that are not repeated, [eventInRange] of [event-utils.js]
    and [eventInRange] of [part_000] agree. *)
Lemma eventInRange_revisions_agree (e : Event.t) (start end_ : Date) :
  Event.repeat e = None →
  EventUtils.eventInRange tz e start end_ = Part000.eventInRange tz e start end_.
Proof.
  intros Hrep. destruct (timed_dec e) as [Ht | Hnt].
  - by rewrite Part000_eventInRange_timed, EventUtils_eventInRange_timed.
  - unfold EventUtils.eventInRange, Part000.eventInRange.
    rewrite (dated_test e Hnt), Hrep. cbv zeta. rewrite orb_false_r. f_equal.
    apply eq_iff_eq_true. rewrite !Z.leb_le, midnight_le_iff, midnight_le_end_of_day.
    tauto.
Qed.

(** Of two timed events, the one is in the interval of the other exactly
    when the other is in the interval of the one. *)
Lemma eventInRange_timed_symmetric (e e2 : Event.t) :
  timed e → timed e2 →
  Part000.eventInRange tz e2 (Event.startDate e) (Event.endDate e)
    = Part000.eventInRange tz e (Event.startDate e2) (Event.endDate e2).
Proof.
  intros Ht Ht2. rewrite !Part000_eventInRange_timed by done.
  apply bool_decide_ext. tauto.
Qed.

(** A timed event that starts when another ends, or later, is not in the
    interval of the other. *)
Lemma eventInRange_consecutive (e e2 : Event.t) :
  timed e2 → Event.endDate e <= Event.startDate e2 →
  Part000.eventInRange tz e2 (Event.startDate e) (Event.endDate e) = false.
Proof.
  intros Ht2 Hle. rewrite Part000_eventInRange_timed by done.
  apply bool_decide_eq_false. lia.
Qed.

(** *** Repeated events *)

Lemma recurringEventInRange_loop_step (fuel : nat) (event : Event.t) (r : Repeat.t)
    (endTimestamp : Z) (tmpDate : Date) :
  EventUtils.recurringEventInRange_loop tz (S fuel) event r endTimestamp tmpDate
    = if tmpDate <? endTimestamp then
        if repeatsOn tz event r tmpDate then Some true
        else EventUtils.recurringEventInRange_loop tz fuel event r endTimestamp
               (addDays tz tmpDate 1)
      else Some false.
Proof. reflexivity. Qed.

Lemma recurringEventInRange_loop_days (fuel : nat) (event : Event.t) (r : Repeat.t)
    (endTimestamp : Z) (tmpDate : Date) :
  (endTimestamp - tmpDate) / msPerDay + 1 <= Z.of_nat fuel →
  ∃ b, EventUtils.recurringEventInRange_loop tz fuel event r endTimestamp tmpDate = Some b
       ∧ (b = true ↔ ∃ k, 0 <= k ∧ tmpDate + k * msPerDay < endTimestamp
                          ∧ repeatsOn tz event r (tmpDate + k * msPerDay) = true).
Proof.
  revert tmpDate. induction fuel as [| fuel IH]; intros tmpDate Hfuel.
  - exists false. cbn [EventUtils.recurringEventInRange_loop]. unfold getTime.
    destruct (Z.ltb_spec tmpDate endTimestamp) as [Hlt | Hge].
    + assert (0 <= (endTimestamp - tmpDate) / msPerDay)
        by (apply Z.div_pos; unfold msPerDay; lia).
      lia.
    + split; [done |]. split; [done |]. intros (k & Hk & Hlt & _).
      unfold msPerDay in *. lia.
  - rewrite recurringEventInRange_loop_step.
    destruct (Z.ltb_spec tmpDate endTimestamp) as [Hlt | Hge].
    + destruct (repeatsOn tz event r tmpDate) eqn:Eon.
      * exists true. split; [done |]. split; [| done]. intros _. exists 0.
        rewrite Z.mul_0_l, Z.add_0_r. done.
      * destruct (IH (addDays tz tmpDate 1)) as (b & -> & Hb).
        { rewrite addDays_time.
          replace (endTimestamp - (tmpDate + 1 * msPerDay))
            with (endTimestamp - tmpDate + (-1) * msPerDay) by lia.
          rewrite Z.div_add by (unfold msPerDay; lia). lia. }
        exists b. split; [done |]. rewrite Hb, addDays_time. split.
        -- intros (k & Hk & Hlt' & Hon). exists (k + 1).
           replace (tmpDate + (k + 1) * msPerDay) with (tmpDate + 1 * msPerDay + k * msPerDay)
             by lia.
           split; [lia | done].
        -- intros (k & Hk & Hlt' & Hon).
           assert (k ≠ 0).
           { intros ->. rewrite Z.mul_0_l, Z.add_0_r in Hon. congruence. }
           exists (k - 1).
           replace (tmpDate + 1 * msPerDay + (k - 1) * msPerDay) with (tmpDate + k * msPerDay)
             by lia.
           split; [lia | done].
    + exists false. split; [done |]. split; [done |]. intros (k & Hk & Hlt & _).
      unfold msPerDay in *. lia.
Qed.

Lemma recurringEventInRange_unfold (event : Event.t) (r : Repeat.t) (start end_ : Date) :
  EventUtils.recurringEventInRange tz event r start end_
    = if end_ <=? Event.startDate event then false
      else default false
             (EventUtils.recurringEventInRange_loop tz
                (Z.to_nat ((repeatEnd r end_ - start) / msPerDay + 1))
                event r (repeatEnd r end_) start).
Proof. reflexivity. Qed.

(** [recurringEventInRange] holds when the range ends after the start of
    the event and one of the days it visits, from [start] on and before
    the end of the range and the end of the repetition, repeats the
    event. *)
Lemma recurringEventInRange_visits_days (event : Event.t) (r : Repeat.t)
    (start end_ : Date) :
  EventUtils.recurringEventInRange tz event r start end_ = true
  ↔ Event.startDate event < end_
    ∧ ∃ k, 0 <= k ∧ start + k * msPerDay < repeatEnd r end_
           ∧ repeatsOn tz event r (start + k * msPerDay) = true.
Proof.
  rewrite recurringEventInRange_unfold.
  destruct (Z.leb_spec end_ (Event.startDate event)) as [Hle | Hlt].
  - split; [done | lia].
  - destruct (recurringEventInRange_loop_days
                (Z.to_nat ((repeatEnd r end_ - start) / msPerDay + 1))
                event r (repeatEnd r end_) start) as (b & -> & Hb).
    { lia. }
    cbn [default from_option id]. rewrite Hb. tauto.
Qed.

Lemma repeatsOn_no_rule (event : Event.t) (r : Repeat.t) (d : Date) :
  Repeat.weekdays r = None → Repeat.every r ≠ "month" → Repeat.every r ≠ "year" →
  repeatsOn tz event r d = false.
Proof.
  intros Hw Hm Hy. unfold repeatsOn. cbv zeta. rewrite Hw.
  by rewrite (bool_decide_eq_false_2 _ Hm), (bool_decide_eq_false_2 _ Hy).
Qed.

(** A timed event with a repeat rule that names no weekdays and is neither
    monthly nor yearly is in no range, not even in its own interval. *)
Lemma eventInRange_repeat_without_days (e : Event.t) (r : Repeat.t) (start end_ : Date) :
  timed e → Event.repeat e = Some r →
  Repeat.weekdays r = None → Repeat.every r ≠ "month" → Repeat.every r ≠ "year" →
  EventUtils.eventInRange tz e start end_ = false.
Proof.
  intros [Hall Hcolon] Hrep Hw Hm Hy. unfold EventUtils.eventInRange.
  rewrite Hall, Hcolon, Hrep. cbn [negb orb].
  apply not_true_is_false. rewrite recurringEventInRange_visits_days.
  intros (_ & k & _ & _ & Hon). by rewrite repeatsOn_no_rule in Hon.
Qed.
End Ranges.

(** ** createEventSegments *)

Section SegmentsOfEvents.
Import JS DateUtils.
Variable tz : Z.

Lemma formatDateLite_dayKey (d : Date) : formatDateLite tz d = dayKey tz (day tz d).
Proof.
  unfold dayKey. apply formatDateLite_same_key_same_day.
  by rewrite day_fromLocal_midnight.
Qed.

Lemma dayKey_inj (a b : Z) : dayKey tz a = dayKey tz b → a = b.
Proof.
  unfold dayKey. rewrite formatDateLite_same_key_same_day.
  by rewrite !day_fromLocal_midnight.
Qed.

Lemma lookup_daysSegments_Some (f : Z → Segment.t) (d0 : Z) (j : nat) (k : string) :
  is_Some (daysSegments tz f d0 j !! k) →
  ∃ n, d0 <= n < d0 + Z.of_nat j ∧ k = dayKey tz n.
Proof.
  induction j as [| j IH]; cbn [daysSegments].
  - rewrite lookup_empty. by intros [? ?].
  - destruct (decide (dayKey tz (d0 + Z.of_nat j) = k)) as [<- | Hne].
    + intros _. exists (d0 + Z.of_nat j). split; [lia | done].
    + rewrite lookup_insert_ne by done. intros H.
      destruct (IH H) as (n & Hn & ->). exists n. split; [lia | done].
Qed.

Lemma lookup_daysSegments (f : Z → Segment.t) (d0 : Z) (j : nat) (n : Z) :
  d0 <= n < d0 + Z.of_nat j → daysSegments tz f d0 j !! dayKey tz n = Some (f n).
Proof.
  induction j as [| j IH]; cbn [daysSegments]; intros Hn; [lia |].
  destruct (decide (n = d0 + Z.of_nat j)) as [-> | Hne].
  - by rewrite lookup_insert_eq.
  - rewrite lookup_insert_ne by (intros E; apply dayKey_inj in E; lia).
    apply IH. lia.
Qed.


Lemma day_turnTimestamp (first : Z) (j : nat) :
  day tz (turnTimestamp tz first j) = day tz first + Z.of_nat j.
Proof.
  destruct j as [| j]; cbn [turnTimestamp]; [lia |]. apply day_fromLocal_midnight.
Qed.

Lemma next_turnTimestamp (first : Z) (j : nat) :
  setHours4 tz (addDays tz (turnTimestamp tz first j) 1) 0 0 0 0
    = turnTimestamp tz first (S j).
Proof.
  rewrite addDays_time. unfold setHours4. rewrite day_plus_days, day_turnTimestamp.
  cbn [turnTimestamp]. f_equal. lia.
Qed.

Lemma midnight_le_day (n : Z) (d : Date) : fromLocal tz (n * msPerDay) <= d ↔ n <= day tz d.
Proof.
  unfold fromLocal, day, localTime, msPerDay, msPerMinute.
  pose proof (Z.div_mod (d - tz * 60000) 86400000).
  pose proof (Z.mod_pos_bound (d - tz * 60000) 86400000). lia.
Qed.

Lemma first_turn_only (first : Z) (j : nat) :
  turnTimestamp tz first j <= first → j = O.
Proof.
  destruct j as [| j]; [done |]. cbn [turnTimestamp]. rewrite midnight_le_day. lia.
Qed.

Section OneEvent.
Variable e : Event.t.
Variables viewStartDate viewEndDate : Date.
Hypothesis Hrepeat : Event.repeat e = None.
Hypothesis Hkeyed : startKeyed tz e.

Let first := firstTimestamp e viewStartDate.
Let last := lastTimestamp tz e viewEndDate.
Let f := segmentOfDay tz e viewStartDate viewEndDate.

Lemma turn_le_last (j : nat) :
  turnTimestamp tz first j <= last ↔ (j < segmentDays tz e viewStartDate viewEndDate)%nat.
Proof.
  unfold segmentDays. fold first last.
  destruct (Z.leb_spec first last) as [Hle | Hgt].
  - pose proof (day_mono tz _ _ Hle).
    destruct j as [| j]; cbn [turnTimestamp]; [lia |].
    rewrite midnight_le_day. lia.
  - split; [| lia]. intros H. exfalso.
    destruct j as [| j]; cbn [turnTimestamp] in H; [lia |].
    apply midnight_le_day in H.
    assert (last < first) by lia.
    pose proof (day_mono tz last first ltac:(lia)). lia.
Qed.

Lemma createEventSegments_body_turn (j : nat) :
  turnTimestamp tz first j <= last →
  Part000.createEventSegments_body tz e last
    (Part000.mkLoop (turnTimestamp tz first j) (getTime (Event.startDate e))
       (segmentsEnd tz e) None false (daysSegments tz f (day tz first) j))
  = Part000.mkLoop (turnTimestamp tz first (S j)) (getTime (Event.startDate e))
      (segmentsEnd tz e) None false (daysSegments tz f (day tz first) (S j)).
Proof.
  intros Hle. unfold Part000.createEventSegments_body. rewrite Hrepeat.
  cbn [Part000.timestamp Part000.eventStart Part000.eventEnd
       Part000.eventStartAtMidnight Part000.repeatedEventStartFound
       Part000.loopSegments].
  cbv zeta. rewrite next_turnTimestamp. f_equal. cbn [daysSegments].
  set (n := day tz first + Z.of_nat j).
  assert (Hday : day tz (turnTimestamp tz first j) = n) by apply day_turnTimestamp.
  assert (Hn : n <= day tz last) by (rewrite <- Hday; by apply day_mono).
  (* the first day *)
  assert (Efirst : (turnTimestamp tz first j =? getTime (Event.startDate e))
                   = bool_decide (n = day tz first
                                  ∧ getTime viewStartDate <= getTime (Event.startDate e))).
  { assert (Hf : first = Z.max (getTime viewStartDate) (getTime (Event.startDate e)))
      by reflexivity.
    destruct (Z.eqb_spec (turnTimestamp tz first j) (getTime (Event.startDate e)))
      as [E | E]; symmetry.
    - assert (j = O) by (apply (first_turn_only first); lia). subst j.
      cbn [turnTimestamp] in E. apply bool_decide_eq_true. unfold n. lia.
    - apply bool_decide_eq_false. intros [E1 E2].
      assert (j = O) by (unfold n in E1; lia). subst j. cbn [turnTimestamp] in E. lia. }
  (* the last day *)
  assert (Elast : (last =? segmentsEnd tz e) && (last <? turnTimestamp tz first (S j))
                  = bool_decide (n = day tz last
                                 ∧ segmentsEnd tz e <= getTime viewEndDate)).
  { assert (Hlt : last < turnTimestamp tz first (S j) ↔ day tz last <= n).
    { cbn [turnTimestamp].
      pose proof (midnight_le_day (day tz first + Z.of_nat (S j)) last). lia. }
    assert (Hl : last = Z.min (getTime viewEndDate) (segmentsEnd tz e)) by reflexivity.
    destruct (Z.eqb_spec last (segmentsEnd tz e)) as [E | E];
      destruct (Z.ltb_spec last (turnTimestamp tz first (S j))) as [E' | E'];
      cbn [andb]; symmetry;
      first [apply bool_decide_eq_true; lia | apply bool_decide_eq_false; lia]. }
  rewrite Efirst, Elast. clear Efirst Elast.
  (* the key and the date *)
  assert (Ekey : (if bool_decide (n = day tz first
                                  ∧ getTime viewStartDate <= getTime (Event.startDate e))
                  then substr0 10 (Event.start e)
                  else formatDateLite tz
                         (if bool_decide (n = day tz first
                               ∧ getTime viewStartDate <= getTime (Event.startDate e))
                          then Event.startDate e else turnTimestamp tz first j))
                 = dayKey tz n).
  { case_bool_decide as Hc.
    - destruct Hc as [Hc Hv]. rewrite Hkeyed, formatDateLite_dayKey, Hc.
      assert (E : Event.startDate e = first)
        by (unfold first, firstTimestamp, getTime, Date in *; lia).
      by rewrite E.
    - by rewrite formatDateLite_dayKey, Hday. }
  rewrite Ekey. clear Ekey.
  assert (Edate : (if bool_decide (n = day tz first
                                   ∧ getTime viewStartDate <= getTime (Event.startDate e))
                   then Event.startDate e else turnTimestamp tz first j)
                  = (if bool_decide (n = day tz first) then first
                     else fromLocal tz (n * msPerDay))).
  { case_bool_decide as Hc.
    - destruct Hc as [Hc Hv]. rewrite bool_decide_eq_true_2 by done.
      unfold first, firstTimestamp, getTime in *. lia.
    - case_bool_decide as Hc'.
      + assert (j = O) by lia. by subst j.
      + destruct j as [| j]; [lia |]. done. }
  rewrite Edate. reflexivity.
Qed.

Lemma createEventSegments_loop_turns (fuel j : nat) :
  (j <= segmentDays tz e viewStartDate viewEndDate)%nat →
  (segmentDays tz e viewStartDate viewEndDate - j <= fuel)%nat →
  Part000.createEventSegments_loop tz fuel e last
    (Part000.mkLoop (turnTimestamp tz first j) (getTime (Event.startDate e))
       (segmentsEnd tz e) None false (daysSegments tz f (day tz first) j))
  = Some (Part000.mkLoop
            (turnTimestamp tz first (segmentDays tz e viewStartDate viewEndDate))
            (getTime (Event.startDate e)) (segmentsEnd tz e) None false
            (daysSegments tz f (day tz first)
               (segmentDays tz e viewStartDate viewEndDate))).
Proof.
  revert j. induction fuel as [| fuel IH]; intros j Hj Hfuel;
    cbn [Part000.createEventSegments_loop Part000.timestamp];
    destruct (Z.leb_spec (turnTimestamp tz first j) last) as [Hle | Hgt].
  - apply turn_le_last in Hle. lia.
  - assert (j = segmentDays tz e viewStartDate viewEndDate).
    { pose proof (turn_le_last j). lia. }
    by subst j.
  - rewrite createEventSegments_body_turn by done.
    apply turn_le_last in Hle. apply IH; lia.
  - assert (j = segmentDays tz e viewStartDate viewEndDate).
    { pose proof (turn_le_last j). lia. }
    by subst j.
Qed.

Lemma createEventSegments_daysSegments :
  Part000.createEventSegments tz e viewStartDate viewEndDate
    = Some (Event.set_segments
              (Some (daysSegments tz f (day tz first)
                       (segmentDays tz e viewStartDate viewEndDate))) e).
Proof.
  assert (E : Part000.createEventSegments tz e viewStartDate viewEndDate
              = st ← Part000.createEventSegments_loop tz
                       (Part000.createEventSegments_fuel first last) e last
                       (Part000.mkLoop first (getTime (Event.startDate e))
                          (segmentsEnd tz e) None false ∅);
                Some (Event.set_segments (Some (Part000.loopSegments st)) e)).
  { unfold Part000.createEventSegments. rewrite Hrepeat. reflexivity. }
  rewrite E.
  rewrite (createEventSegments_loop_turns _ O); [done | lia |].
  unfold Part000.createEventSegments_fuel, segmentDays. fold first last.
  destruct (Z.leb_spec first last); [| lia].
  pose proof (days_between tz first last). lia.
Qed.
End OneEvent.

(** For an event that is not repeated and whose [start] begins with the
    day of its start date, [createEventSegments] makes one segment for
    every day of the part of the event that the view shows, and no other:
    the segment of the day is under the key of the day. *)
Lemma createEventSegments_one_segment_per_day (e : Event.t)
    (viewStartDate viewEndDate : Date) :
  Event.repeat e = None → startKeyed tz e →
  let first := firstTimestamp e viewStartDate in
  let last := lastTimestamp tz e viewEndDate in
  ∃ sg,
    Part000.createEventSegments tz e viewStartDate viewEndDate
      = Some (Event.set_segments (Some sg) e)
    ∧ (∀ k, is_Some (sg !! k)
            ↔ first <= last ∧ ∃ n, day tz first <= n <= day tz last ∧ k = dayKey tz n)
    ∧ (∀ n, first <= last → day tz first <= n <= day tz last →
            sg !! dayKey tz n = Some (segmentOfDay tz e viewStartDate viewEndDate n)).
Proof.
  intros Hrepeat Hkeyed first last.
  eexists. split; [by apply createEventSegments_daysSegments |].
  assert (Hdays : ∀ n, first <= last → day tz first <= n <= day tz last →
                       day tz first <= n
                         < day tz first
                           + Z.of_nat (segmentDays tz e viewStartDate viewEndDate)).
  { intros n Hle Hn. unfold segmentDays. fold first last.
    destruct (Z.leb_spec first last); lia. }
  split.
  - intros k. split.
    + intros H. apply lookup_daysSegments_Some in H as (n & Hn & ->).
      unfold segmentDays in Hn. fold first last in Hn.
      destruct (Z.leb_spec first last); [| lia].
      split; [done |]. exists n. split; [lia | done].
    + intros (Hle & n & Hn & ->). rewrite lookup_daysSegments; [done |]. by apply Hdays.
  - intros n Hle Hn. apply lookup_daysSegments. by apply Hdays.
Qed.


(** An event of which the view shows nothing gets an empty mapping, not
    [null]. *)
Lemma createEventSegments_outside_view (e : Event.t) (viewStartDate viewEndDate : Date) :
  Event.repeat e = None →
  lastTimestamp tz e viewEndDate < firstTimestamp e viewStartDate →
  Part000.createEventSegments tz e viewStartDate viewEndDate
    = Some (Event.set_segments (Some ∅) e).
Proof.
  intros Hrepeat Hlt. unfold Part000.createEventSegments. rewrite Hrepeat.
  fold (segmentsEnd tz e). cbv zeta.
  fold (firstTimestamp e viewStartDate). fold (lastTimestamp tz e viewEndDate).
  destruct (Part000.createEventSegments_fuel _ _);
    cbn [Part000.createEventSegments_loop Part000.timestamp];
    by rewrite (proj2 (Z.leb_gt _ _) Hlt).
Qed.
End SegmentsOfEvents.

(** ** createEventSegments in event-utils.js *)

Section SegmentsRevisions.
Import JS DateUtils.
Variable tz : Z.

Lemma getMilliseconds_next_day (t : Date) :
  getMilliseconds tz (t + EventUtils.dayMilliseconds) = getMilliseconds tz t.
Proof.
  unfold getMilliseconds, timeWithinDay, localTime, EventUtils.dayMilliseconds.
  replace (t + 24 * 3600 * 1000 - tz * msPerMinute)
    with (t - tz * msPerMinute + 1 * msPerDay) by (unfold msPerDay; lia).
  by rewrite Z.mod_add by (unfold msPerDay; lia).
Qed.

Lemma day_next_day (t : Date) : day tz (t + EventUtils.dayMilliseconds) = day tz t + 1.
Proof. exact (day_plus_days tz t 1). Qed.

Lemma timeWithinDay_midnight (n : Z) : timeWithinDay tz (fromLocal tz (n * msPerDay)) = 0.
Proof.
  unfold timeWithinDay, localTime, fromLocal.
  replace (n * msPerDay + tz * msPerMinute - tz * msPerMinute) with (n * msPerDay) by lia.
  apply Z.mod_mul. unfold msPerDay. lia.
Qed.

Lemma EventUtils_next_midnight (t : Date) :
  setHours3 tz (t + EventUtils.dayMilliseconds) 0 0 0
    = fromLocal tz ((day tz t + 1) * msPerDay + getMilliseconds tz t).
Proof.
  unfold setHours3, setHours4. rewrite getMilliseconds_next_day, day_next_day.
  f_equal. lia.
Qed.

Lemma Part000_next_midnight (t : Date) :
  setHours4 tz (addDays tz t 1) 0 0 0 0 = fromLocal tz ((day tz t + 1) * msPerDay).
Proof.
  rewrite addDays_time. unfold setHours4. rewrite day_plus_days. f_equal. lia.
Qed.

Lemma day_EventUtils_next_midnight (t : Date) :
  day tz (setHours3 tz (t + EventUtils.dayMilliseconds) 0 0 0) = day tz t + 1.
Proof.
  rewrite EventUtils_next_midnight. pose proof (getMilliseconds_range tz t).
  unfold day, localTime, fromLocal, msPerDay, msPerMinute in *.
  replace ((((t - tz * 60000) / 86400000 + 1) * 86400000 + getMilliseconds tz t
            + tz * 60000 - tz * 60000))
    with (getMilliseconds tz t + ((t - tz * 60000) / 86400000 + 1) * 86400000) by lia.
  rewrite Z.div_add by lia. rewrite Z.div_small by lia. lia.
Qed.

Lemma EventUtils_createEventSegments_loop_ends (fuel : nat) (e : Event.t)
    (eventStart eventEnd end_ : Z) (st : EventUtils.SegmentsLoop) :
  day tz end_ - day tz (EventUtils.timestamp st) + 1 <= Z.of_nat fuel →
  is_Some (EventUtils.createEventSegments_loop tz fuel e eventStart eventEnd end_ st).
Proof.
  revert st. induction fuel as [| fuel IH]; intros st Hfuel;
    cbn [EventUtils.createEventSegments_loop];
    destruct (Z.leb_spec (EventUtils.timestamp st) end_) as [Hle | ?]; try by eauto.
  - apply (day_mono tz) in Hle. lia.
  - apply IH. unfold EventUtils.createEventSegments_body. cbv zeta.
    cbn [EventUtils.timestamp]. rewrite day_EventUtils_next_midnight. lia.
Qed.

(** [createEventSegments] of [event-utils.js] returns. *)
Lemma EventUtils_createEventSegments_returns (e : Event.t)
    (viewStartDate viewEndDate : Date) :
  is_Some (EventUtils.createEventSegments tz e viewStartDate viewEndDate).
Proof.
  unfold EventUtils.createEventSegments. cbv zeta.
  match goal with
  | |- context [EventUtils.createEventSegments_loop tz ?fuel e ?s ?t ?end_ ?st] =>
      destruct (EventUtils_createEventSegments_loop_ends fuel e s t end_ st) as [st' ->]
  end; [| by eauto].
  cbn [EventUtils.timestamp]. unfold Part000.createEventSegments_fuel.
  match goal with
  | |- day tz ?b - day tz ?a + 1 <= _ => pose proof (days_between tz a b)
  end.
  lia.
Qed.

Section OneEvent.
Variable e : Event.t.
Variables eventEnd end_ : Z.
Hypothesis Hrepeat : Event.repeat e = None.
Hypothesis Hend : end_ = eventEnd → timeWithinDay tz end_ ≠ 0.

Lemma createEventSegments_bodies_agree (t : Z) (sg : gmap string Segment.t) :
  getMilliseconds tz t = 0 →
  let st := Part000.createEventSegments_body tz e end_
              (Part000.mkLoop t (getTime (Event.startDate e)) eventEnd None false sg) in
  EventUtils.createEventSegments_body tz e (getTime (Event.startDate e)) eventEnd end_
    (EventUtils.mkLoop t sg)
    = EventUtils.mkLoop (Part000.timestamp st) (Part000.loopSegments st)
  ∧ st = Part000.mkLoop (Part000.timestamp st) (getTime (Event.startDate e)) eventEnd
           None false (Part000.loopSegments st)
  ∧ getMilliseconds tz (Part000.timestamp st) = 0.
Proof.
  intros Hms st. subst st.
  unfold Part000.createEventSegments_body, EventUtils.createEventSegments_body.
  rewrite Hrepeat.
  cbn [Part000.timestamp Part000.eventStart Part000.eventEnd
       Part000.eventStartAtMidnight Part000.repeatedEventStartFound
       Part000.loopSegments EventUtils.timestamp EventUtils.loopSegments].
  cbv zeta.
  rewrite EventUtils_next_midnight, Part000_next_midnight, Hms, Z.add_0_r.
  set (nextMidnight := fromLocal tz ((day tz t + 1) * msPerDay)).
  assert (Elast : (end_ =? eventEnd) && (end_ <=? nextMidnight)
                  = (end_ =? eventEnd) && (end_ <? nextMidnight)).
  { destruct (Z.eqb_spec end_ eventEnd) as [E | E]; [| done]. cbn [andb].
    assert (end_ ≠ nextMidnight).
    { intros Eq. apply (Hend E). rewrite Eq. apply timeWithinDay_midnight. }
    destruct (Z.leb_spec end_ nextMidnight), (Z.ltb_spec end_ nextMidnight);
      (done || lia). }
  rewrite Elast. split; [reflexivity |]. split; [reflexivity |].
  unfold getMilliseconds, nextMidnight. by rewrite timeWithinDay_midnight.
Qed.

Lemma createEventSegments_loops_agree (fuel : nat) (t : Z) (sg : gmap string Segment.t) :
  getMilliseconds tz t = 0 →
  EventUtils.createEventSegments_loop tz fuel e (getTime (Event.startDate e)) eventEnd
    end_ (EventUtils.mkLoop t sg)
  = (fun st => EventUtils.mkLoop (Part000.timestamp st) (Part000.loopSegments st))
      <$> Part000.createEventSegments_loop tz fuel e end_
            (Part000.mkLoop t (getTime (Event.startDate e)) eventEnd None false sg).
Proof.
  revert t sg. induction fuel as [| fuel IH]; intros t sg Hms;
    cbn [Part000.createEventSegments_loop EventUtils.createEventSegments_loop
         Part000.timestamp EventUtils.timestamp];
    destruct (t <=? end_); try done.
  destruct (createEventSegments_bodies_agree t sg Hms) as (E1 & E2 & E3).
  rewrite E1, E2. by apply IH.
Qed.
End OneEvent.

(** For an event that is not repeated, [createEventSegments] of
    [event-utils.js] and of [part_000] make the same segments, when the
    first instant to show is a full second and the event does not end
    at midnight sharp once its last second is taken off. *)
Lemma createEventSegments_revisions_agree (e : Event.t) (viewStartDate viewEndDate : Date) :
  Event.repeat e = None →
  getMilliseconds tz (firstTimestamp e viewStartDate) = 0 →
  timeWithinDay tz (segmentsEnd tz e) ≠ 0 →
  EventUtils.createEventSegments tz e viewStartDate viewEndDate
    = Part000.createEventSegments tz e viewStartDate viewEndDate.
Proof.
  intros Hrepeat Hms Hend.
  unfold EventUtils.createEventSegments, Part000.createEventSegments.
  rewrite Hrepeat. fold (segmentsEnd tz e). cbv zeta.
  fold (firstTimestamp e viewStartDate). fold (lastTimestamp tz e viewEndDate).
  rewrite createEventSegments_loops_agree; [| done | by intros -> | done].
  by destruct (Part000.createEventSegments_loop _ _ _ _ _).
Qed.
End SegmentsRevisions.

(** ** Creation, deletion and resizing *)

Section Ids.
Import JS DateUtils.
Variable tz : Z.
Variable Date_parse : string → Date.
Variable addEventsToView : list Event.t → Vuecal.t → list Event.t * Vuecal.t.

Lemma Number_toString_underscore (n : Z) :
  includesChar "_"%char (Number_toString n) = false.
Proof.
  assert (Hsep : separator "_"%char) by (right; by left).
  unfold Number_toString. destruct (n <? 0).
  - cbn [includesChar]. change (Ascii.eqb "-"%char "_"%char) with false. cbv iota.
    by rewrite digits_separator.
  - by rewrite digits_separator.
Qed.

Lemma newEvent_eid (d : Date) (o : EventOptions.t) (v : Vuecal.t) :
  EventOptions._eid o = None →
  Event._eid (Part000.newEvent tz Date_parse d o v).1
    = Number_toString (Vuecal._uid v) +:+ "_"
        +:+ Number_toString (Vuecal.eventIdIncrement v).
Proof.
  intros Ho. unfold Part000.newEvent. cbv zeta.
  cbn [fst EventOptions.spread Event._eid]. by rewrite Ho.
Qed.

Lemma newEvent_counter (d : Date) (o : EventOptions.t) (v : Vuecal.t) :
  Vuecal._uid (Part000.newEvent tz Date_parse d o v).2 = Vuecal._uid v
  ∧ Vuecal.eventIdIncrement (Part000.newEvent tz Date_parse d o v).2
    = Vuecal.eventIdIncrement v + 1.
Proof. done. Qed.

(** Two events that are created without an id of their own have the same
    id only when they come from components of the same number at the same
    count; an event and the next one of the same component have different
    ids. *)
Lemma created_ids (d d' : Date) (o o' : EventOptions.t) (v v' : Vuecal.t) :
  EventOptions._eid o = None → EventOptions._eid o' = None →
  (Event._eid (Part000.newEvent tz Date_parse d o v).1
     = Event._eid (Part000.newEvent tz Date_parse d' o' v').1
   ↔ Vuecal._uid v = Vuecal._uid v'
     ∧ Vuecal.eventIdIncrement v = Vuecal.eventIdIncrement v')
  ∧ Event._eid (Part000.newEvent tz Date_parse d' o'
                  (Part000.newEvent tz Date_parse d o v).2).1
    ≠ Event._eid (Part000.newEvent tz Date_parse d o v).1.
Proof.
  intros Ho Ho'.
  assert (Hiff : ∀ d d' v v',
    Event._eid (Part000.newEvent tz Date_parse d o v).1
      = Event._eid (Part000.newEvent tz Date_parse d' o' v').1
    ↔ Vuecal._uid v = Vuecal._uid v'
      ∧ Vuecal.eventIdIncrement v = Vuecal.eventIdIncrement v').
  { clear d d' v v'. intros d d' v v'. rewrite !newEvent_eid by done. split.
    - change (?a +:+ "_" +:+ ?b) with (a +:+ String "_"%char b). intros E.
      apply (string_app_pivot "_"%char) in E as [E1 E2];
        [| apply Number_toString_underscore ..].
      split; by apply Number_toString_inj.
    - by intros [-> ->]. }
  split; [apply Hiff |].
  intros E. rewrite !newEvent_eid in E by done.
  destruct (newEvent_counter d o v) as [Eu Ec]. rewrite Eu, Ec in E.
  change (?a +:+ "_" +:+ ?b) with (a +:+ String "_"%char b) in E.
  apply (string_app_pivot "_"%char) in E as [_ E2];
    [| apply Number_toString_underscore ..].
  apply Number_toString_inj in E2. lia.
Qed.

Lemma deleteAnEvent_counter (calls : list Event.t) (v : Vuecal.t) :
  Vuecal.eventIdIncrement
    (fold_left (fun vuecal event => Part000.deleteAnEvent event vuecal) calls v)
    = Vuecal.eventIdIncrement v.
Proof.
  revert v. induction calls as [| c calls IH]; intros v; [done |].
  cbn [fold_left]. by rewrite IH.
Qed.

Lemma insertEvent_counter (event : Event.t) (v : Vuecal.t) :
  (∀ events v, Vuecal.eventIdIncrement (addEventsToView events v).2
               = Vuecal.eventIdIncrement v) →
  Vuecal.eventIdIncrement (Part000.insertEvent tz addEventsToView event v).2
    = Vuecal.eventIdIncrement v.
Proof.
  intros Hview. unfold Part000.insertEvent. cbv zeta.
  match goal with
  | |- context [addEventsToView ?evs ?v0] =>
      pose proof (Hview evs v0) as Hsame; destruct (addEventsToView evs v0) as [events v']
  end.
  cbn [snd Vuecal.emitWithEvent Vuecal.eventIdIncrement Vuecal.set_mutableEvents] in *.
  exact Hsame.
Qed.

(** A call of [createAnEvent] with a date or a string uses up one id,
    whether an event comes out of it or the hook refuses it; a call
    with anything else uses none. *)
Lemma createAnEvent_counter (dateTime : Part000.DateTimeArg) (o : EventOptions.t)
    (v : Vuecal.t) :
  (∀ events v, Vuecal.eventIdIncrement (addEventsToView events v).2
               = Vuecal.eventIdIncrement v) →
  Vuecal.eventIdIncrement
    (Part000.createAnEvent tz Date_parse addEventsToView dateTime o v).2
    = Vuecal.eventIdIncrement v
      + (if instantOf Date_parse dateTime is Some _ then 1 else 0).
Proof.
  intros Hview.
  assert (Hdate : ∀ d,
    Vuecal.eventIdIncrement
      (Part000.createAnEvent tz Date_parse addEventsToView (Part000.ADate d) o v).2
      = Vuecal.eventIdIncrement v + 1).
  { intros d. unfold Part000.createAnEvent.
    destruct (newEvent_counter d o v) as [_ Ec].
    destruct (Part000.newEvent tz Date_parse d o v) as [event v1]. cbn [snd] in Ec.
    destruct (Vuecal.onEventCreate v1) as [hook |].
    - destruct (Vuecal.verdict (hook event)).
      + pose proof (insertEvent_counter (Vuecal.editedEvent (hook event))
                      (fold_left (fun vuecal event => Part000.deleteAnEvent event vuecal)
                         (Vuecal.deleteCalls (hook event)) v1)
                      Hview) as Ei.
        destruct (Part000.insertEvent _ _ _ _) as [event' v2]. cbn [snd] in *.
        by rewrite Ei, deleteAnEvent_counter.
      + cbn [snd]. by rewrite deleteAnEvent_counter.
    - pose proof (insertEvent_counter event v1 Hview) as Ei.
      destruct (Part000.insertEvent _ _ _ _) as [event' v2]. cbn [snd] in *. lia. }
  destruct dateTime as [d | s |]; cbn [instantOf].
  - apply Hdate.
  - exact (Hdate (Part000.stringToDate Date_parse s)).
  - cbn. lia.
Qed.

(** After [deleteAnEvent] no event of the component has the id of the
    deleted event, the events of other ids are the ones of before, and a
    second deletion leaves the events as they are. *)
Lemma deleteAnEvent_removes (event : Event.t) (v : Vuecal.t) :
  freshId (Event._eid event) (Part000.deleteAnEvent event v)
  ∧ (∀ e, Event._eid e ≠ Event._eid event →
          (e ∈ Vuecal.mutableEvents (Part000.deleteAnEvent event v)
           ↔ e ∈ Vuecal.mutableEvents v)
          ∧ (e ∈ Vuecal.view_events (Part000.deleteAnEvent event v)
             ↔ e ∈ Vuecal.view_events v))
  ∧ Vuecal.mutableEvents (Part000.deleteAnEvent event (Part000.deleteAnEvent event v))
    = Vuecal.mutableEvents (Part000.deleteAnEvent event v)
  ∧ Vuecal.view_events (Part000.deleteAnEvent event (Part000.deleteAnEvent event v))
    = Vuecal.view_events (Part000.deleteAnEvent event v).
Proof.
  destruct (deleteAnEvent_fields event v) as (Em & Ev & _).
  assert (Hfresh : freshId (Event._eid event) (Part000.deleteAnEvent event v)).
  { split; intros e; rewrite ?Em, ?Ev, list_elem_of_filter; tauto. }
  split; [done |]. split.
  - intros e He. rewrite Em, Ev, !list_elem_of_filter. tauto.
  - destruct (deleteAnEvent_fields event (Part000.deleteAnEvent event v)) as (E1 & E2 & _).
    destruct Hfresh as [Hm Hv]. rewrite E1, E2. split; by apply filter_all.
Qed.
End Ids.

Section Shrinking.
Import JS DateUtils.
Variable tz : Z.

(** [removeEventSegment] never takes the last segment away, and never
    leaves [null] for segments: an event of one segment is left as it
    is, and an event of more segments keeps one at least. *)
Lemma removeEventSegment_keeps_a_segment (e : Event.t) (sg : gmap string Segment.t) :
  Event.segments e = Some sg →
  ∃ e' k sg',
    Part000.removeEventSegment tz e = Some (e', k)
    ∧ Event.segments e' = Some sg'
    ∧ ((size sg <= 1)%nat → e' = e)
    ∧ ((1 < size sg)%nat →
       (1 <= size sg')%nat ∧ Event.daysCount e' = Z.of_nat (size sg) - 1).
Proof.
  intros Hsg. unfold Part000.removeEventSegment. rewrite Hsg.
  destruct (Z.leb_spec (Z.of_nat (size sg)) 1) as [Hone | Hmany].
  - exists e, (substr0 10 (Event.end_ e)), sg. split; [done |]. split; [done |].
    split; [done | lia].
  - destruct (Z.eqb_spec (Z.of_nat (size sg) - 1) 0) as [? | _]; [lia |].
    eexists _, _, _. split; [reflexivity |].
    cbn [Event.segments Event.set_end Event.set_endDate Event.set_daysCount
         Event.set_segments Event.daysCount].
    split; [reflexivity |]. split; [lia |]. intros _. split; [| done].
    rewrite size_alter.
    destruct (sg !! substr0 10 (Event.end_ e)) eqn:Ek.
    + rewrite map_size_delete_Some by done. lia.
    + rewrite delete_id by done. lia.
Qed.

(** [removeEventSegment] writes [end], [endDate], [daysCount] and
    [segments], and nothing else. *)
Lemma removeEventSegment_frame (e e' : Event.t) (k : string) :
  Part000.removeEventSegment tz e = Some (e', k) →
  e' = Event.set_end (Event.end_ e')
         (Event.set_endDate (Event.endDate e')
            (Event.set_daysCount (Event.daysCount e')
               (Event.set_segments (Event.segments e') e))).
Proof.
  unfold Part000.removeEventSegment.
  destruct (Event.segments e) as [sg |]; [| done].
  destruct (_ <=? 1).
  - intros [= <- _]. by destruct e.
  - intros [= <- _]. by destruct e.
Qed.

Lemma grown_frame (newSegment : Segment.t) (e : Event.t) (a : string) (b : Date)
    (c : Z) (d : option (gmap string Segment.t)) :
  Event.set_end a (Event.set_endDate b (Event.set_daysCount c
    (Event.set_segments d (grown tz newSegment e))))
  = Event.set_end a (Event.set_endDate b (Event.set_daysCount c
      (Event.set_segments d e))).
Proof. by destruct e. Qed.

(** For an event with segments that is fit for resizing, [addEventSegment]
    followed by [removeEventSegment] gives the event back, every attribute
    of it, and returns the key of its end day. *)
Lemma add_then_remove_gives_the_event_back (e : Event.t) (sg : gmap string Segment.t) :
  resizable tz e → Event.segments e = Some sg →
  Part000.removeEventSegment tz (Part000.addEventSegment tz e).1 = Some (e, endKey tz e).
Proof.
  intros Hres Hsg. rewrite Part000_addEventSegment_grown. cbn [fst].
  match goal with
  | |- context [grown tz ?ns e] =>
      destruct (removeEventSegment_grown tz ns e Hres) as (e' & E & He & Hd & Hc & Hs);
      set (newSegment := ns) in *
  end.
  rewrite E. f_equal. f_equal.
  specialize (Hs ltac:(by rewrite Hsg)).
  rewrite (removeEventSegment_frame _ _ _ E), (grown_frame newSegment e).
  rewrite He, Hd, Hc, Hs. by destruct e.
Qed.
End Shrinking.

(** ** The table of overlaps is the graph of the events that overlap *)

Section ExactTable.
Import JS Overlaps.
Variable eventInRange : Event.t → Date → Date → bool.
Variable options : Options.

Lemma earlier_elem_of (l : list Event.t) (e e2 : Event.t) :
  earlier l e e2 → e ∈ l ∧ e2 ∈ l.
Proof.
  induction l as [| x l IH]; cbn [earlier]; [done |].
  intros [[-> H] | H]; [split; [left | by right] |].
  destruct (IH H). split; by right.
Qed.

Lemma earlier_ids (l : list Event.t) (e e2 : Event.t) :
  NoDup (Event._eid <$> l) → earlier l e e2 → Event._eid e ≠ Event._eid e2.
Proof.
  induction l as [| x l IH]; cbn [earlier]; [done |].
  rewrite fmap_cons. intros [Hx Hl]%NoDup_cons [[-> H] | H]; [| by apply IH].
  intros E. apply Hx. rewrite E. by apply list_elem_of_fmap_2.
Qed.

Lemma earlier_total (l : list Event.t) (e e2 : Event.t) :
  e ∈ l → e2 ∈ l → e ≠ e2 → earlier l e e2 ∨ earlier l e2 e.
Proof.
  induction l as [| x l IH]; [by intros ?%elem_of_nil |].
  intros [-> | He]%elem_of_cons [-> | He2]%elem_of_cons Hne; cbn [earlier];
    [done | by left; left | by right; left |].
  destruct (IH He He2 Hne); [left | right]; by right.
Qed.

Lemma related_compareEvents_entry (e e2 : Event.t) (cellOverlaps : gmap string Record_)
    (i j : string) :
  tableInv anyId cellOverlaps →
  is_Some (cellOverlaps !! Event._eid e) →
  related (compareEvents eventInRange options e cellOverlaps e2) i j
  ↔ if overlapping eventInRange options e e2
    then related cellOverlaps i j ∨ idsOf e e2 i j
    else related cellOverlaps i j ∧ ¬ idsOf e e2 i j.
Proof.
  intros Hinv Ha.
  pose proof (tableInv_ensure anyId e2 _ Hinv) as (Hnd0 & _ & _).
  assert (Ha0 : is_Some (overlapsOf (ensure e2 cellOverlaps) (Event._eid e))).
  { apply overlapsOf_is_Some, ensure_is_Some. by left. }
  assert (Hb0 : is_Some (overlapsOf (ensure e2 cellOverlaps) (Event._eid e2))).
  { apply overlapsOf_is_Some, ensure_is_Some. by right. }
  rewrite related_compareEvents by done.
  assert (Hre : related cellOverlaps i j
                ↔ ∃ l0, overlapsOf (ensure e2 cellOverlaps) i = Some l0 ∧ j ∈ l0).
  { symmetry. apply related_ensure. }
  unfold idsOf.
  destruct (overlapping eventInRange options e e2); rewrite Hre.
  - split.
    + intros (l0 & E & [Hj | [[<- ->] | [<- ->]]]); [left; by exists l0 | right ..]; tauto.
    + intros [(l0 & E & Hj) | [[<- <-] | [<- <-]]].
      * exists l0. tauto.
      * destruct Ha0 as [l0 E]. exists l0. tauto.
      * destruct Hb0 as [l0 E]. exists l0. tauto.
  - split.
    + intros (l0 & E & Hj & Hn1 & Hn2). split; [by exists l0 |].
      intros [[<- <-] | [<- <-]]; tauto.
    + intros [(l0 & E & Hj) Hn]. exists l0. split; [done |]. split; [done |].
      split; intros [<- ->]; apply Hn; tauto.
Qed.

Lemma related_compareEvents_fold (e : Event.t) (rest : list Event.t)
    (cellOverlaps : gmap string Record_) :
  tableInv anyId cellOverlaps →
  is_Some (cellOverlaps !! Event._eid e) →
  NoDup (Event._eid <$> e :: rest) →
  (∀ e2 i j, e2 ∈ rest → idsOf e e2 i j → ¬ related cellOverlaps i j) →
  let cellOverlaps' :=
    fold_left (compareEvents eventInRange options e) rest cellOverlaps in
  tableInv anyId cellOverlaps'
  ∧ ∀ i j, related cellOverlaps' i j
           ↔ related cellOverlaps i j
             ∨ ∃ e2, e2 ∈ rest ∧ overlapping eventInRange options e e2 = true
                     ∧ idsOf e e2 i j.
Proof.
  cbv zeta. revert cellOverlaps.
  induction rest as [| e2 rest IH]; intros cellOverlaps Hinv Ha Hids Hclean;
    cbn [fold_left].
  - split; [done |]. intros i j. split; [by left |].
    intros [H | (e2 & He2 & _)]; [done | by apply elem_of_nil in He2].
  - rewrite !fmap_cons in Hids.
    apply NoDup_cons in Hids as [He Hids]. apply NoDup_cons in Hids as [He2 Hrest].
    rewrite elem_of_cons in He.
    assert (Hstep : ∀ i j,
      related (compareEvents eventInRange options e cellOverlaps e2) i j
      ↔ related cellOverlaps i j
        ∨ (overlapping eventInRange options e e2 = true ∧ idsOf e e2 i j)).
    { intros i j. rewrite related_compareEvents_entry by done.
      destruct (overlapping eventInRange options e e2).
      - tauto.
      - split; [tauto |]. intros [H | [? _]]; [| done].
        split; [done |]. intros Hi. apply (Hclean e2 i j); [left | done ..]. }
    destruct (IH (compareEvents eventInRange options e cellOverlaps e2)) as [Hinv' Hrel].
    + apply tableInv_compareEvents; done.
    + apply compareEvents_is_Some. by left.
    + rewrite fmap_cons. apply NoDup_cons. split; [tauto | done].
    + intros e3 i j He3 Hi3 Hr. apply Hstep in Hr as [Hr | [_ Hi2]].
      * apply (Hclean e3 i j); [by right | done ..].
      * assert (Event._eid e3 ∈ Event._eid <$> rest) by (by apply list_elem_of_fmap_2).
        unfold idsOf in *.
        destruct Hi3 as [[E1 E2] | [E1 E2]], Hi2 as [[E3 E4] | [E3 E4]];
          first [apply He2; congruence | apply He; right; congruence].
    + split; [done |]. intros i j. rewrite Hrel, Hstep. split.
      * intros [[H | [Ho Hi]] | (e3 & He3 & Ho & Hi)]; [by left | right ..].
        -- exists e2. split; [left | done].
        -- exists e3. split; [by right | done].
      * intros [H | (e3 & [-> | He3]%elem_of_cons & Ho & Hi)].
        -- left. by left.
        -- left. right. done.
        -- right. by exists e3.
Qed.

Lemma related_compareAll (cellEvents : list Event.t) (cellOverlaps : gmap string Record_) :
  tableInv anyId cellOverlaps →
  NoDup (Event._eid <$> cellEvents) →
  (∀ i j, related cellOverlaps i j →
          ¬ (i ∈ Event._eid <$> cellEvents ∧ j ∈ Event._eid <$> cellEvents)) →
  ∀ i j, related (compareAll eventInRange options cellEvents cellOverlaps) i j
         ↔ related cellOverlaps i j ∨ overlapIn eventInRange options cellEvents i j.
Proof.
  revert cellOverlaps.
  induction cellEvents as [| e rest IH]; intros cellOverlaps Hinv Hids Hclean i j;
    cbn [compareAll].
  - split; [by left |]. intros [H | (e & e2 & [] & _)]. done.
  - set (first := alter (set_position 0) (Event._eid e) (ensure e cellOverlaps)).
    assert (Hsame : ∀ i, overlapsOf first i = overlapsOf (ensure e cellOverlaps) i).
    { intros k. by apply overlapsOf_alter_position. }
    assert (Hrel1 : ∀ i j, related first i j ↔ related cellOverlaps i j).
    { intros a b. rewrite <- (related_ensure e cellOverlaps a b).
      unfold related. by rewrite Hsame. }
    assert (Hfirst : tableInv anyId first).
    { apply (tableInv_same_overlaps anyId (ensure e cellOverlaps)); [done |].
      by apply tableInv_ensure. }
    assert (Hentry : is_Some (first !! Event._eid e)).
    { apply overlapsOf_is_Some. rewrite Hsame.
      apply overlapsOf_is_Some, ensure_is_Some. by right. }
    destruct (related_compareEvents_fold e rest first Hfirst Hentry Hids) as [Hinv2 Hrel2].
    { intros e2 a b He2 Hi Hr. apply Hrel1 in Hr. apply (Hclean a b Hr).
      rewrite fmap_cons.
      assert (Event._eid e2 ∈ Event._eid <$> rest) by (by apply list_elem_of_fmap_2).
      destruct Hi as [[<- <-] | [<- <-]]; split; (by left) || (by right). }
    rewrite fmap_cons in Hids. apply NoDup_cons in Hids as [He Hrest].
    rewrite IH; [| done | done |].
    + rewrite Hrel2, Hrel1. unfold overlapIn. cbn [earlier]. split.
      * intros [[H | (e2 & He2 & Ho & Hi)] | (a & b & Hab & Ho & Hi)].
        -- by left.
        -- right. exists e, e2. split; [left | ]; done.
        -- right. exists a, b. split; [by right | done].
      * intros [H | (a & b & [[-> Hb] | Hab] & Ho & Hi)].
        -- left. by left.
        -- left. right. by exists b.
        -- right. by exists a, b.
    + intros a b Hr [Ha Hb]. apply Hrel2 in Hr as [Hr | (e2 & He2 & _ & Hi)].
      * apply Hrel1 in Hr. apply (Hclean a b Hr). rewrite fmap_cons. split; by right.
      * destruct Hi as [[<- <-] | [<- <-]]; done.
Qed.

(** The overlaps of the returned table are the ones of the table of the
    two loops. *)
Lemma checkCellOverlappingEvents_compared (cellEvents : list Event.t) :
  ∃ cellOverlaps longestStreak,
    checkCellOverlappingEvents eventInRange options cellEvents
      = Some (cellOverlaps, longestStreak)
    ∧ samePairs cellOverlaps (compareAll eventInRange options cellEvents ∅).
Proof.
  unfold checkCellOverlappingEvents. cbv zeta.
  assert (Hact : Forall (fun e => participates e → anyId (Event._eid e)) cellEvents)
    by (apply Forall_forall; done).
  destruct (tableInv_compareAll eventInRange options anyId cellEvents ∅ Hact
              (tableInv_empty anyId)) as [Hinv Hkeys].
  set (compared := compareAll eventInRange options cellEvents ∅) in *.
  destruct (positionStep_fold (map_to_list compared).*1 [] compared 0)
    as (cellOverlaps & longestStreak & E & Hsame & Hpos).
  - by apply (tableInv_closed anyId).
  - intros id ((i & r) & -> & Hir%elem_of_map_to_list)%list_elem_of_fmap. by exists r.
  - intros i r Hi. by apply elem_of_nil in Hi.
  - by exists cellOverlaps, longestStreak.
Qed.

(** In a cell whose events have different ids, an id is among the
    overlaps of another exactly when the test of the inner loop holds of
    their two events, taken in the order of the cell; no id is among its
    own overlaps. *)
Lemma overlaps_exact (cellEvents : list Event.t) :
  NoDup (Event._eid <$> cellEvents) →
  ∃ cellOverlaps longestStreak,
    checkCellOverlappingEvents eventInRange options cellEvents
      = Some (cellOverlaps, longestStreak)
    ∧ (∀ i j, related cellOverlaps i j
              ↔ overlapIn eventInRange options cellEvents i j)
    ∧ ∀ i, ¬ related cellOverlaps i i.
Proof.
  intros Hids.
  destruct (checkCellOverlappingEvents_compared cellEvents)
    as (cellOverlaps & longestStreak & E & Hsame).
  exists cellOverlaps, longestStreak. split; [done |].
  assert (Hrel : ∀ i j, related cellOverlaps i j
                        ↔ overlapIn eventInRange options cellEvents i j).
  { intros i j. unfold related at 1. rewrite Hsame. fold (related (compareAll eventInRange options cellEvents ∅) i j).
    rewrite related_compareAll; [| apply tableInv_empty | done |].
    - split; [| by right]. intros [(l & El & _) | H]; [| done].
      unfold overlapsOf in El. by rewrite lookup_empty in El.
    - intros a b (l & El & _). unfold overlapsOf in El. by rewrite lookup_empty in El. }
  split; [done |]. intros i Hi. apply Hrel in Hi as (e & e2 & Hearlier & _ & Hi).
  apply (earlier_ids _ _ _ Hids) in Hearlier. destruct Hi as [[? ?] | [? ?]]; congruence.
Qed.
End ExactTable.

(** ** Timed events, and streaks *)

Section TimedCells.
Import JS Overlaps.
Variable tz : Z.
Variable options : Options.

Lemma overlapping_timed (e e2 : Event.t) :
  timed e2 →
  overlapping (Part000.eventInRange tz) options e e2 = true
  ↔ participates e ∧ participates e2 ∧ intervalsMeet e e2 ∧ closeStarts options e e2.
Proof.
  intros Ht2. unfold overlapping, participates, intervalsMeet, closeStarts.
  rewrite Part000_eventInRange_timed by done. unfold DateUtils.datesInSameTimeStep, getTime.
  rewrite !andb_true_iff, !negb_true_iff, bool_decide_eq_true.
  destruct (overlapsPerTimeStep options).
  - rewrite Z.leb_le. intuition.
  - intuition discriminate.
Qed.

Lemma overlapping_timed_symmetric (e e2 : Event.t) :
  timed e → timed e2 →
  overlapping (Part000.eventInRange tz) options e e2 = true
  ↔ overlapping (Part000.eventInRange tz) options e2 e = true.
Proof.
  intros Ht Ht2. rewrite !overlapping_timed by done.
  unfold intervalsMeet, closeStarts.
  replace (Z.abs (Event.startDate e2 - Event.startDate e))
    with (Z.abs (Event.startDate e - Event.startDate e2)) by lia.
  tauto.
Qed.

(** In a cell of timed events of different ids, the id of an event is
    among the overlaps of another event exactly when neither is a
    background event, each starts before the other ends, and their starts
    are close if that is asked for. *)
Lemma overlaps_of_timed_events (cellEvents : list Event.t) :
  NoDup (Event._eid <$> cellEvents) →
  (∀ e, e ∈ cellEvents → timed e) →
  ∃ cellOverlaps longestStreak,
    Part000.checkCellOverlappingEvents tz cellEvents options
      = Some (cellOverlaps, longestStreak)
    ∧ ∀ e e2, e ∈ cellEvents → e2 ∈ cellEvents →
        (related cellOverlaps (Event._eid e) (Event._eid e2)
         ↔ e ≠ e2 ∧ Event.background e = false ∧ Event.background e2 = false
           ∧ intervalsMeet e e2 ∧ closeStarts options e e2).
Proof.
  intros Hids Htimed.
  destruct (overlaps_exact (Part000.eventInRange tz) options cellEvents Hids)
    as (cellOverlaps & longestStreak & E & Hrel & Hirr).
  exists cellOverlaps, longestStreak. split; [done |].
  intros e e2 He He2.
  assert (Hov : overlapping (Part000.eventInRange tz) options e e2 = true
                ↔ Event.background e = false ∧ Event.background e2 = false
                  ∧ intervalsMeet e e2 ∧ closeStarts options e e2).
  { rewrite overlapping_timed by auto. unfold participates.
    destruct (Htimed e He) as [-> _], (Htimed e2 He2) as [-> _]. tauto. }
  rewrite Hrel, <- Hov. split.
  - intros (a & b & Hab & Ho & Hi).
    destruct (earlier_elem_of _ _ _ Hab) as [Ha Hb].
    pose proof (earlier_ids _ _ _ Hids Hab) as Hne.
    destruct Hi as [[Ea Eb] | [Ea Eb]].
    + assert (a = e) as -> by (by apply (NoDup_fmap_eq Event._eid cellEvents)).
      assert (b = e2) as -> by (by apply (NoDup_fmap_eq Event._eid cellEvents)).
      split; [congruence | done].
    + assert (a = e2) as -> by (by apply (NoDup_fmap_eq Event._eid cellEvents)).
      assert (b = e) as -> by (by apply (NoDup_fmap_eq Event._eid cellEvents)).
      split; [congruence |]. apply overlapping_timed_symmetric; auto.
  - intros [Hne Ho]. destruct (earlier_total cellEvents e e2 He He2 Hne) as [H | H].
    + exists e, e2. split; [done |]. split; [done |]. by left.
    + exists e2, e. split; [done |]. split; [| by right].
      apply overlapping_timed_symmetric; auto.
Qed.
End TimedCells.

Section FullStreaks.
Import JS Overlaps.
Variable cellOverlaps : gmap string Record_.

Lemma streakInner_fold_nil (id : string) (ids removeFromStreak : list string) :
  (∀ id3, id3 ∈ ids → is_Some (cellOverlaps !! id3)) →
  ∃ removed,
    fold_left (streakInner cellOverlaps id) ids (Some removeFromStreak) = Some removed
    ∧ (removed = []
       ↔ removeFromStreak = []
         ∧ ∀ id3, id3 ∈ ids → ∃ r, cellOverlaps !! id3 = Some r ∧ id ∈ overlaps r).
Proof.
  revert removeFromStreak.
  induction ids as [| id3 ids IH]; intros removeFromStreak Hids; cbn [fold_left].
  - exists removeFromStreak. split; [done |]. split; [| tauto].
    intros ->. split; [done |]. by intros ? ?%elem_of_nil.
  - destruct (Hids id3) as [r Hr]; [left |].
    rewrite (streakInner_step _ _ _ _ _ Hr).
    destruct (IH (if bool_decide (id ∈ overlaps r) then removeFromStreak
                  else (removeFromStreak ++ [id3])%list)) as (removed & E & Hnil).
    { intros ? ?. apply Hids. by right. }
    exists removed. split; [done |]. rewrite Hnil. case_bool_decide as Hin.
    + split.
      * intros [-> Hall]. split; [done |].
        intros x [-> | Hx]%elem_of_cons; [by exists r | by apply Hall].
      * intros [-> Hall]. split; [done |]. intros x Hx. apply Hall. by right.
    + split.
      * intros [Happ _]. by apply app_eq_nil in Happ as [_ ?].
      * intros [_ Hall]. destruct (Hall id3) as (r' & Hr' & Hin'); [left |].
        congruence.
Qed.

Lemma streakOuter_fold_nil (event : Record_) (ids removeFromStreak : list string) :
  (∀ id, id ∈ overlaps event → is_Some (cellOverlaps !! id)) →
  ∃ removed,
    fold_left (streakOuter cellOverlaps event) ids (Some removeFromStreak) = Some removed
    ∧ (removed = []
       ↔ removeFromStreak = []
         ∧ ∀ id id3, id ∈ ids → id3 ∈ overlaps event → id3 ≠ id →
                     ∃ r, cellOverlaps !! id3 = Some r ∧ id ∈ overlaps r).
Proof.
  intros Hpresent. revert removeFromStreak.
  induction ids as [| id ids IH]; intros removeFromStreak; cbn [fold_left].
  - exists removeFromStreak. split; [done |]. split; [| tauto].
    intros ->. split; [done |]. by intros ? ? ?%elem_of_nil.
  - rewrite streakOuter_step. case_bool_decide as Hin.
    + destruct (IH removeFromStreak) as (removed & E & Hnil).
      exists removed. split; [done |]. rewrite Hnil. split.
      * intros [-> _]. by apply elem_of_nil in Hin.
      * intros [-> _]. by apply elem_of_nil in Hin.
    + destruct (streakInner_fold_nil id (filter (fun id2 => id2 ≠ id) (overlaps event))
                  removeFromStreak) as (removed1 & -> & Hnil1).
      { intros id3 [_ ?]%list_elem_of_filter. by apply Hpresent. }
      destruct (IH removed1) as (removed & E & Hnil).
      exists removed. split; [done |]. rewrite Hnil, Hnil1. split.
      * intros [[-> Hinner] Houter]. split; [done |].
        intros a id3 [-> | Ha]%elem_of_cons Hid3 Hne.
        -- apply Hinner. by apply list_elem_of_filter.
        -- by apply Houter.
      * intros [-> Hall]. split; [split; [done |] |].
        -- intros id3 [Hne Hid3]%list_elem_of_filter. apply Hall; [left | done ..].
        -- intros a id3 Ha. apply Hall. by right.
Qed.

(** The streak of an entry is the number of its overlaps plus one exactly
    when every one of its overlaps is among the overlaps of every other
    one. *)
Lemma getOverlapsStreak_full (event : Record_) :
  (∀ id, id ∈ overlaps event → is_Some (cellOverlaps !! id)) →
  getOverlapsStreak event cellOverlaps = Some (Z.of_nat (length (overlaps event)) + 1)
  ↔ allOverlap cellOverlaps event.
Proof.
  intros Hpresent. unfold getOverlapsStreak, allOverlap.
  destruct (streakOuter_fold_nil event (overlaps event) [] Hpresent)
    as (removed & -> & Hnil).
  cbn [mbind option_bind].
  assert (Hd : dedupe removed = [] ↔ removed = []).
  { split; [| by intros ->].
    intros E. destruct removed as [| x removed]; [done |].
    assert (x ∈ dedupe (x :: removed)) by (apply elem_of_dedupe; left).
    rewrite E in H. by apply elem_of_nil in H. }
  split.
  - intros [= E]. apply Hnil, Hd. apply length_zero_iff_nil. lia.
  - intros Hall. replace removed with (@nil string) by (symmetry; apply Hnil; by split).
    cbn. f_equal. lia.
Qed.
End FullStreaks.

(** ** Columns and the longest streak *)

Section Rows.
Import JS Overlaps.

Lemma ltb_Lt (a b : string) : String.ltb a b = true ↔ String.compare a b = Lt.
Proof. unfold String.ltb. by destruct (String.compare a b). Qed.

Lemma ltb_irrefl (a : string) : String.ltb a a = false.
Proof.
  apply not_true_is_false. rewrite ltb_Lt. intros H.
  pose proof (String.compare_antisym a a) as E. rewrite H in E. done.
Qed.

Lemma ltb_asym (a b : string) : String.ltb a b = true → String.ltb b a = false.
Proof.
  intros H%ltb_Lt. apply not_true_is_false. rewrite ltb_Lt. intros H'.
  pose proof (String.compare_antisym a b) as E. rewrite H, H' in E. done.
Qed.

Lemma ltb_trans (a b c : string) :
  String.ltb a b = true → String.ltb b c = true → String.ltb a c = true.
Proof.
  rewrite !ltb_Lt.
  change String.compare with OrderedTypeEx.String_as_OT.cmp.
  rewrite !OrderedTypeEx.String_as_OT.cmp_lt.
  apply OrderedTypeEx.String_as_OT.lt_trans.
Qed.

Lemma ltb_total (a b : string) : a ≠ b → String.ltb a b = true ∨ String.ltb b a = true.
Proof.
  intros Hne. rewrite !ltb_Lt.
  pose proof (String.compare_antisym a b) as E.
  destruct (String.compare a b) eqn:Eab.
  - by apply String.compare_eq_iff in Eab.
  - by left.
  - right. destruct (String.compare b a); done.
Qed.

Lemma eqb_true (a b : string) : String.eqb a b = true ↔ a = b.
Proof. apply String.eqb_eq. Qed.

Lemma comesBefore_spec (a b : string * string) :
  comesBefore a b = true
  ↔ String.ltb a.2 b.2 = true ∨ (a.2 = b.2 ∧ String.ltb b.1 a.1 = true).
Proof.
  unfold comesBefore. rewrite orb_true_iff, andb_true_iff, eqb_true. tauto.
Qed.

(** The comparator of the sort puts [a] first exactly when [a] comes
    before [b]. *)
Lemma compareRow_comesBefore (a b : string * string) :
  (0 <? compareRow a b) = negb (comesBefore a b).
Proof.
  unfold compareRow, comesBefore.
  destruct (String.ltb a.2 b.2) eqn:E1; [done |].
  destruct (String.ltb b.2 a.2) eqn:E2.
  - cbn [orb]. destruct (String.eqb a.2 b.2) eqn:E3; [| done].
    apply eqb_true in E3. rewrite E3, ltb_irrefl in E2. done.
  - assert (E3 : String.eqb a.2 b.2 = true).
    { apply eqb_true. destruct (decide (a.2 = b.2)) as [| Hne]; [done |].
      destruct (ltb_total _ _ Hne); congruence. }
    rewrite E3. cbn [orb andb]. by destruct (String.ltb b.1 a.1).
Qed.

Lemma comesBefore_irrefl (a : string * string) : comesBefore a a = false.
Proof.
  apply not_true_is_false. rewrite comesBefore_spec, !ltb_irrefl.
  intros [? | [_ ?]]; done.
Qed.

Lemma comesBefore_asym (a b : string * string) :
  comesBefore a b = true → comesBefore b a = false.
Proof.
  intros H. apply not_true_is_false. revert H. rewrite !comesBefore_spec.
  intros [H | [E H]] [H' | [E' H']].
  - apply ltb_asym in H. congruence.
  - rewrite E', ltb_irrefl in H. done.
  - rewrite E, ltb_irrefl in H'. done.
  - apply ltb_asym in H. congruence.
Qed.

Lemma comesBefore_trans (a b c : string * string) :
  comesBefore a b = true → comesBefore b c = true → comesBefore a c = true.
Proof.
  rewrite !comesBefore_spec. intros [H | [E H]] [H' | [E' H']].
  - left. by apply (ltb_trans _ b.2).
  - left. by rewrite <- E'.
  - left. by rewrite E.
  - right. split; [congruence |]. by apply (ltb_trans _ b.1).
Qed.

Lemma comesBefore_total (a b : string * string) :
  a.1 ≠ b.1 → comesBefore a b = true ∨ comesBefore b a = true.
Proof.
  intros Hne. rewrite !comesBefore_spec.
  destruct (decide (a.2 = b.2)) as [E | Hs].
  - destruct (ltb_total _ _ Hne); [right | left]; right; split; congruence.
  - destruct (ltb_total _ _ Hs); [left | right]; by left.
Qed.

(** *** The sort sorts *)

Lemma sortInsert_rowSorted (x : string * string) (l : list (string * string)) :
  rowSorted l → (∀ y, y ∈ l → y.1 ≠ x.1) →
  rowSorted (sortInsert compareRow x l).
Proof.
  induction l as [| y l IH]; cbn [sortInsert rowSorted]; intros Hs Hne.
  - split; [constructor | done].
  - destruct Hs as [Hy Hl]. rewrite compareRow_comesBefore.
    destruct (comesBefore x y) eqn:Exy; cbn [negb rowSorted].
    + split; [| done]. constructor; [done |].
      apply Forall_forall. intros z Hz.
      apply (comesBefore_trans _ y); [done |]. by apply (proj1 (Forall_forall _ _) Hy).
    + split.
      * rewrite sortInsert_Permutation. constructor; [| done].
        destruct (comesBefore_total y x); [apply Hne; left | done | congruence].
      * apply IH; [done |]. intros z Hz. apply Hne. by right.
Qed.

Lemma sort_rowSorted (l : list (string * string)) :
  NoDup l.*1 → rowSorted (sort compareRow l).
Proof.
  unfold sort. induction l as [| x l IH]; cbn [foldr]; [done |].
  rewrite fmap_cons. intros [Hx Hl]%NoDup_cons.
  apply sortInsert_rowSorted; [by apply IH |].
  intros y Hy E. apply Hx. rewrite <- E. apply list_elem_of_fmap_2.
  by rewrite <- (sort_Permutation compareRow l).
Qed.

Lemma filter_none {A} (P : A → Prop) `{∀ x, Decision (P x)} (l : list A) :
  (∀ x, x ∈ l → ¬ P x) → filter P l = [].
Proof.
  induction l as [| x l IH]; intros Hnone; [done |].
  rewrite filter_cons_False by (apply Hnone; left).
  apply IH. intros y Hy. apply Hnone. by right.
Qed.

Lemma findIndex_rowSorted (x : string * string) (l : list (string * string)) :
  rowSorted l → NoDup l.*1 → x ∈ l →
  findIndex (fun e : string * string => bool_decide (e.1 = x.1)) l
    = Z.of_nat (length (filter (fun y => comesBefore y x = true) l)).
Proof.
  induction l as [| y l IH]; cbn [rowSorted findIndex]; [by intros _ _ ?%elem_of_nil |].
  rewrite fmap_cons. intros [Hy Hs] [Hny Hnd]%NoDup_cons Hx.
  case_bool_decide as Ey.
  - assert (y = x) as ->.
    { apply elem_of_cons in Hx as [-> | Hx]; [done |].
      destruct Hny. rewrite Ey. by apply list_elem_of_fmap_2. }
    rewrite filter_cons_False by (by rewrite comesBefore_irrefl).
    rewrite filter_none; [done |].
    intros z Hz. rewrite (comesBefore_asym x z); [done |].
    by apply (proj1 (Forall_forall _ _) Hy).
  - apply elem_of_cons in Hx as [-> | Hx]; [done |].
    rewrite filter_cons_True by (by apply (proj1 (Forall_forall _ _) Hy)).
    rewrite IH by done. cbn [length].
    destruct (Z.ltb_spec (Z.of_nat (length (filter (λ y0, comesBefore y0 x = true) l))) 0);
      lia.
Qed.

(** The index of an entry in its sorted row is the number of the entries
    that come before it. *)
Lemma findIndex_sort (x : string * string) (l : list (string * string)) :
  NoDup l.*1 → x ∈ l →
  findIndex (fun e : string * string => bool_decide (e.1 = x.1)) (sort compareRow l)
    = Z.of_nat (length (filter (fun y => comesBefore y x = true) l)).
Proof.
  intros Hnd Hx. rewrite findIndex_rowSorted.
  - by rewrite (sort_Permutation compareRow l).
  - by apply sort_rowSorted.
  - by rewrite (sort_Permutation compareRow l).
  - by rewrite (sort_Permutation compareRow l).
Qed.
End Rows.

Section Columns.
Import JS Overlaps.

Lemma sameRows_refl (T : gmap string Record_) : sameRows T T.
Proof. done. Qed.

Lemma sameRows_trans (T1 T2 T3 : gmap string Record_) :
  sameRows T1 T2 → sameRows T2 T3 → sameRows T1 T3.
Proof. intros H12 H23 i. by rewrite H12. Qed.

Lemma sameRows_sym (T' T : gmap string Record_) : sameRows T' T → sameRows T T'.
Proof. intros H i. by rewrite H. Qed.

Lemma sameRows_lookup (T' T : gmap string Record_) (i : string) (r' : Record_) :
  sameRows T' T → T' !! i = Some r' →
  ∃ r, T !! i = Some r ∧ overlaps r = overlaps r' ∧ start r = start r'.
Proof.
  intros Hsame Hr'. specialize (Hsame i). rewrite Hr' in Hsame.
  destruct (T !! i) as [r |]; [| done]. injection Hsame as E1 E2. by exists r.
Qed.

Lemma sameRows_samePairs (T' T : gmap string Record_) : sameRows T' T → samePairs T' T.
Proof.
  intros Hsame i. unfold overlapsOf. specialize (Hsame i).
  destruct (T' !! i), (T !! i); cbn in *; congruence.
Qed.

Lemma sameRows_insert (T : gmap string Record_) (id : string) (item : Record_) (p : Z) :
  T !! id = Some item → sameRows (<[ id := set_position p item ]> T) T.
Proof.
  intros Hitem i. rewrite lookup_insert.
  case_decide; [subst; by rewrite Hitem | done].
Qed.

Lemma isLeftOf_sameRows (T' T : gmap string Record_) (i : string) (r' r : Record_)
    (j : string) :
  sameRows T' T → start r' = start r → isLeftOf T' i r' j = isLeftOf T i r j.
Proof.
  intros Hsame Es. unfold isLeftOf. specialize (Hsame j). rewrite Es.
  destruct (T' !! j), (T !! j); cbn in *; [| done ..].
  injection Hsame as _ ->. done.
Qed.

Lemma leftOf_sameRows (T' T : gmap string Record_) (i : string) (r' r : Record_) :
  sameRows T' T → overlaps r' = overlaps r → start r' = start r →
  leftOf T' i r' = leftOf T i r.
Proof.
  intros Hsame Eo Es. unfold leftOf. rewrite Eo. apply list_filter_iff.
  intros j. by rewrite (isLeftOf_sameRows T' T i r' r j).
Qed.

Lemma fold_left_ext {A B} (f g : A → B → A) (l : list B) (a : A) :
  (∀ a b, f a b = g a b) → fold_left f l a = fold_left g l a.
Proof.
  intros Hfg. revert a. induction l as [| b l IH]; intros a; cbn [fold_left]; [done |].
  by rewrite Hfg, IH.
Qed.

Lemma streakInner_sameRows (T' T : gmap string Record_) (id : string)
    (acc : option (list string)) (id3 : string) :
  sameRows T' T → streakInner T' id acc id3 = streakInner T id acc id3.
Proof.
  intros Hsame. unfold streakInner. destruct acc as [removeFromStreak |]; [| done].
  cbn [mbind option_bind]. specialize (Hsame id3).
  destruct (T' !! id3), (T !! id3); cbn in *; [| done ..].
  injection Hsame as -> _. done.
Qed.

Lemma getOverlapsStreak_sameRows (T' T : gmap string Record_) (r' r : Record_) :
  sameRows T' T → overlaps r' = overlaps r →
  getOverlapsStreak r' T' = getOverlapsStreak r T.
Proof.
  intros Hsame Eo. unfold getOverlapsStreak. rewrite Eo. cbv zeta.
  rewrite (fold_left_ext (streakOuter T' r') (streakOuter T r)); [done |].
  intros acc id. unfold streakOuter. rewrite Eo.
  destruct acc as [removeFromStreak |]; [| done]. cbn [mbind option_bind].
  destruct (bool_decide (id ∈ removeFromStreak)); [done |].
  apply fold_left_ext. intros acc id3. by apply streakInner_sameRows.
Qed.

Lemma rank_of_row (T : gmap string Record_) (id : string) (item : Record_)
    (ids : list string) (row : list (string * string)) :
  Forall2 (fun j y => (fun r => (j, start r)) <$> T !! j = Some y) ids row →
  row.*1 = ids
  ∧ length (filter (fun y => comesBefore y (id, start item) = true) row)
    = length (filter (fun j => isLeftOf T id item j = true) ids).
Proof.
  induction 1 as [| j y ids row Hy Hrest [IH1 IH2]]; [done |].
  destruct (T !! j) as [rj |] eqn:Ej; [| done]. injection Hy as <-.
  split; [by rewrite fmap_cons, IH1 |].
  assert (E : isLeftOf T id item j = comesBefore (j, start rj) (id, start item)).
  { unfold isLeftOf. by rewrite Ej. }
  destruct (comesBefore (j, start rj) (id, start item)) eqn:Ec.
  - rewrite !filter_cons_True by congruence. cbn [length]. by rewrite IH2.
  - rewrite !filter_cons_False by congruence. done.
Qed.

(** One turn of the last loop: the position is the number of the overlaps
    that come before the entry, the streak is the one of the entry. *)
Lemma positionStep_exact (T : gmap string Record_) (longestStreak : Z) (id : string)
    (item : Record_) :
  closed T → T !! id = Some item →
  ∃ p streak,
    positionStep (Some (T, longestStreak)) id
      = Some (<[ id := set_position p item ]> T, Z.max streak longestStreak)
    ∧ getOverlapsStreak item T = Some streak
    ∧ (NoDup (overlaps item) → id ∉ overlaps item →
       p = Z.of_nat (length (leftOf T id item))).
Proof.
  intros Hclosed Hitem. unfold positionStep.
  rewrite !bind_Some, Hitem, bind_Some.
  destruct (mapM (fun id2 => (fun r => (id2, start r)) <$> T !! id2) (overlaps item))
    as [overlapsRow |] eqn:Erow.
  2:{ apply mapM_None in Erow. apply Exists_exists in Erow as (j & Hj & Enone).
      destruct (Hclosed id j) as [r Hr].
      - exists (overlaps item). unfold overlapsOf. by rewrite Hitem.
      - by rewrite Hr in Enone. }
  rewrite bind_Some. cbv zeta.
  set (row := sort compareRow (overlapsRow ++ [(id, start item)])).
  set (p := findIndex (fun e : string * string => bool_decide (e.1 = id)) row).
  assert (Hpresent : ∀ j, j ∈ overlaps item → is_Some (T !! j)).
  { intros j Hj. apply (Hclosed id j). exists (overlaps item).
    unfold overlapsOf. by rewrite Hitem. }
  destruct (getOverlapsStreak_range T item Hpresent) as (streak & Estreak & _).
  rewrite (getOverlapsStreak_sameRows (<[ id := set_position p item ]> T) T
             (set_position p item) item); [| by apply sameRows_insert | done].
  rewrite Estreak, bind_Some. exists p, streak. split; [done |]. split; [done |].
  intros Hnd Hself. apply mapM_Some in Erow.
  destruct (rank_of_row T id item _ _ Erow) as [Eids Erank].
  unfold p, row. rewrite (findIndex_sort (id, start item)).
  - rewrite filter_app, length_app, Erank.
    rewrite filter_cons_False by (by rewrite comesBefore_irrefl).
    rewrite filter_nil. cbn [length]. unfold leftOf. lia.
  - rewrite fmap_app, Eids. apply NoDup_app. split; [done |]. split.
    + intros j Hj ->%list_elem_of_singleton. done.
    + apply NoDup_singleton.
  - apply elem_of_app. right. by apply list_elem_of_singleton.
Qed.

Lemma closed_sameRows (T' T : gmap string Record_) :
  sameRows T' T → closed T → closed T'.
Proof. intros H. apply closed_samePairs. by apply sameRows_samePairs. Qed.

(** The last loop, over ids that are all different. *)
Lemma positionStep_fold_exact (ids : list string) (T : gmap string Record_)
    (longestStreak : Z) :
  closed T → NoDup ids → (∀ id, id ∈ ids → is_Some (T !! id)) →
  ∃ T' longestStreak',
    fold_left positionStep ids (Some (T, longestStreak)) = Some (T', longestStreak')
    ∧ sameRows T' T
    ∧ (∀ i, i ∉ ids → T' !! i = T !! i)
    ∧ (rowsDistinct T →
       ∀ i r', i ∈ ids → T' !! i = Some r' →
               position r' = Z.of_nat (length (leftOf T i r')))
    ∧ longestStreak <= longestStreak'
    ∧ (∀ i r, i ∈ ids → T !! i = Some r →
              ∃ s, getOverlapsStreak r T = Some s ∧ s <= longestStreak')
    ∧ (longestStreak' = longestStreak
       ∨ ∃ i r, i ∈ ids ∧ T !! i = Some r
                ∧ getOverlapsStreak r T = Some longestStreak').
Proof.
  revert T longestStreak.
  induction ids as [| id ids IH]; intros T longestStreak Hclosed Hnd Hids;
    cbn [fold_left].
  - exists T, longestStreak. split; [done |]. split; [done |]. split; [done |].
    split; [by intros _ i r' ?%elem_of_nil |]. split; [lia |].
    split; [by intros i r ?%elem_of_nil | by left].
  - apply NoDup_cons in Hnd as [Hid Hnd].
    destruct (Hids id) as [item Hitem]; [left |].
    destruct (positionStep_exact T longestStreak id item Hclosed Hitem)
      as (p & streak & -> & Estreak & Hp).
    pose proof (sameRows_insert T id item p Hitem) as Hsame1.
    set (T1 := <[ id := set_position p item ]> T) in *.
    destruct (IH T1 (Z.max streak longestStreak))
      as (T' & longestStreak' & E & Hsame & Hframe & Hpos & Hle & Hall & Hmax).
    + by apply (closed_sameRows T1 T).
    + done.
    + intros id' Hid'. unfold T1. apply lookup_insert_is_Some'. right. apply Hids.
      by right.
    + exists T', longestStreak'. split; [done |].
      split; [by apply (sameRows_trans _ T1) |]. split; [| split; [| split; [| split]]].
      * intros i Hi. rewrite Hframe by (intros ?; apply Hi; by right).
        unfold T1. rewrite lookup_insert_ne; [done |]. intros ->. apply Hi. left.
      * intros Hdistinct i r' [-> | Hi]%elem_of_cons Hr'.
        -- rewrite Hframe in Hr' by done. unfold T1 in Hr'.
           rewrite lookup_insert_eq in Hr'. injection Hr' as <-.
           cbn [position set_position]. destruct (Hdistinct id item Hitem).
           rewrite (leftOf_sameRows T T id (set_position p item) item) by done.
           by apply Hp.
        -- assert (Hdistinct1 : rowsDistinct T1).
           { intros k r Hr.
             destruct (sameRows_lookup T1 T k r Hsame1 Hr) as (r0 & Hr0 & <- & _).
             by apply (Hdistinct k r0). }
           rewrite (Hpos Hdistinct1 i r' Hi Hr').
           by rewrite (leftOf_sameRows T1 T i r' r').
      * lia.
      * intros i r [-> | Hi]%elem_of_cons Hr.
        -- exists streak. split; [congruence | lia].
        -- destruct (sameRows_lookup T T1 i r (sameRows_sym _ _ Hsame1) Hr)
             as (r1 & Hr1 & Eo & _).
           destruct (Hall i r1 Hi Hr1) as (s & Es & Hs).
           exists s. split; [| done].
           by rewrite <- (getOverlapsStreak_sameRows T1 T r1 r).
      * destruct Hmax as [-> | (i & r1 & Hi & Hr1 & Es)].
        -- destruct (Z.max_spec streak longestStreak) as [[_ ->] | [_ ->]]; [by left |].
           right. exists id, item. split; [left | done].
        -- right.
           destruct (sameRows_lookup T1 T i r1 Hsame1 Hr1) as (r & Hr & Eo & _).
           exists i, r. split; [by right |]. split; [done |].
           by rewrite <- (getOverlapsStreak_sameRows T1 T r1 r).
Qed.
End Columns.

Section ColumnsOfCells.
Import JS Overlaps.
Variable eventInRange : Event.t → Date → Date → bool.
Variable options : Options.

Lemma compareAll_table (cellEvents : list Event.t) :
  let compared := compareAll eventInRange options cellEvents ∅ in
  tableInv anyId compared
  ∧ (∀ i, is_Some (compared !! i) ↔ i ∈ Event._eid <$> cellEvents)
  ∧ (NoDup (Event._eid <$> cellEvents) → rowsDistinct compared).
Proof.
  cbv zeta.
  assert (Hact : Forall (fun e => participates e → anyId (Event._eid e)) cellEvents)
    by (apply Forall_forall; done).
  destruct (tableInv_compareAll eventInRange options anyId cellEvents ∅ Hact
              (tableInv_empty anyId)) as [Hinv Hkeys].
  split; [done |]. split.
  - intros i. rewrite Hkeys, lookup_empty. split; [intros [[? ?] | ?]; done | by right].
  - intros Hids i r Hr. destruct Hinv as (Hnd & _ & _). split.
    + apply (Hnd i). unfold overlapsOf. by rewrite Hr.
    + intros Hself.
      assert (Hrel : related (compareAll eventInRange options cellEvents ∅) i i).
      { exists (overlaps r). unfold overlapsOf. by rewrite Hr. }
      apply related_compareAll in Hrel; [| apply tableInv_empty | done |].
      * destruct Hrel as [(l & El & _) | (e & e2 & Hearlier & _ & Hi)].
        -- unfold overlapsOf in El. by rewrite lookup_empty in El.
        -- apply (earlier_ids _ _ _ Hids) in Hearlier.
           destruct Hi as [[? ?] | [? ?]]; congruence.
      * intros a b (l & El & _). unfold overlapsOf in El. by rewrite lookup_empty in El.
Qed.

Lemma checkCellOverlappingEvents_exact (cellEvents : list Event.t) :
  let compared := compareAll eventInRange options cellEvents ∅ in
  ∃ cellOverlaps longestStreak,
    checkCellOverlappingEvents eventInRange options cellEvents
      = Some (cellOverlaps, longestStreak)
    ∧ sameRows cellOverlaps compared
    ∧ (rowsDistinct compared →
       ∀ i r, cellOverlaps !! i = Some r →
              position r = Z.of_nat (length (leftOf cellOverlaps i r)))
    ∧ (∀ i r, cellOverlaps !! i = Some r →
              ∃ s, getOverlapsStreak r cellOverlaps = Some s ∧ s <= longestStreak)
    ∧ (longestStreak = 0
       ∨ ∃ i r, cellOverlaps !! i = Some r
                ∧ getOverlapsStreak r cellOverlaps = Some longestStreak).
Proof.
  cbv zeta. unfold checkCellOverlappingEvents. cbv zeta.
  destruct (compareAll_table cellEvents) as (Hinv & Hkeys & _).
  set (compared := compareAll eventInRange options cellEvents ∅) in *.
  destruct (positionStep_fold_exact (map_to_list compared).*1 compared 0)
    as (T' & ls & E & Hsame & _ & Hpos & _ & Hall & Hmax).
  - by apply (tableInv_closed anyId).
  - apply NoDup_fst_map_to_list.
  - intros id ((i & r) & -> & Hir%elem_of_map_to_list)%list_elem_of_fmap. by exists r.
  - assert (Hin : ∀ i r', T' !! i = Some r' →
                          ∃ r, compared !! i = Some r ∧ overlaps r = overlaps r'
                               ∧ start r = start r' ∧ i ∈ (map_to_list compared).*1).
    { intros i r' Hr'. destruct (sameRows_lookup T' compared i r' Hsame Hr')
        as (r & Hr & Eo & Es).
      exists r. split; [done |]. split; [done |]. split; [done |].
      apply list_elem_of_fmap. exists (i, r). split; [done |].
      by apply elem_of_map_to_list. }
    exists T', ls. split; [done |]. split; [done |]. split; [| split].
    + intros Hdistinct i r' Hr'. destruct (Hin i r' Hr') as (r & Hr & Eo & Es & Hi).
      rewrite (Hpos Hdistinct i r' Hi Hr').
      by rewrite (leftOf_sameRows T' compared i r' r').
    + intros i r' Hr'. destruct (Hin i r' Hr') as (r & Hr & Eo & Es & Hi).
      destruct (Hall i r Hi Hr) as (s & Estreak & Hs). exists s. split; [| done].
      by rewrite (getOverlapsStreak_sameRows T' compared r' r).
    + destruct Hmax as [-> | (i & r & Hi & Hr & Estreak)]; [by left |]. right.
      destruct (sameRows_lookup compared T' i r (sameRows_sym _ _ Hsame) Hr)
        as (r' & Hr' & Eo & _).
      exists i, r'. split; [done |].
      by rewrite (getOverlapsStreak_sameRows T' compared r' r).
Qed.

(** In a cell whose events have different ids, the position of an entry
    is the number of its overlaps that come before it: that start
    earlier, or at the same time with a greater id. *)
Lemma positions_are_ranks (cellEvents : list Event.t) :
  NoDup (Event._eid <$> cellEvents) →
  ∃ cellOverlaps longestStreak,
    checkCellOverlappingEvents eventInRange options cellEvents
      = Some (cellOverlaps, longestStreak)
    ∧ ∀ i r, cellOverlaps !! i = Some r →
             position r = Z.of_nat (length (leftOf cellOverlaps i r)).
Proof.
  intros Hids.
  destruct (checkCellOverlappingEvents_exact cellEvents)
    as (cellOverlaps & longestStreak & E & _ & Hpos & _).
  exists cellOverlaps, longestStreak. split; [done |].
  apply Hpos. by apply compareAll_table.
Qed.

(** The longest streak that is returned is the greatest of the streaks
    of the entries of the table; it is 0 for a cell without events. *)
Lemma longestStreak_is_greatest (cellEvents : list Event.t) :
  ∃ cellOverlaps longestStreak,
    checkCellOverlappingEvents eventInRange options cellEvents
      = Some (cellOverlaps, longestStreak)
    ∧ (∀ i r, cellOverlaps !! i = Some r →
              ∃ s, getOverlapsStreak r cellOverlaps = Some s ∧ s <= longestStreak)
    ∧ ((cellEvents = [] ∧ longestStreak = 0)
       ∨ ∃ i r, cellOverlaps !! i = Some r
                ∧ getOverlapsStreak r cellOverlaps = Some longestStreak).
Proof.
  destruct (checkCellOverlappingEvents_exact cellEvents)
    as (cellOverlaps & longestStreak & E & Hsame & _ & Hall & Hmax).
  exists cellOverlaps, longestStreak. split; [done |]. split; [done |].
  destruct Hmax as [-> | Hmax]; [| by right].
  destruct cellEvents as [| e cellEvents]; [by left |]. exfalso.
  destruct (compareAll_table (e :: cellEvents)) as (Hinv & Hkeys & _).
  destruct (proj2 (Hkeys (Event._eid e))) as [r Hr]; [rewrite fmap_cons; left |].
  destruct (sameRows_lookup _ _ _ r (sameRows_sym _ _ Hsame) Hr) as (r' & Hr' & Eo & _).
  destruct (Hall _ r' Hr') as (s & Es & Hs).
  destruct (getOverlapsStreak_range cellOverlaps r') as (s' & Es' & Hs' & _).
  - intros j Hj.
    apply (tableInv_closed anyId cellOverlaps) with (i := Event._eid e).
    + apply (tableInv_same_overlaps anyId
               (compareAll eventInRange options (e :: cellEvents) ∅)); [| done].
      by apply sameRows_samePairs.
    + exists (overlaps r'). unfold overlapsOf. by rewrite Hr'.
  - rewrite Es in Es'. injection Es' as <-. lia.
Qed.
End ColumnsOfCells.

Section StartsOfCells.
Import JS Overlaps.
Variable eventInRange : Event.t → Date → Date → bool.
Variable options : Options.
Variable all : list Event.t.

Lemma startsOf_ensure (e : Event.t) (T : gmap string Record_) :
  e ∈ all → startsOf all T → startsOf all (ensure e T).
Proof.
  intros He HT i r. unfold ensure.
  destruct (T !! Event._eid e) eqn:E; [by apply HT |].
  rewrite lookup_insert. case_decide as Ei; [| by apply HT].
  intros [= <-]. by exists e.
Qed.

Lemma startsOf_alter (F : Record_ → Record_) (k : string) (T : gmap string Record_) :
  (∀ r, start (F r) = start r) → startsOf all T → startsOf all (alter F k T).
Proof.
  intros HF HT i r. rewrite lookup_alter. case_decide as Ei; [| by apply HT].
  subst k. destruct (T !! i) as [r0 |] eqn:E; [| done]. intros [= <-].
  rewrite HF. by apply HT.
Qed.

Lemma startsOf_compareEvents (e e2 : Event.t) (T : gmap string Record_) :
  e2 ∈ all → startsOf all T → startsOf all (compareEvents eventInRange options e T e2).
Proof.
  intros He2 HT. unfold compareEvents. cbv zeta.
  destruct (_ && _); repeat (apply startsOf_alter; [done |]);
    by apply startsOf_ensure.
Qed.

Lemma startsOf_compareEvents_fold (e : Event.t) (rest : list Event.t)
    (T : gmap string Record_) :
  (∀ e2, e2 ∈ rest → e2 ∈ all) → startsOf all T →
  startsOf all (fold_left (compareEvents eventInRange options e) rest T).
Proof.
  revert T. induction rest as [| e2 rest IH]; intros T Hrest HT; cbn [fold_left];
    [done |].
  apply IH; [intros e3 He3; apply Hrest; by right |].
  apply startsOf_compareEvents; [apply Hrest; left | done].
Qed.

Lemma startsOf_compareAll (cellEvents : list Event.t) (T : gmap string Record_) :
  (∀ e, e ∈ cellEvents → e ∈ all) → startsOf all T →
  startsOf all (compareAll eventInRange options cellEvents T).
Proof.
  revert T. induction cellEvents as [| e rest IH]; intros T Hsub HT; cbn [compareAll];
    [done |].
  apply IH; [intros e2 He2; apply Hsub; by right |].
  apply startsOf_compareEvents_fold; [intros e2 He2; apply Hsub; by right |].
  apply startsOf_alter; [done |]. apply startsOf_ensure; [apply Hsub; left | done].
Qed.
End StartsOfCells.

Section PositionsOfCells.
Import JS Overlaps.
Variable eventInRange : Event.t → Date → Date → bool.
Variable options : Options.

(** In a cell whose events have different ids, every entry of the table
    has the start of its event, and its position is the number of its
    overlaps that come before it: that start earlier, or at the same time
    with a greater id. *)
Lemma positions_count_earlier_overlaps (cellEvents : list Event.t) :
  NoDup (Event._eid <$> cellEvents) →
  ∃ cellOverlaps longestStreak,
    checkCellOverlappingEvents eventInRange options cellEvents
      = Some (cellOverlaps, longestStreak)
    ∧ startsOf cellEvents cellOverlaps
    ∧ ∀ i r, cellOverlaps !! i = Some r →
             position r = Z.of_nat (length (leftOf cellOverlaps i r)).
Proof.
  intros Hids.
  destruct (checkCellOverlappingEvents_exact eventInRange options cellEvents)
    as (cellOverlaps & longestStreak & E & Hsame & Hpos & _).
  exists cellOverlaps, longestStreak. split; [done |]. split.
  - intros i r' Hr'.
    destruct (sameRows_lookup _ _ i r' Hsame Hr') as (r & Hr & _ & <-).
    by apply (startsOf_compareAll eventInRange options cellEvents cellEvents ∅).
  - apply Hpos. by apply compareAll_table.
Qed.
End PositionsOfCells.

(** ** createEventSegments on repeated events *)

Section SegmentsOfRepeatedEvents.
Import JS DateUtils.
Variable tz : Z.

Lemma turn_le (first last : Z) (j : nat) :
  turnTimestamp tz first j <= last ↔ (j < turns tz first last)%nat.
Proof.
  unfold turns.
  destruct (Z.leb_spec first last) as [Hle | Hgt].
  - pose proof (day_mono tz _ _ Hle).
    destruct j as [| j]; cbn [turnTimestamp]; [lia |].
    rewrite midnight_le_day. lia.
  - split; [| lia]. intros H. exfalso.
    destruct j as [| j]; cbn [turnTimestamp] in H; [lia |].
    apply midnight_le_day in H.
    pose proof (day_mono tz last first ltac:(lia)). lia.
Qed.

Lemma lookup_repeatedSegments_Some (f : Z → Occurrence.t → Segment.t)
    (occ : gmap string Occurrence.t) (d0 : Z) (j : nat) (k : string) :
  is_Some (repeatedSegments tz f occ d0 j !! k)
  ↔ ∃ n, d0 <= n < d0 + Z.of_nat j ∧ k = dayKey tz n ∧ is_Some (occ !! k).
Proof.
  induction j as [| j IH]; cbn [repeatedSegments].
  - rewrite lookup_empty. split; [by intros [? ?] | intros (n & ? & _); lia].
  - destruct (occ !! dayKey tz (d0 + Z.of_nat j)) as [o |] eqn:Eo.
    + rewrite lookup_insert_is_Some', IH. split.
      * intros [<- | (n & Hn & -> & Hk)].
        -- exists (d0 + Z.of_nat j). split; [lia |]. split; [done |]. by rewrite Eo.
        -- exists n. split; [lia | done].
      * intros (n & Hn & -> & Hk).
        destruct (decide (n = d0 + Z.of_nat j)) as [-> | Hne]; [by left |].
        right. exists n. split; [lia | done].
    + rewrite IH. split.
      * intros (n & Hn & -> & Hk). exists n. split; [lia | done].
      * intros (n & Hn & -> & Hk).
        destruct (decide (n = d0 + Z.of_nat j)) as [-> | Hne].
        -- rewrite Eo in Hk. by destruct Hk.
        -- exists n. split; [lia | done].
Qed.

Lemma lookup_repeatedSegments (f : Z → Occurrence.t → Segment.t)
    (occ : gmap string Occurrence.t) (d0 : Z) (j : nat) (n : Z) (o : Occurrence.t) :
  d0 <= n < d0 + Z.of_nat j → occ !! dayKey tz n = Some o →
  repeatedSegments tz f occ d0 j !! dayKey tz n = Some (f n o).
Proof.
  induction j as [| j IH]; cbn [repeatedSegments]; intros Hn Ho; [lia |].
  destruct (decide (n = d0 + Z.of_nat j)) as [-> | Hne].
  - rewrite Ho. by rewrite lookup_insert_eq.
  - destruct (occ !! dayKey tz (d0 + Z.of_nat j)).
    + rewrite lookup_insert_ne by (intros E; apply dayKey_inj in E; lia).
      apply IH; [lia | done].
    + apply IH; [lia | done].
Qed.

Section OneEvent.
Variable e : Event.t.
Variable r : Repeat.t.
Variable occ : gmap string Occurrence.t.
Variables viewStartDate : Date.
Variable end_ : Z.
Hypothesis Hrepeat : Event.repeat e = Some r.
Hypothesis Hocc : Event.occurrences e = Some occ.
Hypothesis Hsingle : singleDays tz occ.

Let f := repeatedSegmentOfDay tz e viewStartDate.

Lemma createEventSegments_body_repeated (j : nat) (st : Part000.SegmentsLoop) :
  Part000.timestamp st = turnTimestamp tz (getTime viewStartDate) j →
  Part000.repeatedEventStartFound st = false →
  Part000.loopSegments st
    = repeatedSegments tz f occ (day tz (getTime viewStartDate)) j →
  let st' := Part000.createEventSegments_body tz e end_ st in
  Part000.timestamp st' = turnTimestamp tz (getTime viewStartDate) (S j)
  ∧ Part000.repeatedEventStartFound st' = false
  ∧ Part000.loopSegments st'
    = repeatedSegments tz f occ (day tz (getTime viewStartDate)) (S j).
Proof.
  intros Hts Hfound Hsg. cbv zeta.
  unfold Part000.createEventSegments_body. rewrite Hrepeat, Hocc, Hts, Hfound, Hsg.
  cbv zeta. cbn [mbind option_bind orb].
  cbn [Part000.timestamp Part000.repeatedEventStartFound Part000.loopSegments].
  rewrite next_turnTimestamp. split; [done |].
  set (n := day tz (getTime viewStartDate) + Z.of_nat j).
  assert (Hday : day tz (turnTimestamp tz (getTime viewStartDate) j) = n)
    by apply day_turnTimestamp.
  rewrite (formatDateLite_dayKey tz (turnTimestamp tz (getTime viewStartDate) j)), Hday.
  cbn [repeatedSegments]. fold n.
  destruct (occ !! dayKey tz n) as [o |] eqn:Eo.
  - destruct (Hsingle n o Eo) as [Hstart Hend].
    rewrite (bool_decide_eq_true_2 (is_Some (Some o))) by eauto.
    cbn [andb negb from_option].
    assert (Elast : bool_decide (dayKey tz n = formatDateLite tz (Occurrence.end_ o))
                    = true).
    { apply bool_decide_eq_true. by rewrite formatDateLite_dayKey, Hend. }
    rewrite Elast. split; [done |]. clear Elast.
    assert (Efirst : bool_decide (Some (turnTimestamp tz (getTime viewStartDate) j)
                                  = Some (setHours4 tz (Occurrence.start o) 0 0 0 0))
                     = bool_decide (n ≠ day tz viewStartDate
                                    ∨ timeWithinDay tz viewStartDate = 0)).
    { assert (Em : setHours4 tz (Occurrence.start o) 0 0 0 0 = fromLocal tz (n * msPerDay)).
      { unfold setHours4. rewrite Hstart. f_equal. lia. }
      rewrite Em. apply bool_decide_ext. unfold n, getTime.
      destruct j as [| j]; cbn [turnTimestamp].
      - rewrite Z.add_0_r. split.
        + intros [= E]. right. rewrite E. apply timeWithinDay_midnight.
        + intros [? | H0]; [done |]. f_equal.
          unfold timeWithinDay, day, localTime, fromLocal, msPerDay, msPerMinute in *.
          pose proof (Z.div_mod (viewStartDate - tz * 60000) 86400000). lia.
      - split; [intros _; left; lia | done]. }
    rewrite Efirst. clear Efirst.
    unfold f, repeatedSegmentOfDay. cbv zeta.
    destruct (bool_decide (n ≠ day tz viewStartDate
                           ∨ timeWithinDay tz viewStartDate = 0)) eqn:Ec.
    + by rewrite formatDateLite_dayKey, Hstart.
    + rewrite formatDateLite_dayKey, Hday.
      apply bool_decide_eq_false in Ec.
      destruct j as [| j]; [done |]. exfalso. apply Ec. left. unfold n, getTime. lia.
  - rewrite (bool_decide_eq_false_2 (is_Some None)) by (by intros [? ?]).
    cbn [andb negb]. split; [| done]. by destruct (bool_decide _).
Qed.

Lemma createEventSegments_loop_repeated (fuel j : nat) (st : Part000.SegmentsLoop) :
  (j <= turns tz (getTime viewStartDate) end_)%nat →
  (turns tz (getTime viewStartDate) end_ - j <= fuel)%nat →
  Part000.timestamp st = turnTimestamp tz (getTime viewStartDate) j →
  Part000.repeatedEventStartFound st = false →
  Part000.loopSegments st
    = repeatedSegments tz f occ (day tz (getTime viewStartDate)) j →
  ∃ st', Part000.createEventSegments_loop tz fuel e end_ st = Some st'
         ∧ Part000.loopSegments st'
           = repeatedSegments tz f occ (day tz (getTime viewStartDate))
               (turns tz (getTime viewStartDate) end_).
Proof.
  revert j st. induction fuel as [| fuel IH]; intros j st Hj Hfuel Hts Hfound Hsg;
    cbn [Part000.createEventSegments_loop]; rewrite Hts;
    destruct (Z.leb_spec (turnTimestamp tz (getTime viewStartDate) j) end_)
      as [Hle | Hgt].
  - apply turn_le in Hle. lia.
  - assert (j = turns tz (getTime viewStartDate) end_).
    { pose proof (turn_le (getTime viewStartDate) end_ j). lia. }
    subst j. by exists st.
  - destruct (createEventSegments_body_repeated j st Hts Hfound Hsg)
      as (Hts' & Hfound' & Hsg').
    apply turn_le in Hle. apply (IH (S j)); [lia | lia | done ..].
  - assert (j = turns tz (getTime viewStartDate) end_).
    { pose proof (turn_le (getTime viewStartDate) end_ j). lia. }
    subst j. by exists st.
Qed.
End OneEvent.

(** For a repeated event whose occurrences start and end on the day of
    their key, [createEventSegments] makes a segment for every day of the
    view, up to the end of the repetition, that has an occurrence, and
    for no other day: the segment of the occurrence, a last day. *)
Lemma createEventSegments_repeated_days (e : Event.t) (r : Repeat.t)
    (occ : gmap string Occurrence.t) (viewStartDate viewEndDate : Date) :
  Event.repeat e = Some r → Event.occurrences e = Some occ → singleDays tz occ →
  let first := getTime viewStartDate in
  let last := repeatedEnd r viewEndDate in
  ∃ sg,
    Part000.createEventSegments tz e viewStartDate viewEndDate
      = Some (Event.set_segments (Some sg) e)
    ∧ (∀ k, is_Some (sg !! k)
            ↔ first <= last
              ∧ ∃ n, day tz first <= n <= day tz last ∧ k = dayKey tz n
                     ∧ is_Some (occ !! k))
    ∧ (∀ n o, first <= last → day tz first <= n <= day tz last →
              occ !! dayKey tz n = Some o →
              sg !! dayKey tz n = Some (repeatedSegmentOfDay tz e viewStartDate n o)).
Proof.
  intros Hrepeat Hocc Hsingle first last.
  assert (E : Part000.createEventSegments tz e viewStartDate viewEndDate
              = st ← Part000.createEventSegments_loop tz
                       (Part000.createEventSegments_fuel first last) e last
                       (Part000.mkLoop first (getTime (Event.startDate e))
                          (segmentsEnd tz e) None false ∅);
                Some (Event.set_segments (Some (Part000.loopSegments st)) e)).
  { unfold Part000.createEventSegments. rewrite Hrepeat. reflexivity. }
  rewrite E. clear E.
  destruct (createEventSegments_loop_repeated e r occ viewStartDate last Hrepeat Hocc
              Hsingle (Part000.createEventSegments_fuel first last) O
              (Part000.mkLoop first (getTime (Event.startDate e)) (segmentsEnd tz e)
                 None false ∅)) as (st' & -> & Hsg);
    [lia | | reflexivity | reflexivity | reflexivity |].
  { unfold Part000.createEventSegments_fuel, turns. fold first.
    destruct (Z.leb_spec first last); [| lia].
    pose proof (days_between tz first last). lia. }
  cbn [mbind option_bind]. eexists. split; [reflexivity |]. rewrite Hsg.
  assert (Hturns : ∀ n, first <= last →
            (day tz first <= n <= day tz last
             ↔ day tz first <= n < day tz first + Z.of_nat (turns tz first last))).
  { intros n Hle. unfold turns. pose proof (day_mono tz _ _ Hle).
    destruct (Z.leb_spec first last); lia. }
  split.
  - intros k. rewrite lookup_repeatedSegments_Some. fold first. split.
    + intros (n & Hn & -> & Hk).
      assert (first <= last).
      { unfold turns in Hn. destruct (Z.leb_spec first last); [done | lia]. }
      split; [done |]. exists n. by rewrite Hturns.
    + intros (Hle & n & Hn & -> & Hk). exists n. by rewrite <- Hturns.
  - intros n o Hle Hn Ho. apply lookup_repeatedSegments; [| done].
    by apply Hturns.
Qed.
End SegmentsOfRepeatedEvents.

(** * More of the code

    ** date-utils.js *)

(** X1. [countDays] counts the civil days from the day of [start] to the
    day of [end], both included, whatever the times of day. *)
Theorem X1_countDays_counts_civil_days (tz : Z) (start end_ : JS.Date) :
  DateUtils.countDays tz start end_ = JS.day tz end_ - JS.day tz start + 1.
Proof. exact (countDays_counts_civil_days tz start end_). Qed.

(** X2. Two dates have the same key [YYYY-MM-DD] exactly when they are on
    the same civil day. *)
Theorem X2_formatDateLite_same_key_same_day (tz : Z) (a b : JS.Date) :
  DateUtils.formatDateLite tz a = DateUtils.formatDateLite tz b ↔ JS.day tz a = JS.day tz b.
Proof. exact (formatDateLite_same_key_same_day tz a b). Qed.

(** X3. The time that [formatTime] writes for a number of minutes that is
    not negative reads back as that number: its hours times sixty plus its
    minutes. *)
Theorem X3_formatTime_reads_back (time : Z) :
  0 <= time →
  ∃ HH mm,
    DateUtils.formatTime time = HH +:+ ":" +:+ mm
    ∧ JS.includesChar ":"%char mm = false
    ∧ decimalValue HH * 60 + decimalValue mm = time.
Proof. exact (formatTime_reads_back time). Qed.

Lemma X3_formatTime_reads_back_witness :
  0 <= 570
  ∧ ∃ HH mm,
      DateUtils.formatTime 570 = HH +:+ ":" +:+ mm
      ∧ JS.includesChar ":"%char mm = false
      ∧ decimalValue HH * 60 + decimalValue mm = 570.
Proof. split; [lia | apply (X3_formatTime_reads_back 570); lia]. Defined.

(** X4. [getPreviousFirstDayOfWeek] gives a first day of the week (a Monday,
    or a Sunday when weeks start on Sunday), six days back at most, and, in
    a zone with a fixed offset [tz], at the same time of day.  (Where a day
    has 23 hours, [setDate] moves a time that the day skips.) *)
Theorem X4_getPreviousFirstDayOfWeek_is_first_day (tz : Z) (now : JS.Date)
    (date : option JS.Date) (weekStartsOnSunday : bool) :
  let d := default now date in
  let r := DateUtils.getPreviousFirstDayOfWeek tz now date weekStartsOnSunday in
  JS.getDay tz r = firstDayOfWeek weekStartsOnSunday
  ∧ 0 <= JS.day tz d - JS.day tz r <= 6
  ∧ JS.timeWithinDay tz r = JS.timeWithinDay tz d.
Proof. exact (getPreviousFirstDayOfWeek_is_first_day tz now date weekStartsOnSunday). Qed.

(** X5. A date that [getPreviousFirstDayOfWeek] gives is its own previous
    first day of the week. *)
Theorem X5_getPreviousFirstDayOfWeek_idempotent (tz : Z) (now now' : JS.Date)
    (date : option JS.Date) (weekStartsOnSunday : bool) :
  let r := DateUtils.getPreviousFirstDayOfWeek tz now date weekStartsOnSunday in
  DateUtils.getPreviousFirstDayOfWeek tz now' (Some r) weekStartsOnSunday = r.
Proof. exact (getPreviousFirstDayOfWeek_idempotent tz now now' date weekStartsOnSunday). Qed.

(** X6. Away from the years 0 to 99, which [Date.UTC] reads as years of the
    twentieth century, [getWeek] gives a week number from 1 to 53. *)
Theorem X6_getWeek_range (tz : Z) (this : JS.Date) :
  ¬ (-1 <= JS.getFullYear tz this <= 100) → 1 <= DateUtils.getWeek tz this <= 53.
Proof. exact (getWeek_range tz this). Qed.

Lemma aSaturday_year : JS.getFullYear 0 aSaturday = 2019.
Proof. by vm_compute. Qed.

Lemma X6_getWeek_range_witness :
  ¬ (-1 <= JS.getFullYear 0 aSaturday <= 100) ∧ 1 <= DateUtils.getWeek 0 aSaturday <= 53.
Proof.
  assert (H : ¬ (-1 <= JS.getFullYear 0 aSaturday <= 100)) by (rewrite aSaturday_year; lia).
  split; [exact H | exact (X6_getWeek_range 0 aSaturday H)].
Defined.

(** X7. Two dates with the same previous Monday are in the same week of the
    year. *)
Theorem X7_getWeek_same_monday (tz : Z) (now a b : JS.Date) :
  ¬ (-1 <= JS.getFullYear tz a <= 100) → ¬ (-1 <= JS.getFullYear tz b <= 100) →
  JS.day tz (DateUtils.getPreviousFirstDayOfWeek tz now (Some a) false)
    = JS.day tz (DateUtils.getPreviousFirstDayOfWeek tz now (Some b) false) →
  DateUtils.getWeek tz a = DateUtils.getWeek tz b.
Proof. exact (getWeek_same_monday tz now a b). Qed.

Lemma weekStart_year : JS.getFullYear 0 weekStart = 2019.
Proof. by vm_compute. Qed.

Lemma X7_getWeek_same_monday_witness :
  DateUtils.getWeek 0 aSaturday = DateUtils.getWeek 0 weekStart.
Proof.
  apply (X7_getWeek_same_monday 0 0 aSaturday weekStart).
  - rewrite aSaturday_year. lia.
  - rewrite weekStart_year. lia.
  - by vm_compute.
Defined.

(** X8. Seven days later the week number is one more, or it is 1 again
    after a week 52 or 53. *)
Theorem X8_getWeek_a_week_later (tz : Z) (a b : JS.Date) :
  ¬ (-1 <= JS.getFullYear tz a <= 100) → ¬ (-1 <= JS.getFullYear tz b <= 100) →
  JS.day tz b = JS.day tz a + 7 →
  DateUtils.getWeek tz b = DateUtils.getWeek tz a + 1
  ∨ (52 <= DateUtils.getWeek tz a ∧ DateUtils.getWeek tz b = 1).
Proof. exact (getWeek_a_week_later tz a b). Qed.

Lemma nextSaturday_year : JS.getFullYear 0 nextSaturday = 2019.
Proof. by vm_compute. Qed.

Lemma X8_getWeek_a_week_later_witness :
  DateUtils.getWeek 0 nextSaturday = DateUtils.getWeek 0 aSaturday + 1
  ∨ (52 <= DateUtils.getWeek 0 aSaturday ∧ DateUtils.getWeek 0 nextSaturday = 1).
Proof.
  apply (X8_getWeek_a_week_later 0 aSaturday nextSaturday).
  - rewrite aSaturday_year. lia.
  - rewrite nextSaturday_year. lia.
  - by vm_compute.
Defined.

(** X9. The fourth of January is in week 1. *)
Theorem X9_getWeek_4_january (tz : Z) (this : JS.Date) :
  ¬ (-1 <= JS.getFullYear tz this <= 100) →
  JS.getMonth tz this = 0 → JS.getDate tz this = 4 → DateUtils.getWeek tz this = 1.
Proof. exact (getWeek_4_january tz this). Qed.

Lemma fourthOfJanuary_year : JS.getFullYear 0 fourthOfJanuary = 2019.
Proof. by vm_compute. Qed.

Lemma X9_getWeek_4_january_witness : DateUtils.getWeek 0 fourthOfJanuary = 1.
Proof.
  apply (X9_getWeek_4_january 0 fourthOfJanuary).
  - rewrite fourthOfJanuary_year. lia.
  - by vm_compute.
  - by vm_compute.
Defined.

(** X10. [isLeapYear] holds of the dates of the years of 366 days, and of
    no other. *)
Theorem X10_isLeapYear_366_days (tz : Z) (this : JS.Date) :
  DateUtils.isLeapYear tz this = true ↔ daysInYear (JS.getFullYear tz this) = 366.
Proof. exact (isLeapYear_366_days tz this). Qed.

(** X11. [isToday] compares a date with the day for which the variables of
    [todayFormatted] were filled: that is today when the day of the month
    has changed since, and the day of the last filling when it has not,
    whatever the month and the year. *)
Theorem X11_isToday_answers_for_the_cached_day (tz : Z) (this clock filled : JS.Date) :
  let asked :=
    if bool_decide (JS.getDate tz filled = JS.getDate tz clock) then filled else clock in
  ((DateUtils.isToday tz this clock (cachedAt tz filled)).1 = true
   ↔ JS.day tz this = JS.day tz asked)
  ∧ (DateUtils.isToday tz this clock (cachedAt tz filled)).2 = cachedAt tz asked.
Proof. exact (isToday_answers_for_the_cached_day tz this clock filled). Qed.

(** ** Ranges *)

(** X12. An all-day event, or an event without a time, is in a range when
    the day of its start is one of the days of the range; its end plays no
    role. *)
Theorem X12_eventInRange_dated_by_start_day (tz : Z) (e : Event.t) (start end_ : JS.Date) :
  ¬ timed e →
  Part000.eventInRange tz e start end_ = true
  ↔ JS.day tz start <= JS.day tz (Event.startDate e) <= JS.day tz end_.
Proof. exact (eventInRange_dated_by_start_day tz e start end_). Qed.

Lemma allDayEvent_not_timed : ¬ timed allDayEvent.
Proof. by intros [? _]. Qed.

Lemma X12_eventInRange_dated_by_start_day_witness :
  ¬ timed allDayEvent
  ∧ (Part000.eventInRange 0 allDayEvent weekStart weekEnd = true
     ↔ JS.day 0 weekStart <= JS.day 0 (Event.startDate allDayEvent) <= JS.day 0 weekEnd).
Proof.
  split; [exact allDayEvent_not_timed |].
  exact (X12_eventInRange_dated_by_start_day 0 allDayEvent weekStart weekEnd
           allDayEvent_not_timed).
Defined.

(** X13. On events that are not repeated, [eventInRange] of
    [event-utils.js] and [eventInRange] of [part_000] agree. *)
Theorem X13_eventInRange_revisions_agree (tz : Z) (e : Event.t) (start end_ : JS.Date) :
  Event.repeat e = None →
  EventUtils.eventInRange tz e start end_ = Part000.eventInRange tz e start end_.
Proof. exact (eventInRange_revisions_agree tz e start end_). Qed.

Lemma X13_eventInRange_revisions_agree_witness :
  EventUtils.eventInRange 0 allDayEvent weekStart weekEnd
    = Part000.eventInRange 0 allDayEvent weekStart weekEnd.
Proof. apply (X13_eventInRange_revisions_agree 0 allDayEvent weekStart weekEnd). reflexivity. Defined.

(** X14. Of two timed events, the one is in the interval of the other
    exactly when the other is in the interval of the one. *)
Theorem X14_eventInRange_timed_symmetric (tz : Z) (e e2 : Event.t) :
  timed e → timed e2 →
  Part000.eventInRange tz e2 (Event.startDate e) (Event.endDate e)
    = Part000.eventInRange tz e (Event.startDate e2) (Event.endDate e2).
Proof. exact (eventInRange_timed_symmetric tz e e2). Qed.

Lemma meetingEvent_timed : timed meetingEvent.
Proof. by split. Qed.

Lemma laterEvent_timed : timed laterEvent.
Proof. by split. Qed.

Lemma X14_eventInRange_timed_symmetric_witness :
  Part000.eventInRange 0 laterEvent (Event.startDate meetingEvent) (Event.endDate meetingEvent)
    = Part000.eventInRange 0 meetingEvent (Event.startDate laterEvent)
        (Event.endDate laterEvent).
Proof.
  exact (X14_eventInRange_timed_symmetric 0 meetingEvent laterEvent
           meetingEvent_timed laterEvent_timed).
Defined.

(** X15. [recurringEventInRange] holds exactly when the range ends after the
    start of the event and one of the days that the loop visits, day after
    day from [start] on and before the end of the range and of the
    repetition, repeats the event. *)
Theorem X15_recurringEventInRange_visits_days (tz : Z) (event : Event.t) (r : Repeat.t)
    (start end_ : JS.Date) :
  EventUtils.recurringEventInRange tz event r start end_ = true
  ↔ Event.startDate event < end_
    ∧ ∃ k, 0 <= k ∧ start + k * JS.msPerDay < repeatEnd r end_
           ∧ repeatsOn tz event r (start + k * JS.msPerDay) = true.
Proof. exact (recurringEventInRange_visits_days tz event r start end_). Qed.

(** X16. A timed event with a repeat rule that names no weekdays and is
    neither monthly nor yearly is in no range, not even in its own
    interval. *)
Theorem X16_eventInRange_repeat_without_days (tz : Z) (e : Event.t) (r : Repeat.t)
    (start end_ : JS.Date) :
  timed e → Event.repeat e = Some r →
  Repeat.weekdays r = None → Repeat.every r ≠ "month" → Repeat.every r ≠ "year" →
  EventUtils.eventInRange tz e start end_ = false.
Proof. exact (eventInRange_repeat_without_days tz e r start end_). Qed.

Lemma X16_eventInRange_repeat_without_days_witness :
  EventUtils.eventInRange 0 dailyEvent (Event.startDate dailyEvent) (Event.endDate dailyEvent)
    = false.
Proof.
  apply (X16_eventInRange_repeat_without_days 0 dailyEvent (Repeat.mk "day" None None)).
  - by split.
  - reflexivity.
  - reflexivity.
  - discriminate.
  - discriminate.
Defined.

(** ** Segments *)

(** X17. For an event that is not repeated and whose [start] begins with the
    day of its start date, [createEventSegments] makes one segment for
    every day of the part of the event that the view shows, and no other:
    the segment of a day is under the key of the day, it is the first day
    when the view shows the start of the event and the last day when the
    view shows its end. *)
Theorem X17_createEventSegments_one_segment_per_day (tz : Z) (e : Event.t)
    (viewStartDate viewEndDate : JS.Date) :
  Event.repeat e = None → startKeyed tz e →
  let first := firstTimestamp e viewStartDate in
  let last := lastTimestamp tz e viewEndDate in
  ∃ sg,
    Part000.createEventSegments tz e viewStartDate viewEndDate
      = Some (Event.set_segments (Some sg) e)
    ∧ (∀ k, is_Some (sg !! k)
            ↔ first <= last
              ∧ ∃ n, JS.day tz first <= n <= JS.day tz last ∧ k = dayKey tz n)
    ∧ (∀ n, first <= last → JS.day tz first <= n <= JS.day tz last →
            sg !! dayKey tz n = Some (segmentOfDay tz e viewStartDate viewEndDate n)).
Proof. exact (createEventSegments_one_segment_per_day tz e viewStartDate viewEndDate). Qed.

Lemma twoDayEvent_startKeyed : startKeyed 0 twoDayEvent.
Proof. by vm_compute. Qed.

Lemma X17_createEventSegments_one_segment_per_day_witness :
  ∃ sg,
    Part000.createEventSegments 0 twoDayEvent weekStart weekEnd
      = Some (Event.set_segments (Some sg) twoDayEvent)
    ∧ (∀ k, is_Some (sg !! k)
            ↔ firstTimestamp twoDayEvent weekStart <= lastTimestamp 0 twoDayEvent weekEnd
              ∧ ∃ n, JS.day 0 (firstTimestamp twoDayEvent weekStart) <= n
                       <= JS.day 0 (lastTimestamp 0 twoDayEvent weekEnd)
                     ∧ k = dayKey 0 n)
    ∧ (∀ n, firstTimestamp twoDayEvent weekStart <= lastTimestamp 0 twoDayEvent weekEnd →
            JS.day 0 (firstTimestamp twoDayEvent weekStart) <= n
              <= JS.day 0 (lastTimestamp 0 twoDayEvent weekEnd) →
            sg !! dayKey 0 n = Some (segmentOfDay 0 twoDayEvent weekStart weekEnd n)).
Proof.
  exact (X17_createEventSegments_one_segment_per_day 0 twoDayEvent weekStart weekEnd
           eq_refl twoDayEvent_startKeyed).
Defined.



(** X19. For a repeated event whose occurrences start and end on the day of
    their key, [createEventSegments] makes a segment for every day of the
    view, up to the end of the repetition, that has an occurrence, and for
    no other day; the segment is the one of the occurrence: a last day, and
    a first day unless the view starts on that day after midnight. *)
Theorem X19_createEventSegments_repeated_days (tz : Z) (e : Event.t) (r : Repeat.t)
    (occ : gmap string Occurrence.t) (viewStartDate viewEndDate : JS.Date) :
  Event.repeat e = Some r → Event.occurrences e = Some occ → singleDays tz occ →
  let first := JS.getTime viewStartDate in
  let last := repeatedEnd r viewEndDate in
  ∃ sg,
    Part000.createEventSegments tz e viewStartDate viewEndDate
      = Some (Event.set_segments (Some sg) e)
    ∧ (∀ k, is_Some (sg !! k)
            ↔ first <= last
              ∧ ∃ n, JS.day tz first <= n <= JS.day tz last ∧ k = dayKey tz n
                     ∧ is_Some (occ !! k))
    ∧ (∀ n o, first <= last → JS.day tz first <= n <= JS.day tz last →
              occ !! dayKey tz n = Some o →
              sg !! dayKey tz n = Some (repeatedSegmentOfDay tz e viewStartDate n o)).
Proof. exact (createEventSegments_repeated_days tz e r occ viewStartDate viewEndDate). Qed.

Lemma weeklyEvent_singleDays :
  singleDays 0 weeklyOccurrences.
Proof.
  intros n o Ho. unfold weeklyOccurrences in Ho. apply lookup_insert_Some in Ho as [[Ek <-] | [_ Ho]].
  - assert (n = 18202) as ->.
    { apply (dayKey_inj 0). rewrite <- Ek. vm_compute. reflexivity. }
    clear Ek. split; vm_compute; reflexivity.
  - by rewrite lookup_empty in Ho.
Qed.

Lemma X19_createEventSegments_repeated_days_witness :
  ∃ sg,
    Part000.createEventSegments 0 weeklyEvent weekStart weekEnd
      = Some (Event.set_segments (Some sg) weeklyEvent)
    ∧ (∀ k, is_Some (sg !! k)
            ↔ JS.getTime weekStart <= repeatedEnd everySaturday weekEnd
              ∧ ∃ n, JS.day 0 (JS.getTime weekStart) <= n
                       <= JS.day 0 (repeatedEnd everySaturday weekEnd)
                     ∧ k = dayKey 0 n
                     ∧ is_Some (weeklyOccurrences !! k))
    ∧ (∀ n o,
         JS.getTime weekStart <= repeatedEnd everySaturday weekEnd →
         JS.day 0 (JS.getTime weekStart) <= n
           <= JS.day 0 (repeatedEnd everySaturday weekEnd) →
         weeklyOccurrences !! dayKey 0 n = Some o →
         sg !! dayKey 0 n = Some (repeatedSegmentOfDay 0 weeklyEvent weekStart n o)).
Proof.
  exact (X19_createEventSegments_repeated_days 0 weeklyEvent everySaturday
           weeklyOccurrences
           weekStart weekEnd eq_refl eq_refl weeklyEvent_singleDays).
Defined.

(** X20. In a zone with a fixed offset [tz], for an event that is not
    repeated, [createEventSegments] of [event-utils.js] and of [part_000]
    make the same segments, when the first instant to show is a full second
    and the end of the event, a second taken off if it ends at 00:00, is not
    midnight sharp.  (The loop of [event-utils.js] steps by 24 hours: on a
    day of 25 hours it comes back to the same midnight and does not end, as
    the comment in [part_000] says.) *)
Theorem X20_createEventSegments_revisions_agree (tz : Z) (e : Event.t)
    (viewStartDate viewEndDate : JS.Date) :
  Event.repeat e = None →
  JS.getMilliseconds tz (firstTimestamp e viewStartDate) = 0 →
  JS.timeWithinDay tz (segmentsEnd tz e) ≠ 0 →
  EventUtils.createEventSegments tz e viewStartDate viewEndDate
    = Part000.createEventSegments tz e viewStartDate viewEndDate.
Proof. exact (createEventSegments_revisions_agree tz e viewStartDate viewEndDate). Qed.

Lemma X20_createEventSegments_revisions_agree_witness :
  EventUtils.createEventSegments 0 twoDayEvent weekStart weekEnd
    = Part000.createEventSegments 0 twoDayEvent weekStart weekEnd.
Proof.
  apply (X20_createEventSegments_revisions_agree 0 twoDayEvent weekStart weekEnd eq_refl).
  - by vm_compute.
  - by vm_compute.
Defined.

(** X21. [removeEventSegment] never takes the last segment away and never
    leaves [null] for segments: an event of one segment is left as it is,
    and an event of more segments keeps one at least, its days count being
    one less than the segments it had. *)
Theorem X21_removeEventSegment_keeps_a_segment (tz : Z) (e : Event.t)
    (sg : gmap string Segment.t) :
  Event.segments e = Some sg →
  ∃ e' k sg',
    Part000.removeEventSegment tz e = Some (e', k)
    ∧ Event.segments e' = Some sg'
    ∧ ((size sg <= 1)%nat → e' = e)
    ∧ ((1 < size sg)%nat →
       (1 <= size sg')%nat ∧ Event.daysCount e' = Z.of_nat (size sg) - 1).
Proof. exact (removeEventSegment_keeps_a_segment tz e sg). Qed.

Lemma X21_removeEventSegment_keeps_a_segment_witness :
  ∃ sg e' k sg',
    Event.segments twoDayEvent = Some sg
    ∧ Part000.removeEventSegment 0 twoDayEvent = Some (e', k)
    ∧ Event.segments e' = Some sg'
    ∧ ((size sg <= 1)%nat → e' = twoDayEvent)
    ∧ ((1 < size sg)%nat →
       (1 <= size sg')%nat ∧ Event.daysCount e' = Z.of_nat (size sg) - 1).
Proof.
  eexists.
  destruct (X21_removeEventSegment_keeps_a_segment 0 twoDayEvent _ eq_refl)
    as (e' & k & sg' & H).
  exists e', k, sg'. split; [reflexivity | exact H].
Defined.

(** X22. In a zone with a fixed offset [tz], for an event with segments
    that is fit for resizing, [addEventSegment] followed by
    [removeEventSegment] gives the event back, every attribute of it, and
    returns the key of its end day.  (The fixed offset is for [endDate], as
    in C1.) *)
Theorem X22_add_then_remove_gives_the_event_back (tz : Z) (e : Event.t)
    (sg : gmap string Segment.t) :
  resizable tz e → Event.segments e = Some sg →
  Part000.removeEventSegment tz (Part000.addEventSegment tz e).1 = Some (e, endKey tz e).
Proof. exact (add_then_remove_gives_the_event_back tz e sg). Qed.

Lemma X22_add_then_remove_gives_the_event_back_witness :
  Part000.removeEventSegment 0 (Part000.addEventSegment 0 twoDayEvent).1
    = Some (twoDayEvent, endKey 0 twoDayEvent).
Proof.
  exact (X22_add_then_remove_gives_the_event_back 0 twoDayEvent _ twoDayEvent_resizable
           eq_refl).
Defined.

(** ** Creation and deletion *)

(** X23. Two events that are created without an id of their own have the
    same id only when they come from components of the same number at the
    same count; an event and the next one of a component have different
    ids. *)
Theorem X23_created_ids (tz : Z) (Date_parse : string → JS.Date) (d d' : JS.Date)
    (o o' : EventOptions.t) (v v' : Vuecal.t) :
  EventOptions._eid o = None → EventOptions._eid o' = None →
  (Event._eid (Part000.newEvent tz Date_parse d o v).1
     = Event._eid (Part000.newEvent tz Date_parse d' o' v').1
   ↔ Vuecal._uid v = Vuecal._uid v'
     ∧ Vuecal.eventIdIncrement v = Vuecal.eventIdIncrement v')
  ∧ Event._eid (Part000.newEvent tz Date_parse d' o'
                  (Part000.newEvent tz Date_parse d o v).2).1
    ≠ Event._eid (Part000.newEvent tz Date_parse d o v).1.
Proof. exact (created_ids tz Date_parse d d' o o' v v'). Qed.

Lemma X23_created_ids_witness :
  Event._eid (Part000.newEvent 0 (fun _ => 0) nextSaturday EventOptions.empty
                (Part000.newEvent 0 (fun _ => 0) aSaturday EventOptions.empty
                   hourlyView).2).1
    ≠ Event._eid (Part000.newEvent 0 (fun _ => 0) aSaturday EventOptions.empty hourlyView).1.
Proof.
  exact (proj2 (X23_created_ids 0 (fun _ => 0) aSaturday nextSaturday EventOptions.empty
                  EventOptions.empty hourlyView hourlyView eq_refl eq_refl)).
Defined.

(** X24. A call of [createAnEvent] with a date or a string uses up one id,
    whether an event comes out of it or the hook refuses it; a call with
    anything else uses none.  ([addEventsToView] is taken to leave the
    count alone.) *)
Theorem X24_createAnEvent_counter (tz : Z) (Date_parse : string → JS.Date)
    (addEventsToView : list Event.t → Vuecal.t → list Event.t * Vuecal.t)
    (dateTime : Part000.DateTimeArg) (o : EventOptions.t) (v : Vuecal.t) :
  (∀ events v, Vuecal.eventIdIncrement (addEventsToView events v).2
               = Vuecal.eventIdIncrement v) →
  Vuecal.eventIdIncrement
    (Part000.createAnEvent tz Date_parse addEventsToView dateTime o v).2
    = Vuecal.eventIdIncrement v
      + (if instantOf Date_parse dateTime is Some _ then 1 else 0).
Proof. exact (createAnEvent_counter tz Date_parse addEventsToView dateTime o v). Qed.

Lemma X24_createAnEvent_counter_witness :
  Vuecal.eventIdIncrement
    (Part000.createAnEvent 0 (fun _ => 0) (fun events v => (events, v))
       (Part000.ADate aSaturday) EventOptions.empty refusingView).2
    = Vuecal.eventIdIncrement refusingView + 1.
Proof.
  apply (X24_createAnEvent_counter 0 (fun _ => 0) (fun events v => (events, v))
           (Part000.ADate aSaturday) EventOptions.empty refusingView).
  reflexivity.
Defined.

(** X25. After [deleteAnEvent] no event of the component has the id of the
    deleted event, the events of other ids are the ones of before, and a
    second deletion leaves the events as they are. *)
Theorem X25_deleteAnEvent_removes (event : Event.t) (v : Vuecal.t) :
  freshId (Event._eid event) (Part000.deleteAnEvent event v)
  ∧ (∀ e, Event._eid e ≠ Event._eid event →
          (e ∈ Vuecal.mutableEvents (Part000.deleteAnEvent event v)
           ↔ e ∈ Vuecal.mutableEvents v)
          ∧ (e ∈ Vuecal.view_events (Part000.deleteAnEvent event v)
             ↔ e ∈ Vuecal.view_events v))
  ∧ Vuecal.mutableEvents (Part000.deleteAnEvent event (Part000.deleteAnEvent event v))
    = Vuecal.mutableEvents (Part000.deleteAnEvent event v)
  ∧ Vuecal.view_events (Part000.deleteAnEvent event (Part000.deleteAnEvent event v))
    = Vuecal.view_events (Part000.deleteAnEvent event v).
Proof. exact (deleteAnEvent_removes event v). Qed.

(** ** Overlaps *)

(** X26. In a cell whose events have different ids, an id is among the
    overlaps of another id exactly when the test of the inner loop holds
    of their two events, taken in the order of the cell; no id is among
    its own overlaps. *)
Theorem X26_overlaps_exact (tz : Z) (options : Overlaps.Options)
    (cellEvents : list Event.t) :
  NoDup (Event._eid <$> cellEvents) →
  ∃ cellOverlaps longestStreak,
    Part000.checkCellOverlappingEvents tz cellEvents options
      = Some (cellOverlaps, longestStreak)
    ∧ (∀ i j, related cellOverlaps i j
              ↔ overlapIn (Part000.eventInRange tz) options cellEvents i j)
    ∧ ∀ i, ¬ related cellOverlaps i i.
Proof. exact (overlaps_exact (Part000.eventInRange tz) options cellEvents). Qed.

Lemma threeMeetings_ids :
  NoDup (Event._eid <$> [meetingEvent; laterEvent; earlyEvent]).
Proof. apply (bool_decide_unpack _). vm_compute. exact I. Qed.

Lemma X26_overlaps_exact_witness :
  ∃ cellOverlaps longestStreak,
    Part000.checkCellOverlappingEvents 0 [meetingEvent; laterEvent; earlyEvent]
      (Overlaps.mkOptions false 30)
      = Some (cellOverlaps, longestStreak)
    ∧ (∀ i j, related cellOverlaps i j
              ↔ overlapIn (Part000.eventInRange 0) (Overlaps.mkOptions false 30)
                  [meetingEvent; laterEvent; earlyEvent] i j)
    ∧ ∀ i, ¬ related cellOverlaps i i.
Proof.
  exact (X26_overlaps_exact 0 (Overlaps.mkOptions false 30)
           [meetingEvent; laterEvent; earlyEvent] threeMeetings_ids).
Defined.

(** X27. In a cell of timed events of different ids, the id of an event is
    among the overlaps of another event exactly when neither is a
    background event, each starts before the other ends, and their starts
    are close if overlaps are counted per time step. *)
Theorem X27_overlaps_of_timed_events (tz : Z) (options : Overlaps.Options)
    (cellEvents : list Event.t) :
  NoDup (Event._eid <$> cellEvents) →
  (∀ e, e ∈ cellEvents → timed e) →
  ∃ cellOverlaps longestStreak,
    Part000.checkCellOverlappingEvents tz cellEvents options
      = Some (cellOverlaps, longestStreak)
    ∧ ∀ e e2, e ∈ cellEvents → e2 ∈ cellEvents →
        (related cellOverlaps (Event._eid e) (Event._eid e2)
         ↔ e ≠ e2 ∧ Event.background e = false ∧ Event.background e2 = false
           ∧ intervalsMeet e e2 ∧ closeStarts options e e2).
Proof. exact (overlaps_of_timed_events tz options cellEvents). Qed.

Lemma threeMeetings_timed (e : Event.t) :
  e ∈ [meetingEvent; laterEvent; earlyEvent] → timed e.
Proof.
  intros [-> | [-> | [-> | []%elem_of_nil]%elem_of_cons]%elem_of_cons]%elem_of_cons;
    by split.
Qed.

Lemma X27_overlaps_of_timed_events_witness :
  ∃ cellOverlaps longestStreak,
    Part000.checkCellOverlappingEvents 0 [meetingEvent; laterEvent; earlyEvent]
      (Overlaps.mkOptions false 30)
      = Some (cellOverlaps, longestStreak)
    ∧ ∀ e e2, e ∈ [meetingEvent; laterEvent; earlyEvent] →
              e2 ∈ [meetingEvent; laterEvent; earlyEvent] →
        (related cellOverlaps (Event._eid e) (Event._eid e2)
         ↔ e ≠ e2 ∧ Event.background e = false ∧ Event.background e2 = false
           ∧ intervalsMeet e e2 ∧ closeStarts (Overlaps.mkOptions false 30) e e2).
Proof.
  exact (X27_overlaps_of_timed_events 0 (Overlaps.mkOptions false 30)
           [meetingEvent; laterEvent; earlyEvent] threeMeetings_ids threeMeetings_timed).
Defined.

(** X28. In a cell whose events have different ids, every entry of the table
    has the start of its event, and its position is the number of its
    overlaps that come before it in its row: that start earlier, or at the
    same time with a greater id. *)
Theorem X28_positions_count_earlier_overlaps (tz : Z) (options : Overlaps.Options)
    (cellEvents : list Event.t) :
  NoDup (Event._eid <$> cellEvents) →
  ∃ cellOverlaps longestStreak,
    Part000.checkCellOverlappingEvents tz cellEvents options
      = Some (cellOverlaps, longestStreak)
    ∧ startsOf cellEvents cellOverlaps
    ∧ ∀ i r, cellOverlaps !! i = Some r →
             Overlaps.position r = Z.of_nat (length (leftOf cellOverlaps i r)).
Proof.
  exact (positions_count_earlier_overlaps (Part000.eventInRange tz) options cellEvents).
Qed.

Lemma X28_positions_count_earlier_overlaps_witness :
  ∃ cellOverlaps longestStreak,
    Part000.checkCellOverlappingEvents 0 [meetingEvent; laterEvent; earlyEvent]
      (Overlaps.mkOptions false 30)
      = Some (cellOverlaps, longestStreak)
    ∧ startsOf [meetingEvent; laterEvent; earlyEvent] cellOverlaps
    ∧ ∀ i r, cellOverlaps !! i = Some r →
             Overlaps.position r = Z.of_nat (length (leftOf cellOverlaps i r)).
Proof.
  exact (X28_positions_count_earlier_overlaps 0 (Overlaps.mkOptions false 30)
           [meetingEvent; laterEvent; earlyEvent] threeMeetings_ids).
Defined.

(** X29. The streak of an entry is the number of its overlaps plus one
    exactly when every one of its overlaps is among the overlaps of every
    other one. *)
Theorem X29_getOverlapsStreak_full (cellOverlaps : gmap string Overlaps.Record_)
    (event : Overlaps.Record_) :
  (∀ id, id ∈ Overlaps.overlaps event → is_Some (cellOverlaps !! id)) →
  Part000.getOverlapsStreak event cellOverlaps
    = Some (Z.of_nat (length (Overlaps.overlaps event)) + 1)
  ↔ allOverlap cellOverlaps event.
Proof. exact (getOverlapsStreak_full cellOverlaps event). Qed.

Lemma X29_getOverlapsStreak_full_witness :
  Part000.getOverlapsStreak (Overlaps.mk ["2"; "3"] "2019-11-02 09:00" 0) threeOverlaps
    = Some (Z.of_nat (length ["2"; "3"]) + 1)
  ↔ allOverlap threeOverlaps (Overlaps.mk ["2"; "3"] "2019-11-02 09:00" 0).
Proof.
  apply (X29_getOverlapsStreak_full threeOverlaps
           (Overlaps.mk ["2"; "3"] "2019-11-02 09:00" 0)).
  intros id Hid. cbn [Overlaps.overlaps] in Hid.
  apply elem_of_cons in Hid as [-> | Hid]; [eexists; reflexivity |].
  apply list_elem_of_singleton in Hid as ->. eexists; reflexivity.
Defined.

(** X30. The longest streak that [checkCellOverlappingEvents] returns is the
    greatest of the streaks of the entries of the table that it returns;
    it is 0 for a cell without events. *)
Theorem X30_longestStreak_is_greatest (tz : Z) (options : Overlaps.Options)
    (cellEvents : list Event.t) :
  ∃ cellOverlaps longestStreak,
    Part000.checkCellOverlappingEvents tz cellEvents options
      = Some (cellOverlaps, longestStreak)
    ∧ (∀ i r, cellOverlaps !! i = Some r →
              ∃ s, Part000.getOverlapsStreak r cellOverlaps = Some s ∧ s <= longestStreak)
    ∧ ((cellEvents = [] ∧ longestStreak = 0)
       ∨ ∃ i r, cellOverlaps !! i = Some r
                ∧ Part000.getOverlapsStreak r cellOverlaps = Some longestStreak).
Proof. exact (longestStreak_is_greatest (Part000.eventInRange tz) options cellEvents). Qed.
